(** * OEDGE plots: the grid flattening and lookup routines of [OedgePlots]

    A shallow embedding of the data-extraction methods of
    [OEDGE Scripts/oedge_plots.py] (class [OedgePlots]): the constructor
    [__init__] that builds the polygon mesh, [read_data_2d],
    [read_data_2d_kvhs_t13], [get_sep] and [find_ring_knot].

    Conventions of the embedding.
    - A Python float and a numpy [float64] are IEEE 754 binary64 numbers:
      [spec_float] with the operations of [SpecFloat] at precision 53 and
      maximal exponent 1024.  Python and numpy integers are [Z].
    - A call either returns or raises: [res].  A method runs in the monad
      [M] over the state it can reach (the object and the console).
    - Arrays read from the netCDF file have no masked entry (a file
      without missing values).  They are masked arrays of [numpy.ma] all
      the same: [find_ring_knot] computes with them as wholes, and its
      model follows the operations of [numpy.ma], which mask the results
      that are not finite.  The quotient of ['Snorm'] is taken entry by
      entry in binary64, where [numpy.ma] masks a division by zero.
      The arrays the constructor caches have the rank the file declares
      for them; an array looked up by name at call time has the rank the
      file gives it, which the code only discovers by indexing. *)

From Stdlib Require Import ZArith Lia Ascii String.
From Stdlib Require Import SpecFloat.
From stdpp Require Import base tactics option list gmap strings.

Local Open Scope Z_scope.

(** ** Binary64 numbers *)

Abbreviation F := spec_float.

Definition prec : Z := 53.
Definition emax : Z := 1024.

Definition fadd : F → F → F := SFadd prec emax.
Definition fsub : F → F → F := SFsub prec emax.
Definition fmul : F → F → F := SFmul prec emax.
Definition fdiv : F → F → F := SFdiv prec emax.
Definition fsqrt : F → F := SFsqrt prec emax.
Definition fabs : F → F := SFabs.
Definition feqb : F → F → bool := SFeqb.
Definition fleb : F → F → bool := SFleb.
Definition fltb : F → F → bool := SFltb.

(** [x != y] and [x >= y] of Python. *)
Definition fneb (x y : F) : bool := negb (feqb x y).
Definition fgeb (x y : F) : bool := fleb y x.

Definition nan : F := S754_nan.
Definition is_nan (x : F) : bool :=
  match x with S754_nan => true | _ => false end.

(** The float nearest to [m * 2^e], and the float of an integer. *)
Definition dyadic (m e : Z) : F := binary_normalize prec emax m e false.
Definition of_Z (z : Z) : F := dyadic z 0.

Definition f0 : F := S754_zero false.
Definition f1 : F := Eval vm_compute in of_Z 1.

(** Neither an infinity nor a NaN. *)
Definition is_finite (x : F) : bool :=
  match x with S754_zero _ | S754_finite _ _ _ => true | _ => false end.

(** Zero of either sign, a positive number or plus infinity. *)
Definition sign_free (x : F) : bool :=
  match x with
  | S754_zero _ | S754_finite false _ _ | S754_infinity false => true
  | _ => false
  end.

(** ** The Python side: exceptions, results, the method monad *)

Inductive exn :=
  | IndexError | ValueError | AttributeError | TypeError | KeyError.

Inductive res (A : Type) :=
  | Ok (a : A)
  | Raise (e : exn).
Arguments Ok {A} a.
Arguments Raise {A} e.

Global Instance exn_eq_dec : EqDecision exn.
Proof. solve_decision. Defined.

Global Instance res_ret : MRet res := @Ok.
Global Instance res_bind : MBind res := λ A B f r,
  match r with Ok a => f a | Raise e => Raise e end.
Global Instance res_fmap : FMap res := λ A B f r,
  match r with Ok a => Ok (f a) | Raise e => Raise e end.

Definition is_ok {A} (r : res A) : bool :=
  match r with Ok _ => true | Raise _ => false end.

(** A computation over a state [S] that returns or raises.  What was done
    to the state before an exception stays done. *)
Definition M (S A : Type) : Type := S → res A * S.

Global Instance M_ret {S} : MRet (M S) := λ A a s, (Ok a, s).
Global Instance M_bind {S} : MBind (M S) := λ A B f m s,
  match m s with
  | (Ok a, s') => f a s'
  | (Raise e, s') => (Raise e, s')
  end.

Definition lift {S A} (r : res A) : M S A := λ s, (r, s).
Definition gets {S A} (f : S → A) : M S A := λ s, (Ok (f s), s).
Definition modify {S} (f : S → S) : M S () := λ s, (Ok (), f s).

(** [try: body except e: handler]. *)
Definition try_except {S A} (body : M S A) (e : exn) (handler : M S A) : M S A :=
  λ s, match body s with
       | (Raise e', s') => if decide (e' = e) then handler s' else (Raise e', s')
       | r => r
       end.

(** A [for] loop whose body updates the loop's local variables [acc]. *)
Fixpoint foldM {S X Acc} (body : Acc → X → M S Acc) (xs : list X) (acc : Acc)
  : M S Acc :=
  match xs with
  | [] => mret acc
  | x :: xs' => acc' ← body acc x; foldM body xs' acc'
  end.

(** The same loop where nothing but exceptions can happen. *)
Fixpoint foldR {X Acc} (body : Acc → X → res Acc) (xs : list X) (acc : Acc)
  : res Acc :=
  match xs with
  | [] => Ok acc
  | x :: xs' => acc' ← body acc x; foldR body xs' acc'
  end.

Fixpoint mapR {X Y} (f : X → res Y) (xs : list X) : res (list Y) :=
  match xs with
  | [] => Ok []
  | x :: xs' => y ← f x; ys ← mapR f xs'; Ok (y :: ys)
  end.

(** [range(n)]: empty when [n <= 0]. *)
Definition range (n : Z) : list Z := seqZ 0 n.

(** An index into a sequence of length [n]: a negative one counts from the
    end, one outside [-n, n) raises [IndexError]. *)
Definition norm_index (n : nat) (i : Z) : res nat :=
  if bool_decide (0 ≤ i < Z.of_nat n) then Ok (Z.to_nat i)
  else if bool_decide (- Z.of_nat n ≤ i < 0) then Ok (Z.to_nat (i + Z.of_nat n))
  else Raise IndexError.

(** [l[i]] *)
Definition getitem {A} (l : list A) (i : Z) : res A :=
  k ← norm_index (length l) i;
  match l !! k with Some x => Ok x | None => Raise IndexError end.

(** [l[i] = x] on a numpy array or a list *)
Definition setitem {A} (l : list A) (i : Z) (x : A) : res (list A) :=
  k ← norm_index (length l) i;
  Ok (<[k := x]> l).

(** [l[:stop]]: never raises; a negative [stop] counts from the end. *)
Definition slice_to {A} (l : list A) (stop : Z) : list A :=
  let n := Z.of_nat (length l) in
  take (Z.to_nat (if bool_decide (stop < 0) then Z.max (stop + n) 0
                  else Z.min stop n)) l.

(** ** The numpy side *)

(** A two-dimensional array of shape [(length rows, ncols)], row by row. *)
Record array2 (A : Type) := Array2 { ncols : nat; rows : list (list A) }.
Arguments Array2 {A} ncols rows.
Arguments ncols {A} a.
Arguments rows {A} a.

Definition rect {A} (a : array2 A) : Prop :=
  Forall (λ row, length row = ncols a) (rows a).

Definition same_shape {A B} (a : array2 A) (b : array2 B) : bool :=
  bool_decide (length (rows a) = length (rows b) ∧ ncols a = ncols b).

(** [a[i]] and [a[i, j]] *)
Definition row2 {A} (a : array2 A) (i : Z) : res (list A) := getitem (rows a) i.
Definition get2 {A} (a : array2 A) (i j : Z) : res A :=
  row ← row2 a i; getitem row j.

(** [a[idx]] for an integer array [idx]: the rows it selects, in its order. *)
Definition take_rows {A} (a : array2 A) (idx : list Z) : res (array2 A) :=
  sel ← mapR (row2 a) idx; Ok (Array2 (ncols a) sel).

(** [a[:, j]] *)
Definition column {A} (a : array2 A) (j : Z) : res (list A) :=
  k ← norm_index (ncols a) j;
  mapR (λ row, match row !! k with Some x => Ok x | None => Raise IndexError end)
       (rows a).

(** An array of any rank, as numpy stores it: its shape and its elements
    in C order. *)
Record ndarray := NdArray { shape : list nat; buf : list F }.

Definition size_of (sh : list nat) : nat := foldr Nat.mul 1%nat sh.

(** [a[i]] along the first axis; a rank-0 array or a numpy scalar cannot be
    indexed. *)
Definition nd_index (a : ndarray) (i : Z) : res ndarray :=
  match shape a with
  | [] => Raise IndexError
  | n :: rest =>
      k ← norm_index n i;
      Ok (NdArray rest (take (size_of rest) (drop (k * size_of rest) (buf a))))
  end.

(** The value stored into a [float64] slot.  An array of rank 1 or more is
    refused ([ValueError]: setting an array element with a sequence); numpy
    still lets through one that holds a single element, which this model
    refuses as well. *)
Definition nd_scalar (a : ndarray) : res F :=
  match shape a, buf a with
  | [], [x] => Ok x
  | _, _ => Raise ValueError
  end.

(** [a[i][j]] read as a number *)
Definition nd_get2 (a : ndarray) (i j : Z) : res F :=
  r ← nd_index a i; c ← nd_index r j; nd_scalar c.

(** [a[c][i][j]] read as a number *)
Definition nd_get3 (a : ndarray) (c i j : Z) : res F :=
  p ← nd_index a c; r ← nd_index p i; x ← nd_index r j; nd_scalar x.

Definition nd_map (f : F → F) (a : ndarray) : ndarray :=
  NdArray (shape a) (f <$> buf a).

Fixpoint chunks {A} (k : nat) (n : nat) (l : list A) : list (list A) :=
  match n with
  | O => []
  | S n' => take k l :: chunks k n' (drop k l)
  end.

(** [a.sum(axis=0)]: the slices along the first axis added up one after the
    other onto zeros (the identity of [add]); a rank-0 array has no axis 0. *)
Definition np_sum_axis0 (a : ndarray) : res ndarray :=
  match shape a with
  | [] => Raise ValueError
  | n :: rest =>
      Ok (NdArray rest
            (foldl (zip_with fadd) (replicate (size_of rest) f0)
                   (chunks (size_of rest) n (buf a))))
  end.

(** [a / v[:, None]] for a one-dimensional [v]: row [i] of [a] divided by
    [v[i]].  numpy also accepts operands it can broadcast (an axis of length
    1, an [a] of another rank); the variable [KSB] this is used on is written
    with the grid's two dimensions, and everything else is the [ValueError]
    of a shape mismatch here. *)
Definition np_div_rows (a : ndarray) (v : list F) : res ndarray :=
  match shape a with
  | [n; m] =>
      if bool_decide (n = length v) then
        Ok (NdArray [n; m]
              (concat (zip_with (λ row d, (λ x, fdiv x d) <$> row)
                                (chunks m n (buf a)) v)))
      else Raise ValueError
  | _ => Raise ValueError
  end.

(** [maximum] and [minimum] as numpy's reduction loops apply them: the
    running value is kept when it compares, or when it is a NaN. *)
Definition np_maximum (x y : F) : F := if fgeb x y || is_nan x then x else y.
Definition np_minimum (x y : F) : F := if fleb x y || is_nan x then x else y.

(** [a.max()] and [a.min()] over all elements; an empty array has none. *)
Definition np_max (l : list F) : res F :=
  match l with
  | [] => Raise ValueError
  | x :: l' => Ok (foldl np_maximum x l')
  end.
Definition np_min (l : list F) : res F :=
  match l with
  | [] => Raise ValueError
  | x :: l' => Ok (foldl np_minimum x l')
  end.

(** The positions of a row at which [p] holds, in increasing order. *)
Fixpoint positions {A} (p : A → bool) (j : nat) (row : list A) : list nat :=
  match row with
  | [] => []
  | x :: row' => (if p x then [j] else []) ++ positions p (S j) row'
  end.

(** [np.where(cond)] on a two-dimensional array: the index pairs at which
    the condition holds, in row-major order. *)
Fixpoint where2 {A} (p : A → bool) (i : nat) (a : list (list A)) : list (nat * nat) :=
  match a with
  | [] => []
  | row :: a' => ((λ j, (i, j)) <$> positions p 0 row) ++ where2 p (S i) a'
  end.

(** ** Strings of the [.dat] file *)

Definition newline : string := String "010"%char "".

(** [s.split(sep)] for a non-empty [sep]: the pieces between the
    occurrences of [sep], found from the left without overlap.  [skip]
    counts the characters of a separator still to pass over. *)
Fixpoint split_from (sep : string) (skip : nat) (cur : string) (s : string)
  : list string :=
  match s with
  | EmptyString => [cur]
  | String c s' =>
      match skip with
      | S k => split_from sep k cur s'
      | O =>
          if String.prefix sep s
          then cur :: split_from sep (String.length sep - 1) "" s'
          else split_from sep 0 (cur +:+ String c "") s'
      end
  end.
Definition split (s sep : string) : list string := split_from sep 0 "" s.

Definition is_space (c : ascii) : bool :=
  let n := nat_of_ascii c in
  bool_decide (n = 32 ∨ 9 ≤ n ≤ 13 ∨ 28 ≤ n ≤ 31)%nat.

(** [s.split()]: the words between runs of white space. *)
Fixpoint words_from (cur : string) (s : string) : list string :=
  match s with
  | EmptyString => if decide (cur = "") then [] else [cur]
  | String c s' =>
      if is_space c
      then (if decide (cur = "") then [] else [cur]) ++ words_from "" s'
      else words_from (cur +:+ String c "") s'
  end.
Definition split_ws (s : string) : list string := words_from "" s.

(** ** The dataset and the object *)

Definition point : Type := F * F.
Definition polygon : Type := list point.
Definition segment : Type := point * point.

(** What the code prints, line by line; numbers are kept as numbers. *)
Inductive message :=
  | Text (s : string)
  | CellIndexLine (ir ik : Z)
  | VerticesLine (vertices : polygon)
  | CellCenterLine (r z : F).

(** The netCDF file: the variables the constructor reads, with the rank the
    file declares for them, and every float variable by its name ([ABSFAC]
    is absent when DIVIMP was not run). *)
Record netcdf := Netcdf {
  RS : array2 F;
  ZS : array2 F;
  NRS : Z;
  NKS : list Z;
  KAREAS : array2 F;
  KORPG : array2 Z;
  RVERTP : array2 F;
  ZVERTP : array2 F;
  RVESM : ndarray;
  ZVESM : ndarray;
  IRSEP : Z;
  QTIM : F;
  KSS : array2 F;
  KFIZS : ndarray;
  KSMAXS : list F;
  IRWALL : Z;
  CRMB : F;
  CRMI : F;
  CION : Z;
  ABSFAC : option F;
  variables : gmap string ndarray
}.

(** [self.nc[name][:]]: a name the file does not have is an [IndexError]. *)
Definition nc_var (file : netcdf) (name : string) : res ndarray :=
  match variables file !! name with
  | Some a => Ok a
  | None => Raise IndexError
  end.

(** The attributes of an [OedgePlots] object. *)
Record OedgePlots := Build_OedgePlots {
  nc : netcdf;
  ncpath : string;
  datpath : option string;
  dat_file : option string;
  rs : array2 F;
  zs : array2 F;
  nrs : Z;
  nks : list Z;
  area : array2 F;
  korpg : array2 Z;
  rvertp : array2 F;
  zvertp : array2 F;
  rvesm : ndarray;
  zvesm : ndarray;
  irsep : Z;
  qtim : F;
  kss : array2 F;
  kfizs : ndarray;
  ksmaxs : list F;
  irwall : Z;
  crmb : F;
  crmi : F;
  emi : F;
  cion : Z;
  absfac : option F;
  num_cells : Z;
  mesh : list polygon
}.

(** The object a method is called on, and the console. *)
Record world := World { self : OedgePlots; stdout : list message }.

Definition print {S} (out : S → list message) (set : list message → S → S)
    (m : message) : M S () :=
  modify (λ s, set (out s ++ [m]) s).

Definition print_console : message → M (list message) () :=
  print id (λ o _, o).
Definition print_world : message → M world () :=
  print stdout (λ o w, World (self w) o).

(** ** [OedgePlots.__init__] *)

(** The attributes the constructor sets: the variables it loads from the
    file, and the mesh and its size once the loop has built them. *)
Definition load_attributes (file : netcdf) (netcdf_path : string)
    (mesh : list polygon) (num_cells : Z) : OedgePlots := {|
  nc := file; ncpath := netcdf_path; datpath := None; dat_file := None;
  rs := RS file; zs := ZS file; nrs := NRS file; nks := NKS file;
  area := KAREAS file; korpg := KORPG file;
  rvertp := RVERTP file; zvertp := ZVERTP file;
  rvesm := RVESM file; zvesm := ZVESM file;
  irsep := IRSEP file; qtim := QTIM file; kss := KSS file;
  kfizs := KFIZS file; ksmaxs := KSMAXS file; irwall := IRWALL file;
  crmb := CRMB file; crmi := CRMI file;
  emi := S754_finite false 6654447653898235 (-115);
  cion := CION file; absfac := ABSFAC file;
  num_cells := num_cells; mesh := mesh
|}.

Section Constructor.

(** matplotlib's [Path.contains_point], for the path through [vertices]. *)
Variable contains_point : polygon → F → F → bool.

(** [mpl.path.Path(vertices)]: the vertices must form an N x 2 array. *)
Definition Path (vertices : polygon) : res polygon :=
  match vertices with
  | [] => Raise ValueError
  | _ => Ok vertices
  end.

(** The body of the loop over the knots of ring [ir]; [acc] is
    [(mesh, num_cells)]. *)
Definition init_knot (file : netcdf) (ir : Z)
    (acc : list polygon * Z) (ik : Z) : M (list message) (list polygon * Z) :=
  let '(mesh, num_cells) := acc in
  k ← lift (get2 (KORPG file) ir ik);
  let index := k - 1 in
  a ← lift (get2 (KAREAS file) ir ik);
  if fneb a f0 then
    rv ← lift (row2 (RVERTP file) index);
    zv ← lift (row2 (ZVERTP file) index);
    let vertices := zip (take 4 rv) (take 4 zv) in
    let mesh := mesh ++ [vertices] in
    let num_cells := num_cells + 1 in
    cell ← lift (Path vertices);
    r ← lift (get2 (RS file) ir ik);
    z ← lift (get2 (ZS file) ir ik);
    (if negb (contains_point cell r z) then
       print_console (Text "Error: Cell center not within vertices.");;
       print_console (CellIndexLine ir ik);;
       print_console (VerticesLine vertices);;
       print_console (CellCenterLine r z)
     else mret ());;
    mret (mesh, num_cells)
  else mret (mesh, num_cells).

Definition init_ring (file : netcdf)
    (acc : list polygon * Z) (ir : Z) : M (list message) (list polygon * Z) :=
  n ← lift (getitem (NKS file) ir);
  foldM (init_knot file ir) (range n) acc.

Definition __init__ (file : netcdf) (netcdf_path : string)
  : M (list message) OedgePlots :=
  (match ABSFAC file with
   | Some _ => mret ()
   | None =>
       print_console (Text "Warning: Can't load all variables from NetCDF file (okay if DIVIMP was not run).")
   end);;
  '(mesh, num_cells) ← foldM (init_ring file) (range (NRS file)) ([], 0);
  mret (load_attributes file netcdf_path mesh num_cells).

End Constructor.

(** [add_dat_file]: [text] is what reading the file at [dat_path] gives. *)
Definition add_dat_file (dat_path text : string) : M world () :=
  modify (λ w,
    let o := self w in
    World {|
      nc := nc o; ncpath := ncpath o;
      datpath := Some dat_path; dat_file := Some text;
      rs := rs o; zs := zs o; nrs := nrs o; nks := nks o; area := area o;
      korpg := korpg o; rvertp := rvertp o; zvertp := zvertp o;
      rvesm := rvesm o; zvesm := zvesm o; irsep := irsep o; qtim := qtim o;
      kss := kss o; kfizs := kfizs o; ksmaxs := ksmaxs o; irwall := irwall o;
      crmb := crmb o; crmi := crmi o; emi := emi o; cion := cion o;
      absfac := absfac o; num_cells := num_cells o; mesh := mesh o
    |} (stdout w)).

(** ** [OedgePlots.read_data_2d] *)

(** The [charge] argument: [None], ['all'] or a charge state. *)
Inductive charge_arg := ChargeNone | ChargeAll | ChargeState (charge : Z).

(** The [scaling] argument: a factor, or the option ['Ring']. *)
Inductive scaling_arg := Scale (factor : F) | Ring.

(** The first statement: the array named [dataname], or the normalized s
    coordinate computed from [KSB] and [ksmaxs]. *)
Definition load_raw_data (o : OedgePlots) (dataname : string) : res ndarray :=
  if decide (dataname = "Snorm") then
    ksb ← nc_var (nc o) "KSB";
    raw_data ← np_div_rows ksb (ksmaxs o);
    Ok (nd_map (λ x, fabs (fsub (fadd x (fdiv x f1)) f1)) raw_data)
  else nc_var (nc o) dataname.

(** [if charge == 'all': raw_data = raw_data.sum(axis=0)] *)
Definition sum_charges (charge : charge_arg) (raw_data : ndarray) : res ndarray :=
  match charge with
  | ChargeAll => np_sum_axis0 raw_data
  | _ => Ok raw_data
  end.

(** The number read for the cell [(ir, ik)]. *)
Definition raw_value (charge : charge_arg) (raw_data : ndarray) (ir ik : Z) : res F :=
  match charge with
  | ChargeNone | ChargeAll => nd_get2 raw_data ir ik
  | ChargeState c => nd_get3 raw_data (c + 1) ir ik
  end.

(** The body of the loop over the knots of ring [ir]; [acc] is
    [(data, count)]. *)
Definition read_knot (o : OedgePlots) (raw_data : ndarray)
    (charge : charge_arg) (scaling : scaling_arg) (no_core : bool) (ir : Z)
    (acc : list F * Z) (ik : Z) : res (list F * Z) :=
  let '(data, count) := acc in
  a ← get2 (area o) ir ik;
  if fneb a f0 then
    data ← match scaling with
           | Ring => setitem data count (of_Z ir)
           | Scale s =>
               v ← raw_value charge raw_data ir ik;
               data ← setitem data count (fmul v s);
               if no_core && bool_decide (ir < irsep o - 1)
               then setitem data count f0
               else Ok data
           end;
    Ok (data, count + 1)
  else Ok (data, count).

Definition read_ring (o : OedgePlots) (raw_data : ndarray)
    (charge : charge_arg) (scaling : scaling_arg) (no_core : bool)
    (acc : list F * Z) (ir : Z) : res (list F * Z) :=
  n ← getitem (nks o) ir;
  foldR (read_knot o raw_data charge scaling no_core ir) (range n) acc.

(** [np.zeros(n)] *)
Definition np_zeros (n : Z) : res (list F) :=
  if bool_decide (n < 0) then Raise ValueError else Ok (replicate (Z.to_nat n) f0).

(** [data[np.where(data == fill_val)] = None] *)
Definition fill_with_nan (fill_val : F) (data : list F) : list F :=
  (λ x, if feqb x fill_val then nan else x) <$> data.

Definition fix_fill_values (data : list F) : res (list F) :=
  fill_val ← np_max data;
  Ok (fill_with_nan fill_val data).

(** The whole method on the object [o]. *)
Definition read_data_2d_on (o : OedgePlots) (dataname : string)
    (charge : charge_arg) (scaling : scaling_arg) (fix_fill no_core : bool)
  : res (list F) :=
  raw_data ← load_raw_data o dataname;
  data ← np_zeros (num_cells o);
  raw_data ← sum_charges charge raw_data;
  '(data, count) ← foldR (read_ring o raw_data charge scaling no_core)
                         (range (nrs o)) (data, 0);
  if fix_fill then fix_fill_values data else Ok data.

Definition read_data_2d (dataname : string) (charge : charge_arg)
    (scaling : scaling_arg) (fix_fill no_core : bool) : M world (list F) :=
  o ← gets self;
  lift (read_data_2d_on o dataname charge scaling fix_fill no_core).

(** ** [OedgePlots.get_sep] *)

(** The (R, Z) coordinates of the separatrix: vertex 0 of the polygons
    [korpg] names along ring [irsep - 1]. *)
Definition sep_axis (o : OedgePlots) (vertp : array2 F) : res (list F) :=
  n ← getitem (nks o) (irsep o - 1);
  ring ← row2 (korpg o) (irsep o - 1);
  sel ← take_rows vertp (slice_to ring n);
  column sel 0.

(** The loop: one line from each point to the next, for [range(nsep - 2)]. *)
Definition sep_line (rsep zsep : list F) (lines : list segment) (i : Z)
  : res (list segment) :=
  r0 ← getitem rsep i;
  z0 ← getitem zsep i;
  r1 ← getitem rsep (i + 1);
  z1 ← getitem zsep (i + 1);
  Ok (lines ++ [((r0, z0), (r1, z1))]).

Definition sep_lines (rsep zsep : list F) : res (list segment) :=
  let nsep := Z.of_nat (length rsep) in
  foldR (sep_line rsep zsep) (range (nsep - 2)) [].

Definition get_sep_on (o : OedgePlots) : res (list segment) :=
  rsep ← sep_axis o (rvertp o);
  zsep ← sep_axis o (zvertp o);
  sep_lines rsep zsep.

Definition get_sep : M world (list segment) :=
  o ← gets self; lift (get_sep_on o).

(** ** [OedgePlots.find_ring_knot] *)

Definition pinf : F := S754_infinity false.

(** [self.rs] and [self.zs] are masked arrays, so the expression
    [np.sqrt((r - self.rs)**2 + (z - self.zs)**2)] is computed by
    [numpy.ma].  An entry of a masked array is [None] when it is masked: the
    number kept under a mask is never read below.

    [x ** 2] is [numpy.ma.power]: a result that is not finite is masked. *)
Definition ma_square (x : F) : option F :=
  let y := fmul x x in
  if is_finite y then Some y else None.

(** [a + b]: masked where an operand is. *)
Definition ma_add (a b : option F) : option F :=
  match a, b with
  | Some x, Some y => Some (fadd x y)
  | _, _ => None
  end.

(** [np.sqrt(a)]: masked where [a] is, and where [a] is below zero, which
    is outside the domain of [sqrt]. *)
Definition ma_sqrt (a : option F) : option F :=
  match a with
  | Some x => if fltb x f0 then None else Some (fsqrt x)
  | None => None
  end.

(** One entry of the distance array. *)
Definition ma_dist (r z : F) (rc zc : F) : option F :=
  ma_sqrt (ma_add (ma_square (fsub r rc)) (ma_square (fsub z zc))).

(** The whole array.  [rs] and [zs] are written with the same two
    dimensions; numpy would broadcast arrays whose shapes differ in an axis
    of length 1, which is the [ValueError] of any other mismatch here. *)
Definition dist_array (r z : F) (rs zs : array2 F) : res (array2 (option F)) :=
  if same_shape rs zs then
    Ok (Array2 (ncols rs) (zip_with (zip_with (ma_dist r z)) (rows rs) (rows zs)))
  else Raise ValueError.

Definition is_masked (e : option F) : bool :=
  match e with None => true | Some _ => false end.

(** [dist.min()]: the minimum of the array with plus infinity in place of
    the masked entries; the constant [masked] when every entry is masked.
    An empty array has no minimum. *)
Definition ma_min (l : list (option F)) : res (option F) :=
  m ← np_min (default pinf <$> l);
  Ok (if forallb is_masked l then None else Some m).

(** The data of [dist == m], which is what [np.where] reads: two numbers
    compare as numbers; where a side is masked, the entry is true when both
    sides are masked and false when one is. *)
Definition ma_eq (e m : option F) : bool :=
  match e, m with
  | Some x, Some y => feqb x y
  | None, None => true
  | _, _ => false
  end.

Definition find_ring_knot_on (o : OedgePlots) (r z : F) : res (Z * Z) :=
  dist ← dist_array r z (rs o) (zs o);
  dmin ← ma_min (concat (rows dist));
  let closest_cell := where2 (λ d, ma_eq d dmin) 0 (rows dist) in
  ring ← getitem (fst <$> closest_cell) 0;
  knot ← getitem (snd <$> closest_cell) 0;
  Ok (Z.of_nat ring, Z.of_nat knot).

Definition find_ring_knot (r z : F) : M world (Z * Z) :=
  o ← gets self; lift (find_ring_knot_on o r z).

(** ** [OedgePlots.read_data_2d_kvhs_t13] *)

(** What the method returns: the flattened array, [-1] or [None]. *)
Inductive kvhs_result := KvhsData (data : list F) | KvhsMinusOne | KvhsNone.

(** [self.dat_file.split(sep)]: [None] has no attribute [split]. *)
Definition dat_split (file : option string) (sep : string) : res (list string) :=
  match file with
  | None => Raise AttributeError
  | Some text => Ok (split text sep)
  end.

Definition drift_table_header : string :=
  "TABLE OF DRIFT REGION BY RING - RINGS WITHOUT FLOW ARE NOT LISTED" +:+ newline.

Section DriftTable.

(** Python's [float(s)]; a string that is no number is a [ValueError]. *)
Variable py_float : string → res F.

(** pandas: the frame [pd.DataFrame(lines, columns=['IR', 'Vdrift (m/s)',
    'S_START (m)', 'S_END (m)'], dtype=np.float64).set_index('IR')], the
    test [ir in add_df.index] and the lookup [add_df[column].loc[ir]]
    used as a number. *)
Variable DataFrame : Type.
Variable drift_frame : list (list string) → res DataFrame.
Variable in_index : DataFrame → Z → bool.
Variable loc : DataFrame → string → Z → res F.

(** The body of the loop over the knots of ring [ir]; [acc] is
    [(data, count)]. *)
Definition kvhs_knot (o : OedgePlots) (add_df : DataFrame) (raw_data : ndarray)
    (scaling : F) (no_core : bool) (ir : Z)
    (acc : list F * Z) (ik : Z) : res (list F * Z) :=
  let '(data, count) := acc in
  a ← get2 (area o) ir ik;
  if fneb a f0 then
    v ← nd_get2 raw_data ir ik;
    data ← setitem data count (fmul v scaling);
    data ← (if in_index add_df ir then
              s ← get2 (kss o) ir ik;
              s_start ← loc add_df "S_START (m)" ir;
              if fltb s_start s then
                s ← get2 (kss o) ir ik;
                s_end ← loc add_df "S_END (m)" ir;
                if fltb s s_end then
                  d ← getitem data count;
                  v_drift ← loc add_df "Vdrift (m/s)" ir;
                  setitem data count (fadd d v_drift)
                else Ok data
              else Ok data
            else Ok data);
    data ← (if no_core && bool_decide (ir < irsep o - 1)
            then setitem data count f0
            else Ok data);
    Ok (data, count + 1)
  else Ok (data, count).

Definition kvhs_ring (o : OedgePlots) (add_df : DataFrame) (raw_data : ndarray)
    (scaling : F) (no_core : bool)
    (acc : list F * Z) (ir : Z) : res (list F * Z) :=
  n ← getitem (nks o) ir;
  foldR (kvhs_knot o add_df raw_data scaling no_core ir) (range n) acc.

(** The body of the [try] statement. *)
Definition kvhs_try (o : OedgePlots) (no_core : bool) : M world kvhs_result :=
  parts ← lift (dat_split (dat_file o) "POL DRIFT OPT");
  after ← lift (getitem parts 1);
  field ← lift (getitem (split after ":") 0);
  pol_opt ← lift (py_float field);
  if feqb pol_opt f0 then
    print_world (Text "Error: Poloidal drift option T13 was not on for this run.");;
    mret KvhsMinusOne
  else
    parts ← lift (dat_split (dat_file o) drift_table_header);
    after ← lift (getitem parts 1);
    table ← lift (getitem (split after "DRIFT") 0);
    let add_data := split_ws <$> split table newline in
    add_df ← lift (drift_frame (take (length add_data - 2) (drop 1 add_data)));
    let scaling := fdiv f1 (qtim o) in
    raw_data ← lift (nc_var (nc o) "KVHS");
    data ← lift (np_zeros (num_cells o));
    '(data, count) ← lift (foldR (kvhs_ring o add_df raw_data scaling no_core)
                                 (range (nrs o)) (data, 0));
    mret (KvhsData data).

Definition read_data_2d_kvhs_t13 (no_core : bool) : M world kvhs_result :=
  o ← gets self;
  (if decide (dat_file o = None)
   then print_world (Text "Error: .dat file not loaded in. Run 'add_dat_file' first.")
   else mret ());;
  try_except (kvhs_try o no_core) IndexError
    (print_world (Text "Error: Was T13 on for this run?");;
     mret KvhsNone).

End DriftTable.

(** ** The cells of the grid, as the loops visit them *)

(** The knots of ring [ir]: [range(nks[ir])]. *)
Definition ring_cells (nks : list Z) (ir : Z) : list (Z * Z) :=
  match getitem nks ir with
  | Ok n => (λ ik, (ir, ik)) <$> range n
  | Raise _ => []
  end.

(** Ring by ring, and knot by knot within a ring. *)
Definition grid_cells (nrs : Z) (nks : list Z) : list (Z * Z) :=
  range nrs ≫= ring_cells nks.

(** [area[ir, ik] != 0.0] *)
Definition has_area (area : array2 F) (c : Z * Z) : bool :=
  match get2 area c.1 c.2 with
  | Ok a => fneb a f0
  | Raise _ => false
  end.

(** The cells that are drawn: those of non-zero area, in loop order. *)
Definition live_cells (nrs : Z) (nks : list Z) (area : array2 F) : list (Z * Z) :=
  List.filter (has_area area) (grid_cells nrs nks).

Definition cells_of (o : OedgePlots) : list (Z * Z) :=
  live_cells (nrs o) (nks o) (area o).

(** The polygon of the cell [(ir, ik)]: the first four vertices of row
    [korpg[ir, ik] - 1] of the vertex arrays. *)
Definition cell_polygon (korpg : array2 Z) (rvertp zvertp : array2 F) (c : Z * Z)
  : res polygon :=
  k ← get2 korpg c.1 c.2;
  rv ← row2 rvertp (k - 1);
  zv ← row2 zvertp (k - 1);
  Ok (zip (take 4 rv) (take 4 zv)).

(** The number [read_data_2d] leaves at the slot of the cell [(ir, ik)]
    before the fill values are dealt with. *)
Definition cell_value (o : OedgePlots) (raw_data : ndarray) (charge : charge_arg)
    (scaling : scaling_arg) (no_core : bool) (c : Z * Z) : res F :=
  match scaling with
  | Ring => Ok (of_Z c.1)
  | Scale s =>
      v ← raw_value charge raw_data c.1 c.2;
      Ok (if no_core && bool_decide (c.1 < irsep o - 1) then f0 else fmul v s)
  end.

(** The array [raw_data] the loop of [read_data_2d] reads. *)
Definition raw_data_of (o : OedgePlots) (dataname : string) (charge : charge_arg)
  : res ndarray :=
  load_raw_data o dataname ≫= sum_charges charge.

(** The distance from [(r, z)] to the point [(rc, zc)] in binary64
    arithmetic: [sqrt((r - rc)**2 + (z - zc)**2)]. *)
Definition cell_dist (r z : F) (rc zc : F) : F :=
  let dr := fsub r rc in
  let dz := fsub z zc in
  fsqrt (fadd (fmul dr dr) (fmul dz dz)).

(** The distance from [(r, z)] to the center of the cell [(i, j)], in
    binary64 arithmetic. *)
Definition dist_at (o : OedgePlots) (r z : F) (i j : Z) : res F :=
  rc ← get2 (rs o) i j; zc ← get2 (zs o) i j; Ok (cell_dist r z rc zc).

(** Both squared coordinate differences are finite: neither is a NaN and
    neither overflows. *)
Definition finite_squares (r z rc zc : F) : bool :=
  is_finite (fmul (fsub r rc) (fsub r rc)) &&
  is_finite (fmul (fsub z zc) (fsub z zc)).

(** The first axis of an array: the number of charge states of a variable
    that has them. *)
Definition first_axis (a : ndarray) : nat :=
  match shape a with
  | n :: _ => n
  | [] => 0%nat
  end.

(** The number the cell [(ir, ik)] has in the variable [raw]: [raw[ir][ik]]
    without a charge, [raw[charge + 1][ir][ik]] for a charge state, and for
    ['all'] the numbers [raw[q][ir][ik]] of every [q] along the first axis,
    added one after the other onto zero. *)
Definition charge_entry (raw : ndarray) (charge : charge_arg) (ir ik : Z) : res F :=
  match charge with
  | ChargeNone => nd_get2 raw ir ik
  | ChargeState c => nd_get3 raw (c + 1) ir ik
  | ChargeAll =>
      states ← mapR (λ q, nd_get3 raw q ir ik) (range (Z.of_nat (first_axis raw)));
      Ok (foldl fadd f0 states)
  end.

(** ** The loops in closed form *)

(** Two results that are both returned and related, or the same exception. *)
Definition res_rel {A B} (R : A → B → Prop) (x : res A) (y : res B) : Prop :=
  match x, y with
  | Ok a, Ok b => R a b
  | Raise e, Raise e' => e = e'
  | _, _ => False
  end.

(** One step of a flattening loop: a cell with area gets the next free slot
    of [data]; [acc] is [(data, count)]. *)
Definition flat_step (area : array2 F) (value : Z * Z → res F)
    (acc : list F * Z) (c : Z * Z) : res (list F * Z) :=
  a ← get2 area c.1 c.2;
  if fneb a f0 then
    v ← value c;
    data ← setitem acc.1 acc.2 v;
    Ok (data, acc.2 + 1)
  else Ok acc.

(** What one cell with area asks of the file before it is added to the
    mesh, and the polygon it adds. *)
Definition init_cell (file : netcdf) (c : Z * Z) : res polygon :=
  vertices ← cell_polygon (KORPG file) (RVERTP file) (ZVERTP file) c;
  _ ← Path vertices;
  _ ← get2 (RS file) c.1 c.2;
  _ ← get2 (ZS file) c.1 c.2;
  Ok vertices.

(** The constructor's loop body without the console; [acc] is
    [(mesh, num_cells)]. *)
Definition init_step (file : netcdf) (acc : list polygon * Z) (c : Z * Z)
  : res (list polygon * Z) :=
  _ ← get2 (KORPG file) c.1 c.2;
  a ← get2 (KAREAS file) c.1 c.2;
  if fneb a f0 then
    vertices ← init_cell file c;
    Ok (acc.1 ++ [vertices], acc.2 + 1)
  else Ok acc.

(** The lines printed for a cell whose center fails the test. *)
Definition cell_warning (contains_point : polygon → F → F → bool)
    (file : netcdf) (c : Z * Z) : list message :=
  match init_cell file c, get2 (RS file) c.1 c.2, get2 (ZS file) c.1 c.2 with
  | Ok vertices, Ok r, Ok z =>
      if contains_point vertices r z then []
      else [Text "Error: Cell center not within vertices.";
            CellIndexLine c.1 c.2; VerticesLine vertices; CellCenterLine r z]
  | _, _, _ => []
  end.

Definition absfac_warning (file : netcdf) : list message :=
  match ABSFAC file with
  | Some _ => []
  | None => [Text "Warning: Can't load all variables from NetCDF file (okay if DIVIMP was not run)."]
  end.

(** A call that leaves the object and the console as it found them. *)
Definition read_only {A} (m : M world A) : Prop := ∀ w, (m w).2 = w.

(** The line the loop of [get_sep] makes in round [i]. *)
Definition sep_segment (rsep zsep : list F) (i : Z) : res segment :=
  r0 ← getitem rsep i;
  z0 ← getitem zsep i;
  r1 ← getitem rsep (i + 1);
  z1 ← getitem zsep (i + 1);
  Ok ((r0, z0), (r1, z1)).

(** Two runs of a flattening loop whose values are defined for the same
    cells keep their counters and the lengths of their arrays equal, and
    raise together. *)
Definition in_step (a b : list F * Z) : Prop :=
  a.2 = b.2 ∧ length a.1 = length b.1.

(** A result with the sign [s]: never a NaN. *)
Definition signed (s : bool) (x : F) : Prop :=
  x = S754_zero s ∨ x = S754_infinity s ∨ ∃ m e, x = S754_finite s m e.

(** ** A small grid

    Three rings of two, three and two knots, padded to three columns; the
    middle knot of ring 1 has no area; ring 0 lies inside the separatrix
    ([irsep] is 2).  Polygon [p] is the unit square whose lower left corner
    is at [(p, 0)], and the cell centers lie in the middle of their squares,
    save for cell (2, 1) whose center lies outside. *)
Module Demo.

Definition z (n : Z) : F := of_Z n.
(** [n + 1/2] *)
Definition h (n : Z) : F := dyadic (2 * n + 1) (-1).

Definition square_r (p : Z) : list F := [z p; z (p + 1); z (p + 1); z p; z p].
Definition square_z (p : Z) : list F := [z 0; z 0; z 1; z 1; z 0].

Definition rvertp : array2 F := Array2 5 (square_r <$> seqZ 0 8).
Definition zvertp : array2 F := Array2 5 (square_z <$> seqZ 0 8).

Definition korpg : array2 Z := Array2 3 [[1; 2; 0]; [3; 4; 5]; [6; 7; 0]].
Definition areas : array2 F :=
  Array2 3 [[z 1; z 1; z 0]; [z 1; z 0; z 1]; [z 1; z 1; z 0]].
Definition centers_r : array2 F :=
  Array2 3 [[h 0; h 1; z 0]; [h 2; h 3; h 4]; [h 5; h 9; z 0]].
Definition centers_z : array2 F :=
  Array2 3 [[h 0; h 0; z 0]; [h 0; h 0; h 0]; [h 0; h 0; z 0]].

(** A field on the grid, and the same field for two charge states plus
    the neutral state 0 at index 0. *)
Definition field : ndarray :=
  NdArray [3; 3]%nat (z <$> [5; 6; 0; 3; 9; 4; 1; 2; 0]).
Definition charged : ndarray :=
  NdArray [3; 3; 3]%nat
    (z <$> [ 0;  0; 0;  0;  0;  0;  0;  0; 0;
            10; 11; 0; 12; 13; 14; 15; 16; 0;
            20; 21; 0; 22; 23; 24; 25; 26; 0]).

Definition file : netcdf := {|
  RS := centers_r; ZS := centers_z; NRS := 3; NKS := [2; 3; 2];
  KAREAS := areas; KORPG := korpg; RVERTP := rvertp; ZVERTP := zvertp;
  RVESM := NdArray [0]%nat []; ZVESM := NdArray [0]%nat [];
  IRSEP := 2; QTIM := dyadic 1 (-3);
  KSS := Array2 3 [[z 0; z 1; z 0]; [z 0; z 1; z 2]; [z 0; z 1; z 0]];
  KFIZS := NdArray [0]%nat []; KSMAXS := [z 2; z 4; z 2];
  IRWALL := 3; CRMB := z 2; CRMI := z 12; CION := 6;
  ABSFAC := Some (z 1);
  variables :=
    <["KTEBS" := field]> (<["DDLIMS" := charged]>
      (<["KSB" := field]> (<["KVHS" := field]> ∅)))
|}.

(** The point-in-polygon test on this grid: every polygon is an
    axis-parallel square, so the test compares with its corners. *)
Definition inside (vertices : polygon) (r zc : F) : bool :=
  match vertices with
  | (r0, z0) :: _ :: (r1, z1) :: _ =>
      fleb r0 r && fleb r r1 && fleb z0 zc && fleb zc z1
  | _ => false
  end.

(** The object the constructor builds from [file], and what it printed. *)
Definition built : res OedgePlots * list message :=
  Eval vm_compute in __init__ inside file "demo.nc" [].

Definition obj : OedgePlots :=
  match built.1 with
  | Ok o => o
  | Raise _ =>
      Build_OedgePlots file "" None None centers_r centers_z 0 [] areas korpg
        rvertp zvertp (RVESM file) (ZVESM file) 0 f0 (KSS file) (KFIZS file)
        [] 0 f0 f0 f0 0 None 0 []
  end.

Definition w0 : world := World obj [].

End Demo.

(** ** Files whose arrays fit the grid *)

(** The elements of an array fill its shape. *)
Definition nd_wf (a : ndarray) : Prop := length (buf a) = size_of (shape a).

(** A two-dimensional array with a row for every ring and a column for
    every knot of the grid. *)
Definition covers {A} (a : array2 A) (nrs : Z) (nks : list Z) : Prop :=
  rect a ∧
  nrs ≤ Z.of_nat (length (rows a)) ∧
  ∀ ir n, 0 ≤ ir < nrs → getitem nks ir = Ok n → n ≤ Z.of_nat (ncols a).

(** [k] is an index into the rows of [a], from the front or from the end. *)
Definition row_index {A} (a : array2 A) (k : Z) : Prop :=
  - Z.of_nat (length (rows a)) ≤ k < Z.of_nat (length (rows a)).

(** A file the constructor can read through: the number of knots is known
    for every ring, the arrays indexed by ring and knot cover the grid, the
    vertex arrays have a column, and the polygon index of every cell with
    area names a row of both. *)
Definition consistent (file : netcdf) : Prop :=
  NRS file ≤ Z.of_nat (length (NKS file)) ∧
  covers (KAREAS file) (NRS file) (NKS file) ∧
  covers (KORPG file) (NRS file) (NKS file) ∧
  covers (RS file) (NRS file) (NKS file) ∧
  covers (ZS file) (NRS file) (NKS file) ∧
  rect (RVERTP file) ∧ rect (ZVERTP file) ∧
  (1 ≤ ncols (RVERTP file))%nat ∧ (1 ≤ ncols (ZVERTP file))%nat ∧
  ∀ c k, c ∈ live_cells (NRS file) (NKS file) (KAREAS file) →
         get2 (KORPG file) c.1 c.2 = Ok k →
         row_index (RVERTP file) (k - 1) ∧ row_index (ZVERTP file) (k - 1).

(** ** [read_data_2d_kvhs_t13]: the drift table and the value of a cell *)

(** The rows of the drift table in the text of the [.dat] file: the lines
    between the header of the table and the next [DRIFT], without the first
    and the last, split at white space. *)
Definition drift_rows (text : string) : res (list (list string)) :=
  after ← getitem (split text drift_table_header) 1;
  table ← getitem (split after "DRIFT") 0;
  let add_data := split_ws <$> split table newline in
  Ok (take (length add_data - 2) (drop 1 add_data)).

Section DriftValue.

Variable DataFrame : Type.
Variable in_index : DataFrame → Z → bool.
Variable loc : DataFrame → string → Z → res F.

(** The flow [v] at the cell [c] with the drift of its ring: the table's
    [Vdrift] is added where [kss] lies strictly between the ring's
    [S_START] and [S_END]. *)
Definition with_drift (o : OedgePlots) (add_df : DataFrame) (c : Z * Z) (v : F)
  : res F :=
  if in_index add_df c.1 then
    s ← get2 (kss o) c.1 c.2;
    s_start ← loc add_df "S_START (m)" c.1;
    if fltb s_start s then
      s_end ← loc add_df "S_END (m)" c.1;
      if fltb s s_end then
        v_drift ← loc add_df "Vdrift (m/s)" c.1;
        Ok (fadd v v_drift)
      else Ok v
    else Ok v
  else Ok v.

(** The number [read_data_2d_kvhs_t13] leaves at the slot of the cell. *)
Definition kvhs_value (o : OedgePlots) (add_df : DataFrame) (raw_data : ndarray)
    (no_core : bool) (c : Z * Z) : res F :=
  v ← nd_get2 raw_data c.1 c.2;
  x ← with_drift o add_df c (fmul v (fdiv f1 (qtim o)));
  Ok (if no_core && bool_decide (c.1 < irsep o - 1) then f0 else x).

End DriftValue.

(** ** A drift table for the small grid

    Numbers are written as decimal integers; the frame is the list of its
    rows, and a ring listed twice has no single entry. *)
Module DriftDemo.

Definition digit (c : ascii) : option Z :=
  let n := nat_of_ascii c in
  if bool_decide (48 ≤ n ≤ 57)%nat then Some (Z.of_nat n - 48) else None.

Fixpoint digits (acc : Z) (s : string) : option Z :=
  match s with
  | EmptyString => Some acc
  | String c s' => d ← digit c; digits (10 * acc + d) s'
  end.

(** [float] on a decimal integer between white space. *)
Definition py_float (s : string) : res F :=
  match split_ws s with
  | [word] =>
      match digits 0 word with
      | Some n => Ok (of_Z n)
      | None => Raise ValueError
      end
  | _ => Raise ValueError
  end.

Definition DataFrame : Type := list (list F).

Definition drift_frame (lines : list (list string)) : res DataFrame :=
  mapR (λ line, if bool_decide (length line = 4%nat) then mapR py_float line
                else Raise ValueError) lines.

Definition listed (ir : Z) (row : list F) : bool :=
  match row with
  | x :: _ => feqb x (of_Z ir)
  | [] => false
  end.

Definition in_index (add_df : DataFrame) (ir : Z) : bool :=
  existsb (listed ir) add_df.

Definition loc (add_df : DataFrame) (column : string) (ir : Z) : res F :=
  match List.filter (listed ir) add_df with
  | [] => Raise KeyError
  | [[_; v_drift; s_start; s_end]] =>
      if decide (column = "Vdrift (m/s)") then Ok v_drift
      else if decide (column = "S_START (m)") then Ok s_start
      else if decide (column = "S_END (m)") then Ok s_end
      else Raise KeyError
  | _ => Raise ValueError
  end.

(** A file with the drift option on and a drift of 5 m/s on ring [ir]
    between s = 0 and s = 3. *)
Definition text (ir : string) : string :=
  "POL DRIFT OPT 1: T13" +:+ newline +:+ drift_table_header +:+
  "IR V S1 S2" +:+ newline +:+ ir +:+ " 5 0 3" +:+ newline +:+ "END DRIFT".

Definition with_dat (ir : string) : world :=
  (add_dat_file "demo.dat" (text ir) Demo.w0).2.

Definition kvhs_t13 : bool → M world kvhs_result :=
  read_data_2d_kvhs_t13 py_float DataFrame drift_frame in_index loc.

End DriftDemo.

(** * Properties *)

(** ** Results and loops *)

Lemma bind_Ok {A B} (r : res A) (f : A → res B) (b : B) :
  r ≫= f = Ok b ↔ ∃ a, r = Ok a ∧ f a = Ok b.
Proof.
  destruct r as [a|e]; simpl; split.
  - intros H. by exists a.
  - by intros (a' & [= <-] & H).
  - intros H. discriminate H.
  - by intros (a' & [=] & _).
Qed.

(** Peel the successful binds off a hypothesis [H : ... = Ok _]. *)
Ltac res_inv H :=
  repeat
    (let x := fresh "x" in
     let E := fresh "E" in
     apply bind_Ok in H as (x & E & H)).

Lemma foldR_app {X Acc} (f : Acc → X → res Acc) (l1 l2 : list X) (acc : Acc) :
  foldR f (l1 ++ l2) acc = foldR f l1 acc ≫= foldR f l2.
Proof.
  revert acc. induction l1 as [|x l1 IH]; intros acc; simpl; [done|].
  destruct (f acc x); simpl; [apply IH|done].
Qed.

Lemma foldR_fmap {X Y Acc} (f : Acc → Y → res Acc) (g : X → Y) (l : list X) (acc : Acc) :
  foldR f (g <$> l) acc = foldR (λ a x, f a (g x)) l acc.
Proof.
  revert acc. induction l as [|x l IH]; intros acc; simpl; [done|].
  destruct (f acc (g x)); simpl; [apply IH|done].
Qed.

Lemma mapR_length {X Y} (f : X → res Y) (xs : list X) (ys : list Y) :
  mapR f xs = Ok ys → length ys = length xs.
Proof.
  revert ys. induction xs as [|x xs IH]; intros ys H; simpl in H.
  - by injection H as <-.
  - res_inv H. injection H as <-. simpl. f_equal. by apply IH.
Qed.

Lemma mapR_lookup {X Y} (f : X → res Y) (xs : list X) (ys : list Y) (k : nat) (x : X) :
  mapR f xs = Ok ys → xs !! k = Some x → ∃ y, f x = Ok y ∧ ys !! k = Some y.
Proof.
  revert ys k. induction xs as [|x' xs IH]; intros ys k H Hk; [done|].
  simpl in H. res_inv H. injection H as <-.
  destruct k as [|k]; simpl in *.
  - injection Hk as ->. eauto.
  - eauto.
Qed.

Lemma mapR_ext {X Y} (f g : X → res Y) (xs : list X) :
  (∀ x, x ∈ xs → f x = g x) → mapR f xs = mapR g xs.
Proof.
  induction xs as [|x xs IH]; intros H; simpl; [done|].
  rewrite (H x) by left. rewrite IH; [done|]. intros y Hy. apply H. by right.
Qed.

Lemma ring_cells_ok (nks : list Z) (ir n : Z) :
  getitem nks ir = Ok n → ring_cells nks ir = (λ ik, (ir, ik)) <$> range n.
Proof. intros H. unfold ring_cells. by rewrite H. Qed.

(** A loop that runs ring by ring visits the cells of the grid in order:
    when it ends normally, so does the same loop over the list of cells. *)
Lemma foldR_rings {Acc} (body : Acc → Z * Z → res Acc) (nks : list Z)
    (irs : list Z) (acc r : Acc) :
  foldR (λ acc ir, n ← getitem nks ir;
                   foldR (λ acc ik, body acc (ir, ik)) (range n) acc) irs acc = Ok r →
  foldR body (irs ≫= ring_cells nks) acc = Ok r.
Proof.
  revert acc. induction irs as [|ir irs IH]; intros acc H; [done|].
  simpl in H. apply bind_Ok in H as (acc' & H1 & H2).
  apply bind_Ok in H1 as (n & Hn & Hin).
  rewrite bind_cons, foldR_app, (ring_cells_ok _ _ _ Hn).
  rewrite foldR_fmap, Hin. simpl. by apply IH.
Qed.

(** Two loops over the same list whose bodies keep a relation between
    their local variables, and raise together, end related or raise
    together. *)
Lemma foldR_sim {X A B} (R : A → B → Prop)
    (f : A → X → res A) (g : B → X → res B) (xs : list X) :
  (∀ a b x, R a b → res_rel R (f a x) (g b x)) →
  ∀ a b, R a b → res_rel R (foldR f xs a) (foldR g xs b).
Proof.
  intros Hstep. induction xs as [|x xs IH]; intros a b HR; simpl; [done|].
  specialize (Hstep a b x HR).
  destruct (f a x), (g b x); simpl in *; try done. by apply IH.
Qed.

(** ** Indexing *)

Lemma norm_index_nonneg (n : nat) (i : Z) (k : nat) :
  0 ≤ i → norm_index n i = Ok k → k = Z.to_nat i ∧ i < Z.of_nat n.
Proof.
  intros Hi. unfold norm_index. repeat case_bool_decide; intros [=]; lia.
Qed.

Lemma norm_index_lt (n : nat) (i : Z) (k : nat) :
  norm_index n i = Ok k → (k < n)%nat.
Proof.
  unfold norm_index. repeat case_bool_decide; intros [=]; lia.
Qed.

Lemma norm_index_in_range (n : nat) (i : Z) :
  0 ≤ i < Z.of_nat n → norm_index n i = Ok (Z.to_nat i).
Proof. intros Hi. unfold norm_index. by rewrite bool_decide_eq_true_2. Qed.

Lemma getitem_nat {A} (l : list A) (i : nat) (x : A) :
  l !! i = Some x → getitem l (Z.of_nat i) = Ok x.
Proof.
  intros H. unfold getitem.
  rewrite norm_index_in_range by (apply lookup_lt_Some in H; lia).
  simpl. by rewrite Nat2Z.id, H.
Qed.

Lemma getitem_nonneg {A} (l : list A) (i : Z) (x : A) :
  0 ≤ i → getitem l i = Ok x → l !! Z.to_nat i = Some x.
Proof.
  intros Hi H. unfold getitem in H.
  apply bind_Ok in H as (k & Hk & H).
  apply norm_index_nonneg in Hk as [-> _]; [|done].
  by destruct (l !! Z.to_nat i); [injection H as ->|].
Qed.

Lemma setitem_nonneg {A} (l l' : list A) (i : Z) (x : A) :
  0 ≤ i → setitem l i x = Ok l' →
  l' = <[Z.to_nat i := x]> l ∧ i < Z.of_nat (length l).
Proof.
  intros Hi H. unfold setitem in H.
  apply bind_Ok in H as (k & Hk & H).
  apply norm_index_nonneg in Hk as [-> ?]; [|done].
  by injection H as <-.
Qed.

(** Writing a slot twice is writing the last value. *)
Lemma setitem_twice {A} (l : list A) (i : Z) (x y : A) :
  setitem l i x ≫= (λ l', setitem l' i y) = setitem l i y.
Proof.
  unfold setitem. destruct (norm_index (length l) i) as [k|e] eqn:Hk; simpl; [|done].
  rewrite length_insert, Hk. simpl. by rewrite list_insert_insert_eq.
Qed.

(** ** [read_data_2d]: the loop in closed form *)

Lemma read_knot_flat (o : OedgePlots) (raw_data : ndarray) (charge : charge_arg)
    (scaling : scaling_arg) (no_core : bool) (ir ik : Z) (acc : list F * Z) :
  read_knot o raw_data charge scaling no_core ir acc ik =
  flat_step (area o) (cell_value o raw_data charge scaling no_core) acc (ir, ik).
Proof.
  destruct acc as [data count]. unfold read_knot, flat_step, cell_value. simpl.
  destruct (get2 (area o) ir ik) as [a|]; simpl; [|done].
  destruct (fneb a f0); [|done].
  destruct scaling as [s|]; simpl; [|done].
  destruct (raw_value charge raw_data ir ik) as [v|]; simpl; [|done].
  destruct (no_core && bool_decide (ir < irsep o - 1)).
  - pose proof (setitem_twice data count (fmul v s) f0) as H.
    destruct (setitem data count (fmul v s)); simpl in *.
    + by rewrite H.
    + by rewrite <- H.
  - by destruct (setitem data count (fmul v s)).
Qed.

(** A flattening loop that ends normally has filled the slots from [c0] on
    with the values of the cells that have area, in order, and left every
    other slot alone. *)
Lemma flat_loop (area : array2 F) (value : Z * Z → res F) (cells : list (Z * Z)) :
  ∀ (data0 : list F) (c0 : Z) (data : list F) (c : Z),
    0 ≤ c0 ≤ Z.of_nat (length data0) →
    foldR (flat_step area value) cells (data0, c0) = Ok (data, c) →
    ∃ vals,
      mapR value (List.filter (has_area area) cells) = Ok vals ∧
      c = c0 + Z.of_nat (length vals) ∧
      c ≤ Z.of_nat (length data0) ∧
      data = take (Z.to_nat c0) data0 ++ vals ++ drop (Z.to_nat c) data0.
Proof.
  induction cells as [|cell cells IH]; intros data0 c0 data c Hc0 H; simpl in H.
  - injection H as <- <-. exists []. simpl. split_and!; [done|lia|lia|].
    by rewrite take_drop.
  - apply bind_Ok in H as ([data1 c1] & Hstep & H).
    unfold flat_step in Hstep. simpl in Hstep.
    apply bind_Ok in Hstep as (a & Ha & Hstep).
    simpl. unfold has_area at 1. rewrite Ha.
    destruct (fneb a f0).
    + apply bind_Ok in Hstep as (v & Hv & Hstep).
      apply bind_Ok in Hstep as (d & Hd & Hstep).
      injection Hstep as -> <-.
      apply setitem_nonneg in Hd as [-> Hlt]; [|lia].
      apply IH in H as (vals & Hvals & -> & Hle & ->);
        [|rewrite length_insert; lia].
      rewrite length_insert in Hle.
      exists (v :: vals). simpl. rewrite Hv, Hvals. simpl.
      split_and!; [done|lia|lia|].
      replace (Z.to_nat (c0 + 1)) with (S (Z.to_nat c0)) by lia.
      rewrite (take_S_r _ _ v)
        by (apply list_lookup_insert_eq; lia).
      rewrite take_insert_ge by lia.
      rewrite drop_insert_lt by lia.
      rewrite <- app_assoc. simpl. repeat f_equal; lia.
    + injection Hstep as <- <-. by apply IH.
Qed.

Lemma foldR_ext {X Acc} (f g : Acc → X → res Acc) (xs : list X) (acc : Acc) :
  (∀ a x, f a x = g a x) → foldR f xs acc = foldR g xs acc.
Proof.
  intros H. revert acc. induction xs as [|x xs IH]; intros acc; simpl; [done|].
  rewrite H. destruct (g acc x); simpl; [apply IH|done].
Qed.

Lemma read_loop_spec (o : OedgePlots) (raw_data : ndarray) (charge : charge_arg)
    (scaling : scaling_arg) (no_core : bool) (data0 data : list F) (c : Z) :
  foldR (read_ring o raw_data charge scaling no_core) (range (nrs o)) (data0, 0)
    = Ok (data, c) →
  ∃ vals,
    mapR (cell_value o raw_data charge scaling no_core) (cells_of o) = Ok vals ∧
    (length vals ≤ length data0)%nat ∧
    data = vals ++ drop (length vals) data0.
Proof.
  intros H.
  rewrite (foldR_ext _
    (λ acc ir, n ← getitem (nks o) ir;
       foldR (λ acc ik,
                flat_step (area o) (cell_value o raw_data charge scaling no_core)
                          acc (ir, ik)) (range n) acc)) in H.
  2:{ intros a ir. unfold read_ring. destruct (getitem (nks o) ir); simpl; [|done].
      apply foldR_ext. intros. apply read_knot_flat. }
  apply foldR_rings in H.
  apply flat_loop in H as (vals & Hvals & -> & Hle & ->); [|lia].
  exists vals. split_and!; [done|lia|].
  rewrite Z.add_0_l, Nat2Z.id. done.
Qed.

(** The fill-value pass comes last and sees the array the loop built. *)
Lemma read_data_2d_on_fix_fill (o : OedgePlots) (dataname : string)
    (charge : charge_arg) (scaling : scaling_arg) (fix_fill no_core : bool) :
  read_data_2d_on o dataname charge scaling fix_fill no_core =
  data ← read_data_2d_on o dataname charge scaling false no_core;
  if fix_fill then fix_fill_values data else Ok data.
Proof.
  unfold read_data_2d_on.
  destruct (load_raw_data o dataname); simpl; [|done].
  destruct (np_zeros (num_cells o)); simpl; [|done].
  destruct (sum_charges charge a); simpl; [|done].
  by destruct (foldR _ _ _) as [[data count]|].
Qed.

(** [read_data_2d] without the fill-value pass: the values of the cells with
    area in loop order, then the zeros [np.zeros] put there. *)
Lemma read_data_2d_on_spec (o : OedgePlots) (dataname : string)
    (charge : charge_arg) (scaling : scaling_arg) (no_core : bool) (data : list F) :
  read_data_2d_on o dataname charge scaling false no_core = Ok data →
  ∃ raw_data vals,
    raw_data_of o dataname charge = Ok raw_data ∧
    mapR (cell_value o raw_data charge scaling no_core) (cells_of o) = Ok vals ∧
    Z.of_nat (length data) = num_cells o ∧
    data = vals ++ replicate (length data - length vals) f0.
Proof.
  unfold read_data_2d_on, raw_data_of. intros H.
  apply bind_Ok in H as (raw0 & Hraw0 & H).
  apply bind_Ok in H as (zeros & Hz & H).
  apply bind_Ok in H as (raw_data & Hraw & H).
  apply bind_Ok in H as ([d c] & Hloop & H).
  injection H as ->.
  unfold np_zeros in Hz. case_bool_decide; [done|]. injection Hz as <-.
  apply read_loop_spec in Hloop as (vals & Hvals & Hle & ->).
  rewrite length_replicate in Hle.
  exists raw_data, vals. rewrite Hraw0. simpl.
  split_and!; [done..| |].
  - rewrite length_app, length_drop, length_replicate. lia.
  - rewrite drop_replicate. f_equal. f_equal.
    rewrite length_app, length_replicate. lia.
Qed.

(** ** The method monad *)

Lemma bindM_Ok {S A B} (m : M S A) (f : A → M S B) (s s' : S) (b : B) :
  (m ≫= f) s = (Ok b, s') ↔ ∃ a s1, m s = (Ok a, s1) ∧ f a s1 = (Ok b, s').
Proof.
  unfold mbind, M_bind. destruct (m s) as [[a|e] s1]; split.
  - intros H. by exists a, s1.
  - by intros (a' & s1' & [= <- <-] & H).
  - intros [=].
  - by intros (a' & s1' & [=] & _).
Qed.

Lemma foldM_cons {S X Acc} (f : Acc → X → M S Acc) (x : X) (xs : list X) (acc : Acc) :
  foldM f (x :: xs) acc = f acc x ≫= foldM f xs.
Proof. done. Qed.

Lemma foldM_app {S X Acc} (f : Acc → X → M S Acc) (l1 l2 : list X) (acc : Acc) (s : S) :
  foldM f (l1 ++ l2) acc s = (foldM f l1 acc ≫= foldM f l2) s.
Proof.
  revert acc s. induction l1 as [|x l1 IH]; intros acc s; simpl; [done|].
  unfold mbind, M_bind in *. destruct (f acc x s) as [[a|e] s1]; [apply IH|done].
Qed.

Lemma foldM_fmap {S X Y Acc} (f : Acc → Y → M S Acc) (g : X → Y) (l : list X)
    (acc : Acc) (s : S) :
  foldM f (g <$> l) acc s = foldM (λ a x, f a (g x)) l acc s.
Proof.
  revert acc s. induction l as [|x l IH]; intros acc s; simpl; [done|].
  unfold mbind, M_bind. destruct (f acc (g x) s) as [[a|e] s1]; [apply IH|done].
Qed.

(** The same for a loop that also acts on the state. *)
Lemma foldM_rings {S Acc} (body : Acc → Z * Z → M S Acc) (nks : list Z)
    (irs : list Z) (acc r : Acc) (s s' : S) :
  foldM (λ acc ir, n ← lift (getitem nks ir);
                   foldM (λ acc ik, body acc (ir, ik)) (range n) acc) irs acc s
    = (Ok r, s') →
  foldM body (irs ≫= ring_cells nks) acc s = (Ok r, s').
Proof.
  revert acc s. induction irs as [|ir irs IH]; intros acc s H; [done|].
  simpl in H. apply bindM_Ok in H as (acc' & s1 & H1 & H2).
  apply bindM_Ok in H1 as (n & s0 & Hn & Hin).
  unfold lift in Hn. injection Hn as Hn <-.
  rewrite bind_cons, foldM_app, (ring_cells_ok _ _ _ Hn).
  apply bindM_Ok. exists acc', s1. split; [|by apply IH].
  by rewrite foldM_fmap.
Qed.

(** The result of a loop whose body returns the same whatever the state. *)
Lemma foldM_result {S X Acc} (f : Acc → X → M S Acc) (g : Acc → X → res Acc)
    (xs : list X) :
  (∀ a x s, (f a x s).1 = g a x) →
  ∀ a s, (foldM f xs a s).1 = foldR g xs a.
Proof.
  intros H. induction xs as [|x xs IH]; intros a s; simpl; [done|].
  specialize (H a x s). unfold mbind at 1, M_bind.
  destruct (f a x s) as [[a'|e] s1]; simpl in H; rewrite <- H; simpl; [apply IH|done].
Qed.

(** ** The constructor's loop *)

Section ConstructorFacts.

Variable contains_point : polygon → F → F → bool.
Variable file : netcdf.

(** One pass through the body: the result is that of [init_step], and
    the console gets the warning of the cell, if any. *)
Lemma init_knot_run (ir ik : Z) (acc : list polygon * Z) (out : list message) :
  init_knot contains_point file ir acc ik out =
  (init_step file acc (ir, ik),
   out ++ (if has_area (KAREAS file) (ir, ik) && is_ok (init_step file acc (ir, ik))
           then cell_warning contains_point file (ir, ik) else [])).
Proof.
  destruct acc as [mesh n].
  unfold init_knot, init_step, init_cell, cell_warning, init_cell,
    cell_polygon, has_area, lift, mbind, M_bind, print_console, print, modify.
  simpl.
  destruct (get2 (KORPG file) ir ik) as [k|]; simpl;
    [|by rewrite andb_false_r, app_nil_r].
  destruct (get2 (KAREAS file) ir ik) as [a|]; simpl; [|by rewrite app_nil_r].
  destruct (fneb a f0); simpl; [|by rewrite app_nil_r].
  destruct (row2 (RVERTP file) (k - 1)) as [rv|]; simpl; [|by rewrite app_nil_r].
  destruct (row2 (ZVERTP file) (k - 1)) as [zv|]; simpl; [|by rewrite app_nil_r].
  destruct (Path (zip (take 4 rv) (take 4 zv))) as [cell|] eqn:Hp; simpl;
    [|by rewrite app_nil_r].
  assert (cell = zip (take 4 rv) (take 4 zv)) as ->.
  { unfold Path in Hp. by destruct (zip _ _); [|injection Hp as <-]. }
  destruct (get2 (RS file) ir ik) as [r|]; simpl; [|by rewrite app_nil_r].
  destruct (get2 (ZS file) ir ik) as [z|]; simpl; [|by rewrite app_nil_r].
  destruct (contains_point _ r z); simpl; [by rewrite app_nil_r|].
  by rewrite <- !app_assoc.
Qed.

Lemma init_ring_result (acc : list polygon * Z) (ir : Z) (out : list message) :
  (init_ring contains_point file acc ir out).1 =
  (n ← getitem (NKS file) ir;
   foldR (λ acc ik, init_step file acc (ir, ik)) (range n) acc).
Proof.
  unfold init_ring, lift, mbind at 1, M_bind.
  destruct (getitem (NKS file) ir) as [n|]; simpl; [|done].
  apply foldM_result. intros a x s. by rewrite init_knot_run.
Qed.

(** The loop over the cells: the polygons of the cells with area are
    appended in order, and the warnings of those whose center fails the
    test are printed in order. *)
Lemma init_loop (cells : list (Z * Z)) :
  ∀ (mesh0 : list polygon) (n0 : Z) (out : list message)
    (mesh : list polygon) (n : Z) (out' : list message),
    foldM (λ acc c, init_knot contains_point file c.1 acc c.2) cells (mesh0, n0) out
      = (Ok (mesh, n), out') →
    ∃ polys,
      mapR (init_cell file) (List.filter (has_area (KAREAS file)) cells) = Ok polys ∧
      mesh = mesh0 ++ polys ∧
      n = n0 + Z.of_nat (length polys) ∧
      out' = out ++ (List.filter (has_area (KAREAS file)) cells
                     ≫= cell_warning contains_point file).
Proof.
  induction cells as [|[ir ik] cells IH]; intros mesh0 n0 out mesh n out' H.
  - injection H as <- <- <-. exists []. simpl.
    by rewrite !app_nil_r, Z.add_0_r.
  - rewrite foldM_cons in H.
    apply bindM_Ok in H as ([mesh1 n1] & out1 & Hstep & H).
    cbn [fst snd] in Hstep.
    rewrite init_knot_run in Hstep. injection Hstep as Hstep <-.
    rewrite Hstep in H. cbn [is_ok] in H. rewrite andb_true_r in H.
    apply IH in H as (polys & Hpolys & -> & -> & ->).
    unfold init_step in Hstep. cbn [fst snd] in Hstep.
    apply bind_Ok in Hstep as (k & Hk & Hstep).
    apply bind_Ok in Hstep as (a & Ha & Hstep).
    assert (Hlive : has_area (KAREAS file) (ir, ik) = fneb a f0).
    { unfold has_area. cbn [fst snd]. by rewrite Ha. }
    cbn [List.filter]. rewrite Hlive. destruct (fneb a f0).
    + apply bind_Ok in Hstep as (v & Hv & [= <- <-]).
      exists (v :: polys). cbn [mapR]. rewrite Hv, Hpolys, bind_cons. simpl.
      rewrite <- !app_assoc. split_and!; [done..|lia|done].
    + injection Hstep as <- <-. exists polys. by rewrite app_nil_r.
Qed.

End ConstructorFacts.

Lemma mapR_impl {X Y} (f g : X → res Y) (xs : list X) (ys : list Y) :
  (∀ x y, x ∈ xs → f x = Ok y → g x = Ok y) →
  mapR f xs = Ok ys → mapR g xs = Ok ys.
Proof.
  revert ys. induction xs as [|x xs IH]; intros ys Hfg H; [done|].
  simpl in *. apply bind_Ok in H as (y & Hy & H).
  apply bind_Ok in H as (ys' & Hys & [= <-]).
  rewrite (Hfg x y) by (done || left). simpl.
  rewrite (IH ys'); [done| |done]. intros x' y' Hx'. apply Hfg. by right.
Qed.

Lemma mapR_Forall {X Y} (f : X → res Y) (P : Y → Prop) (xs : list X) (ys : list Y) :
  (∀ x y, f x = Ok y → P y) → mapR f xs = Ok ys → Forall P ys.
Proof.
  intros Hf. revert ys. induction xs as [|x xs IH]; intros ys H; simpl in H.
  - injection H as <-. constructor.
  - apply bind_Ok in H as (y & Hy & H).
    apply bind_Ok in H as (ys' & Hys & [= <-]).
    constructor; eauto.
Qed.

Lemma getitem_elem {A} (l : list A) (i : Z) (x : A) : getitem l i = Ok x → x ∈ l.
Proof.
  unfold getitem. intros H. apply bind_Ok in H as (k & _ & H).
  destruct (l !! k) eqn:Hk; [|done]. injection H as <-.
  by eapply list_elem_of_lookup_2.
Qed.

Lemma row2_length {A} (a : array2 A) (i : Z) (row : list A) :
  rect a → row2 a i = Ok row → length row = ncols a.
Proof.
  intros Hrect H. apply getitem_elem in H.
  unfold rect in Hrect. rewrite Forall_forall in Hrect. by apply Hrect.
Qed.

Section ConstructorResults.

Variable contains_point : polygon → F → F → bool.
Variable file : netcdf.
Variable netcdf_path : string.

(** What the constructor returns does not depend on the console, nor on
    the point-in-polygon test. *)
Lemma init_result (out : list message) :
  (__init__ contains_point file netcdf_path out).1 =
  (acc ← foldR (λ acc ir, n ← getitem (NKS file) ir;
                  foldR (λ acc ik, init_step file acc (ir, ik)) (range n) acc)
               (range (NRS file)) ([], 0);
   Ok (load_attributes file netcdf_path acc.1 acc.2)).
Proof.
  pose proof (foldM_result (init_ring contains_point file) _ (range (NRS file))
                (init_ring_result contains_point file) ([], 0)) as Hloop.
  unfold __init__, mbind at 1 2, M_bind.
  destruct (ABSFAC file); cbn [mret M_ret print_console print modify].
  - rewrite <- (Hloop out).
    by destruct (foldM _ _ _ out) as [[[mesh n]|e] out2].
  - rewrite <- (Hloop (out ++ [Text "Warning: Can't load all variables from NetCDF file (okay if DIVIMP was not run)."])).
    by destruct (foldM _ _ _ _) as [[[mesh n]|e] out2].
Qed.

(** A constructor that returns has put into the mesh the polygon of every
    cell with area, in loop order, counted them, and printed the warning
    of every such cell whose center fails the test. *)
Lemma init_spec (out out' : list message) (o : OedgePlots) :
  __init__ contains_point file netcdf_path out = (Ok o, out') →
  ∃ polys,
    mapR (init_cell file) (live_cells (NRS file) (NKS file) (KAREAS file)) = Ok polys ∧
    o = load_attributes file netcdf_path polys (Z.of_nat (length polys)) ∧
    out' = out ++ absfac_warning file ++
           (live_cells (NRS file) (NKS file) (KAREAS file)
            ≫= cell_warning contains_point file).
Proof.
  unfold __init__. intros H.
  apply bindM_Ok in H as ([] & out1 & Habs & H).
  apply bindM_Ok in H as ([mesh n] & out2 & Hloop & [= <- <-]).
  assert (out1 = out ++ absfac_warning file) as ->.
  { unfold absfac_warning. destruct (ABSFAC file).
    - injection Habs as <-. by rewrite app_nil_r.
    - by injection Habs as <-. }
  apply (foldM_rings (λ acc c, init_knot contains_point file c.1 acc c.2)) in Hloop.
  apply init_loop in Hloop as (polys & Hpolys & -> & -> & ->).
  exists polys. by rewrite <- app_assoc.
Qed.

End ConstructorResults.

(** ** The order of binary64 numbers *)

(** Case analysis on the comparisons of exponents and mantissas. *)
Ltac compare_cases :=
  repeat match goal with
    | H : context [Z.compare ?a ?b] |- _ =>
        destruct (Z.compare_spec a b); try lia; subst
    | |- context [Z.compare ?a ?b] =>
        destruct (Z.compare_spec a b); try lia; subst
    | H : context [Pos.compare ?a ?b] |- _ =>
        destruct (Pos.compare_spec a b); try lia; subst
    | |- context [Pos.compare ?a ?b] =>
        destruct (Pos.compare_spec a b); try lia; subst
    end.

Ltac float_cases x :=
  destruct x as [[]|[]| |[] ? ?].

Lemma feqb_nan_l (x : F) : feqb nan x = false.
Proof. done. Qed.

Lemma feqb_nan_r (x : F) : feqb x nan = false.
Proof. by destruct x. Qed.

Lemma feqb_refl (x : F) : is_nan x = false → feqb x x = true.
Proof.
  unfold feqb, SFeqb, SFcompare. float_cases x; simpl; try done;
    intros _; change (Pos.compare_cont Eq ?a ?b) with (Pos.compare a b);
    rewrite Z.compare_refl, Pos.compare_refl; done.
Qed.

Lemma fleb_not_nan (x y : F) : fleb x y = true → is_nan x = false ∧ is_nan y = false.
Proof. by destruct x, y. Qed.

Lemma feqb_fleb (x y : F) : feqb x y = true → fleb x y = true.
Proof. unfold feqb, fleb, SFeqb, SFleb. by destruct (SFcompare x y) as [[]|]. Qed.

Lemma fleb_refl (x : F) : is_nan x = false → fleb x x = true.
Proof. intros H. by apply feqb_fleb, feqb_refl. Qed.

Lemma fleb_total (x y : F) :
  is_nan x = false → is_nan y = false → fleb x y = true ∨ fleb y x = true.
Proof.
  unfold fleb, SFleb, SFcompare.
  float_cases x; float_cases y; simpl; try done; auto; intros _ _;
    change (Pos.compare_cont Eq ?a ?b) with (Pos.compare a b);
    compare_cases; simpl; auto.
Qed.

Lemma fleb_trans (x y z : F) :
  fleb x y = true → fleb y z = true → fleb x z = true.
Proof.
  unfold fleb, SFleb, SFcompare.
  float_cases x; float_cases y; simpl; try done;
    float_cases z; simpl; try done;
    change (Pos.compare_cont Eq ?a ?b) with (Pos.compare a b);
    compare_cases; simpl; done.
Qed.

Lemma feqb_sym (x y : F) : feqb x y = feqb y x.
Proof.
  unfold feqb, SFeqb, SFcompare.
  float_cases x; float_cases y; simpl; try done;
    change (Pos.compare_cont Eq ?a ?b) with (Pos.compare a b);
    compare_cases; simpl; done.
Qed.

(** [x <= y] fails between numbers exactly when [y < x]. *)
Lemma fleb_false_fltb (x y : F) :
  is_nan x = false → is_nan y = false → fleb x y = false → fltb y x = true.
Proof.
  unfold fleb, fltb, SFleb, SFltb, SFcompare.
  float_cases x; float_cases y; simpl; try done; intros _ _;
    change (Pos.compare_cont Eq ?a ?b) with (Pos.compare a b);
    compare_cases; simpl; done.
Qed.

Lemma fltb_fleb (x y : F) : fltb x y = true → fleb x y = true.
Proof. unfold fltb, fleb, SFltb, SFleb. by destruct (SFcompare x y) as [[]|]. Qed.

Lemma fltb_not_feqb (x y : F) : fltb x y = true → feqb y x = false.
Proof.
  rewrite feqb_sym.
  unfold fltb, feqb, SFltb, SFeqb. by destruct (SFcompare x y) as [[]|].
Qed.

(** Less or equal and not equal is less. *)
Lemma fleb_neq_fltb (x y : F) : fleb x y = true → feqb x y = false → fltb x y = true.
Proof.
  unfold fltb, feqb, fleb, SFltb, SFeqb, SFleb. by destruct (SFcompare x y) as [[]|].
Qed.

Lemma fleb_fltb_trans (x y z : F) :
  fleb x y = true → fltb y z = true → fltb x z = true.
Proof.
  unfold fleb, fltb, SFleb, SFltb, SFcompare.
  float_cases x; float_cases y; simpl; try done;
    float_cases z; simpl; try done;
    change (Pos.compare_cont Eq ?a ?b) with (Pos.compare a b);
    compare_cases; simpl; done.
Qed.

Lemma feqb_fleb_r (x y z : F) :
  feqb x y = true → fleb y z = true → fleb x z = true.
Proof. intros H. apply fleb_trans. by apply feqb_fleb. Qed.

(** ** [max] and [min] of an array *)

Lemma np_minimum_spec (x y : F) :
  is_nan x = false → is_nan y = false →
  let m := np_minimum x y in
  (m = x ∨ m = y) ∧ fleb m x = true ∧ fleb m y = true.
Proof.
  intros Hx Hy. unfold np_minimum. rewrite Hx, orb_false_r.
  destruct (fleb x y) eqn:Hxy; simpl.
  - split_and!; [by left|by apply fleb_refl|done].
  - split_and!; [by right| |by apply fleb_refl].
    by apply fltb_fleb, fleb_false_fltb.
Qed.

Lemma np_maximum_spec (x y : F) :
  is_nan x = false → is_nan y = false →
  let m := np_maximum x y in
  (m = x ∨ m = y) ∧ fleb x m = true ∧ fleb y m = true.
Proof.
  intros Hx Hy. unfold np_maximum, fgeb. rewrite Hx, orb_false_r.
  destruct (fleb y x) eqn:Hxy; simpl.
  - split_and!; [by left|by apply fleb_refl|done].
  - split_and!; [by right| |by apply fleb_refl].
    by apply fltb_fleb, fleb_false_fltb.
Qed.

(** The reductions return an element of the array. *)
Lemma foldl_np_minimum_elem (l : list F) (x : F) :
  foldl np_minimum x l ∈ x :: l.
Proof.
  revert x. induction l as [|y l IH]; intros x; simpl; [left|].
  pose proof (IH (np_minimum x y)) as H. clear IH. unfold np_minimum in *.
  rewrite !elem_of_cons in *. destruct (fleb x y || is_nan x); tauto.
Qed.

Lemma foldl_np_maximum_elem (l : list F) (x : F) :
  foldl np_maximum x l ∈ x :: l.
Proof.
  revert x. induction l as [|y l IH]; intros x; simpl; [left|].
  pose proof (IH (np_maximum x y)) as H. clear IH. unfold np_maximum in *.
  rewrite !elem_of_cons in *. destruct (fgeb x y || is_nan x); tauto.
Qed.

(** On an array without NaN, [min] is below and [max] is above every
    element. *)
Lemma foldl_np_minimum_lower (l : list F) (x : F) :
  is_nan x = false → Forall (λ y, is_nan y = false) l →
  Forall (λ y, fleb (foldl np_minimum x l) y = true) (x :: l).
Proof.
  revert x. induction l as [|y l IH]; intros x Hx Hl; simpl.
  - constructor; [by apply fleb_refl|constructor].
  - inversion Hl as [|? ? Hy Hl']; subst.
    destruct (np_minimum_spec x y Hx Hy) as (Hm & Hmx & Hmy).
    assert (Hn : is_nan (np_minimum x y) = false) by (by destruct Hm as [-> | ->]).
    specialize (IH _ Hn Hl'). inversion IH as [|? ? H0 Hrest]; subst.
    repeat constructor; [by eapply fleb_trans..|done].
Qed.

Lemma foldl_np_maximum_upper (l : list F) (x : F) :
  is_nan x = false → Forall (λ y, is_nan y = false) l →
  Forall (λ y, fleb y (foldl np_maximum x l) = true) (x :: l).
Proof.
  revert x. induction l as [|y l IH]; intros x Hx Hl; simpl.
  - constructor; [by apply fleb_refl|constructor].
  - inversion Hl as [|? ? Hy Hl']; subst.
    destruct (np_maximum_spec x y Hx Hy) as (Hm & Hmx & Hmy).
    assert (Hn : is_nan (np_maximum x y) = false) by (by destruct Hm as [-> | ->]).
    specialize (IH _ Hn Hl'). inversion IH as [|? ? H0 Hrest]; subst.
    repeat constructor; [by eapply fleb_trans..|done].
Qed.

Lemma np_min_spec (l : list F) (m : F) :
  Forall (λ y, is_nan y = false) l → np_min l = Ok m →
  m ∈ l ∧ Forall (λ y, fleb m y = true) l.
Proof.
  intros Hl H. destruct l as [|x l]; [done|]. injection H as <-.
  inversion Hl; subst.
  split; [apply foldl_np_minimum_elem|by apply foldl_np_minimum_lower].
Qed.

Lemma np_max_spec (l : list F) (m : F) :
  Forall (λ y, is_nan y = false) l → np_max l = Ok m →
  m ∈ l ∧ Forall (λ y, fleb y m = true) l.
Proof.
  intros Hl H. destruct l as [|x l]; [done|]. injection H as <-.
  inversion Hl; subst.
  split; [apply foldl_np_maximum_elem|by apply foldl_np_maximum_upper].
Qed.

(** After the fill-value pass no entry compares equal to the fill value. *)
Lemma fill_with_nan_clears (m : F) (data : list F) :
  Forall (λ x, feqb x m = false) (fill_with_nan m data).
Proof.
  unfold fill_with_nan. apply Forall_fmap, Forall_forall. intros x _. simpl.
  by destruct (feqb x m) eqn:H.
Qed.

(** ** Where a NaN cannot come from *)

Lemma signed_not_nan (s : bool) (x : F) : signed s x → is_nan x = false.
Proof. by intros [->|[->|(m & e & ->)]]. Qed.

Lemma signed_false_sign_free (x : F) : signed false x → sign_free x = true.
Proof. by intros [->|[->|(m & e & ->)]]. Qed.

Lemma iter_pos_invariant {A} (P : A → Prop) (f : A → A) (n : positive) (x : A) :
  (∀ y, P y → P (f y)) → P x → P (SpecFloat.iter_pos f n x).
Proof.
  intros Hf. revert x. induction n as [n IH|n IH|]; intros x Hx; simpl; auto.
Qed.

Lemma shr_1_nonneg (mrs : shr_record) : 0 ≤ shr_m mrs → 0 ≤ shr_m (shr_1 mrs).
Proof. destruct mrs as [[|[p|p|]|p] r s]; simpl; lia. Qed.

Lemma shr_fexp_nonneg (pr em m e : Z) (l : location) :
  0 ≤ m → 0 ≤ shr_m (shr_fexp pr em m e l).1.
Proof.
  intros Hm. unfold shr_fexp, shr.
  assert (H0 : 0 ≤ shr_m (shr_record_of_loc m l)) by (by destruct l as [|[]]).
  destruct (Z.sub _ e) as [|p|p]; simpl; [done| |done].
  by apply iter_pos_invariant; [apply shr_1_nonneg|].
Qed.

Lemma round_nearest_even_nonneg (m : Z) (l : location) :
  0 ≤ m → 0 ≤ round_nearest_even m l.
Proof.
  intros Hm. unfold round_nearest_even.
  destruct l as [|[]]; try destruct (Z.even m); lia.
Qed.

Lemma binary_round_aux_signed (pr em : Z) (s : bool) (m e : Z) (l : location) :
  0 ≤ m → signed s (binary_round_aux pr em s m e l).
Proof.
  intros Hm. unfold binary_round_aux.
  pose proof (shr_fexp_nonneg pr em m e l Hm) as H1.
  destruct (shr_fexp pr em m e l) as [mrs' e']. simpl in H1.
  pose proof (shr_fexp_nonneg pr em _ e' loc_Exact
                (round_nearest_even_nonneg _ (loc_of_shr_record mrs') H1)) as H2.
  destruct (shr_fexp pr em _ e' loc_Exact) as [mrs'' e'']. simpl in H2.
  destruct (shr_m mrs'') as [|p|p]; [by left| |lia].
  destruct (Z.leb _ _); [right; right; eauto|right; by left].
Qed.

Lemma binary_round_signed (pr em : Z) (s : bool) (m : positive) (e : Z) :
  signed s (binary_round pr em s m e).
Proof.
  unfold binary_round. destruct (shl_align _ _ _) as [mz ez].
  by apply binary_round_aux_signed.
Qed.



(** A square is positive, zero or plus infinity. *)
Lemma fmul_square (x : F) : is_nan x = false → sign_free (fmul x x) = true.
Proof.
  unfold fmul, SFmul. destruct x as [[]|[]| |s m e]; try done. intros _.
  apply signed_false_sign_free.
  replace (xorb s s) with false by (by destruct s).
  by apply binary_round_aux_signed.
Qed.

(** So is a sum of two such numbers. *)
Lemma fadd_sign_free (x y : F) :
  sign_free x = true → sign_free y = true → sign_free (fadd x y) = true.
Proof.
  unfold fadd, SFadd.
  destruct x as [[]|[]| |[] mx ex], y as [[]|[]| |[] my ey]; try done.
  intros _ _. simpl. apply signed_false_sign_free, binary_round_signed.
Qed.

(** And the square root of one is a number. *)
Lemma fsqrt_not_nan (x : F) : sign_free x = true → is_nan (fsqrt x) = false.
Proof.
  unfold fsqrt, SFsqrt. destruct x as [[]|[]| |[] m e]; try done. intros _.
  unfold SFsqrt_core_binary.
  set (m' := match _ with Z0 => _ | Zpos _ => _ | Zneg _ => _ end).
  pose proof (Z.sqrtrem_sqrt m') as Hq. pose proof (Z.sqrt_nonneg m') as Hs.
  destruct (Z.sqrtrem m') as [q rem]. simpl in Hq. subst q.
  by apply (signed_not_nan false), binary_round_aux_signed.
Qed.


(** ** C2 and C3: the mesh the constructor builds *)

Lemma cell_polygon_length (korpg : array2 Z) (rvertp zvertp : array2 F)
    (c : Z * Z) (p : polygon) :
  rect rvertp → (4 ≤ ncols rvertp)%nat →
  rect zvertp → (4 ≤ ncols zvertp)%nat →
  cell_polygon korpg rvertp zvertp c = Ok p → length p = 4%nat.
Proof.
  intros Hr Hr4 Hz Hz4 H. unfold cell_polygon in H.
  apply bind_Ok in H as (k & _ & H).
  apply bind_Ok in H as (rv & Hrv & H).
  apply bind_Ok in H as (zv & Hzv & [= <-]).
  apply row2_length in Hrv, Hzv; [|done..].
  rewrite length_zip_with, !length_take. lia.
Qed.

Lemma init_cell_polygon (file : netcdf) (c : Z * Z) (p : polygon) :
  init_cell file c = Ok p →
  cell_polygon (KORPG file) (RVERTP file) (ZVERTP file) c = Ok p.
Proof.
  unfold init_cell. intros H. apply bind_Ok in H as (v & Hv & H).
  apply bind_Ok in H as (? & _ & H).
  apply bind_Ok in H as (? & _ & H).
  apply bind_Ok in H as (? & _ & [= <-]). done.
Qed.

(** When [num_cells] counts the cells with area, as it does after the
    constructor, [read_data_2d] returns one entry for each of them, in loop
    order: the value of the cell, or a NaN the fill-value pass put there. *)
Lemma read_data_2d_on_cells (o : OedgePlots) (dataname : string)
    (charge : charge_arg) (scaling : scaling_arg) (fix_fill no_core : bool)
    (data : list F) :
  num_cells o = Z.of_nat (length (cells_of o)) →
  read_data_2d_on o dataname charge scaling fix_fill no_core = Ok data →
  ∃ raw_data vals,
    raw_data_of o dataname charge = Ok raw_data ∧
    mapR (cell_value o raw_data charge scaling no_core) (cells_of o) = Ok vals ∧
    read_data_2d_on o dataname charge scaling false no_core = Ok vals ∧
    (if fix_fill then fix_fill_values vals else Ok vals) = Ok data.
Proof.
  intros Hn H. rewrite read_data_2d_on_fix_fill in H.
  apply bind_Ok in H as (d & Hd & H).
  destruct (read_data_2d_on_spec _ _ _ _ _ _ Hd) as (raw & vals & Hraw & Hvals & Hlen & Hdv).
  pose proof (mapR_length _ _ _ Hvals) as Hlv.
  assert (d = vals) as ->.
  { rewrite Hdv. replace (length d - length vals)%nat with 0%nat by lia.
    simpl. by rewrite app_nil_r. }
  by exists raw, vals.
Qed.

Lemma fill_with_nan_lookup (m : F) (vals : list F) (k : nat) (v : F) :
  vals !! k = Some v →
  fill_with_nan m vals !! k = Some (if feqb v m then nan else v).
Proof. intros H. unfold fill_with_nan. by rewrite list_lookup_fmap, H. Qed.

Lemma fix_fill_values_inv (vals data : list F) :
  fix_fill_values vals = Ok data →
  ∃ m, np_max vals = Ok m ∧ data = fill_with_nan m vals.
Proof.
  unfold fix_fill_values. intros H.
  apply bind_Ok in H as (m & Hm & [= <-]). eauto.
Qed.

(** C2.  When the constructor returns, the mesh holds exactly the polygons of
    the cells of non-zero area, in loop order, each made of the first four
    vertices of row [korpg[ir, ik] - 1] of the vertex arrays (which have at
    least four columns), and [num_cells] is the length of the mesh.  So every
    array [read_data_2d] returns on that object has one entry per polygon,
    and entry [k] belongs to the cell of polygon [k]. *)
Theorem init_mesh_one_polygon_per_cell
    (contains_point : polygon → F → F → bool) (file : netcdf)
    (netcdf_path : string) (out out' : list message) (o : OedgePlots) :
  rect (RVERTP file) → (4 ≤ ncols (RVERTP file))%nat →
  rect (ZVERTP file) → (4 ≤ ncols (ZVERTP file))%nat →
  __init__ contains_point file netcdf_path out = (Ok o, out') →
  mapR (cell_polygon (korpg o) (rvertp o) (zvertp o)) (cells_of o) = Ok (mesh o) ∧
  Forall (λ p, length p = 4%nat) (mesh o) ∧
  num_cells o = Z.of_nat (length (mesh o)) ∧
  ∀ (dataname : string) (charge : charge_arg) (scaling : scaling_arg)
    (fix_fill no_core : bool) (w w' : world) (data : list F),
    self w = o →
    read_data_2d dataname charge scaling fix_fill no_core w = (Ok data, w') →
    length data = length (mesh o) ∧
    ∀ (k : nat) (c : Z * Z),
      cells_of o !! k = Some c →
      ∃ p raw_data v x,
        mesh o !! k = Some p ∧
        cell_polygon (korpg o) (rvertp o) (zvertp o) c = Ok p ∧
        raw_data_of o dataname charge = Ok raw_data ∧
        cell_value o raw_data charge scaling no_core c = Ok v ∧
        data !! k = Some x ∧
        (x = v ∨ (fix_fill = true ∧ x = nan)).
Proof.
  intros Hr Hr4 Hz Hz4 H.
  apply init_spec in H as (polys & Hpolys & -> & _).
  assert (Hmesh : mapR (cell_polygon (KORPG file) (RVERTP file) (ZVERTP file))
                    (live_cells (NRS file) (NKS file) (KAREAS file)) = Ok polys).
  { revert Hpolys. apply mapR_impl. intros c p _. apply init_cell_polygon. }
  pose proof (mapR_length _ _ _ Hmesh) as Hlen.
  split_and!; [done| |done|].
  - revert Hmesh. apply mapR_Forall. intros c p.
    by apply cell_polygon_length.
  - intros dataname charge scaling fix_fill no_core w w' data Hw Hread.
    unfold read_data_2d in Hread. injection Hread as Hread _.
    rewrite Hw in Hread.
    apply read_data_2d_on_cells in Hread
      as (raw & vals & Hraw & Hvals & _ & Hfix);
      [|unfold cells_of; simpl; by rewrite Hlen].
    pose proof (mapR_length _ _ _ Hvals) as Hlv.
    assert (Hdl : length data = length vals).
    { destruct fix_fill; [|by injection Hfix as <-].
      apply fix_fill_values_inv in Hfix as (m & _ & ->).
      unfold fill_with_nan. by rewrite length_fmap. }
    split; [unfold cells_of in Hlv; simpl in *; lia|].
    intros k c Hc.
    destruct (mapR_lookup _ _ _ _ _ Hmesh Hc) as (p & Hp & Hkp).
    destruct (mapR_lookup _ _ _ _ _ Hvals Hc) as (v & Hv & Hkv).
    destruct fix_fill.
    + apply fix_fill_values_inv in Hfix as (m & _ & ->).
      exists p, raw, v, (if feqb v m then nan else v).
      split_and!; [done..|by apply fill_with_nan_lookup|].
      destruct (feqb v m); [by right|by left].
    + injection Hfix as <-. exists p, raw, v, v. split_and!; [done..|by left].
Qed.

(** On the small grid: six cells with area, six squares, six numbers. *)
Lemma init_mesh_one_polygon_per_cell_witness :
  let data := Demo.z <$> [10; 12; 6; 8; 2; 4] in
  __init__ Demo.inside Demo.file "demo.nc" [] = (Ok Demo.obj, Demo.built.2) ∧
  read_data_2d "KTEBS" ChargeNone (Scale (Demo.z 2)) false false Demo.w0
    = (Ok data, Demo.w0) ∧
  Forall (λ p, length p = 4%nat) (mesh Demo.obj) ∧
  num_cells Demo.obj = Z.of_nat (length (mesh Demo.obj)) ∧
  length data = length (mesh Demo.obj).
Proof.
  intros data.
  assert (Hinit : __init__ Demo.inside Demo.file "demo.nc" []
                  = (Ok Demo.obj, Demo.built.2)) by (vm_compute; reflexivity).
  assert (Hread : read_data_2d "KTEBS" ChargeNone (Scale (Demo.z 2)) false false
                    Demo.w0 = (Ok data, Demo.w0)) by (vm_compute; reflexivity).
  assert (Hr : rect (RVERTP Demo.file)) by (repeat constructor).
  assert (Hz : rect (ZVERTP Demo.file)) by (repeat constructor).
  assert (H4 : (4 ≤ 5)%nat) by lia.
  destruct (init_mesh_one_polygon_per_cell Demo.inside Demo.file "demo.nc" []
              Demo.built.2 Demo.obj Hr H4 Hz H4 Hinit) as (_ & Hfour & Hnum & Hdata).
  destruct (Hdata "KTEBS" ChargeNone (Scale (Demo.z 2)) false false
              Demo.w0 Demo.w0 data eq_refl Hread) as [Hlen _].
  split_and!; assumption.
Defined.

(** C3.  The test of the cell center against its polygon only prints: what
    the constructor returns or raises is the same whatever the test says,
    and when it returns, every cell of non-zero area has its polygon in the
    mesh and is counted in [num_cells], while the console has received the
    warning of each such cell whose center failed the test. *)
Theorem init_center_check_only_warns
    (contains_point contains_point' : polygon → F → F → bool) (file : netcdf)
    (netcdf_path : string) (out : list message) :
  (__init__ contains_point file netcdf_path out).1
    = (__init__ contains_point' file netcdf_path out).1 ∧
  ∀ (o : OedgePlots) (out' : list message),
    __init__ contains_point file netcdf_path out = (Ok o, out') →
    mapR (cell_polygon (korpg o) (rvertp o) (zvertp o)) (cells_of o) = Ok (mesh o) ∧
    num_cells o = Z.of_nat (length (cells_of o)) ∧
    out' = out ++ absfac_warning file ++
           (cells_of o ≫= cell_warning contains_point file).
Proof.
  split; [by rewrite !init_result|].
  intros o out' H.
  apply init_spec in H as (polys & Hpolys & -> & ->).
  assert (Hmesh : mapR (cell_polygon (KORPG file) (RVERTP file) (ZVERTP file))
                    (live_cells (NRS file) (NKS file) (KAREAS file)) = Ok polys).
  { revert Hpolys. apply mapR_impl. intros c p _. apply init_cell_polygon. }
  split_and!; [done| |done].
  simpl. f_equal. by apply mapR_length in Hmesh.
Qed.

(** On the small grid the center of cell (2, 1) lies outside its square:
    the four lines are printed, and the cell is in the mesh all the same, as
    it is with a test that accepts every center. *)
Lemma init_center_check_only_warns_witness :
  __init__ Demo.inside Demo.file "demo.nc" [] = (Ok Demo.obj, Demo.built.2) ∧
  cell_warning Demo.inside Demo.file (2, 1) ≠ [] ∧
  cells_of Demo.obj !! 5%nat = Some (2, 1) ∧
  (__init__ (λ _ _ _, true) Demo.file "demo.nc" []).1 = Ok Demo.obj ∧
  mapR (cell_polygon (korpg Demo.obj) (rvertp Demo.obj) (zvertp Demo.obj))
       (cells_of Demo.obj) = Ok (mesh Demo.obj) ∧
  num_cells Demo.obj = 6.
Proof.
  assert (Hinit : __init__ Demo.inside Demo.file "demo.nc" []
                  = (Ok Demo.obj, Demo.built.2)) by (vm_compute; reflexivity).
  destruct (init_center_check_only_warns Demo.inside (λ _ _ _, true) Demo.file
              "demo.nc" []) as [Hsame Hmesh].
  destruct (Hmesh Demo.obj Demo.built.2 Hinit) as (Hpolys & Hnum & _).
  split_and!; [exact Hinit|by vm_compute|by vm_compute| |exact Hpolys|exact Hnum].
  rewrite <- Hsame, Hinit. reflexivity.
Defined.

(** ** C4: the failures of [read_data_2d_kvhs_t13] *)

Section DriftTableFacts.

Variable py_float : string → res F.
Variable DataFrame : Type.
Variable drift_frame : list (list string) → res DataFrame.
Variable in_index : DataFrame → Z → bool.
Variable loc : DataFrame → string → Z → res F.

Abbreviation kvhs_t13 :=
  (read_data_2d_kvhs_t13 py_float DataFrame drift_frame in_index loc).

(** Without a [.dat] file the message is printed, and then the [try]
    block calls [split] on [None]: the [AttributeError] is not the
    [IndexError] the handler catches. *)
Lemma kvhs_without_dat_file (w : world) (no_core : bool) :
  dat_file (self w) = None →
  kvhs_t13 no_core w =
  (Raise AttributeError,
   World (self w)
     (stdout w ++ [Text "Error: .dat file not loaded in. Run 'add_dat_file' first."])).
Proof.
  intros Hnone.
  unfold read_data_2d_kvhs_t13, try_except, kvhs_try, mbind, M_bind, gets, lift,
    print_world, print, modify.
  rewrite decide_True by done. cbn [self stdout]. by rewrite Hnone.
Qed.

(** With the drift option off the method prints and returns [-1]. *)
Lemma kvhs_option_off (w : world) (no_core : bool) (text after field : string)
    (pol_opt : F) :
  dat_file (self w) = Some text →
  getitem (split text "POL DRIFT OPT") 1 = Ok after →
  getitem (split after ":") 0 = Ok field →
  py_float field = Ok pol_opt →
  feqb pol_opt f0 = true →
  kvhs_t13 no_core w =
  (Ok KvhsMinusOne,
   World (self w)
     (stdout w ++ [Text "Error: Poloidal drift option T13 was not on for this run."])).
Proof.
  intros Htext Hafter Hfield Hfloat Hzero.
  unfold read_data_2d_kvhs_t13, try_except, kvhs_try, dat_split, mbind, M_bind,
    gets, lift, print_world, print, modify.
  rewrite decide_False by (by rewrite Htext). rewrite Htext.
  cbn [mret M_ret]. rewrite Hafter, Hfield, Hfloat, Hzero. done.
Qed.

(** When the file does not mention the drift option, the [IndexError] of
    [split(...)[1]] is caught: the method prints and returns [None]. *)
Lemma kvhs_option_absent (w : world) (no_core : bool) (text : string) :
  dat_file (self w) = Some text →
  getitem (split text "POL DRIFT OPT") 1 = Raise IndexError →
  kvhs_t13 no_core w =
  (Ok KvhsNone,
   World (self w) (stdout w ++ [Text "Error: Was T13 on for this run?"])).
Proof.
  intros Htext Hafter.
  unfold read_data_2d_kvhs_t13, try_except, kvhs_try, dat_split, mbind, M_bind,
    gets, lift, print_world, print, modify.
  rewrite decide_False by (by rewrite Htext). rewrite Htext.
  cbn [mret M_ret]. rewrite Hafter. done.
Qed.

(** The same when the option is on and the drift table is missing. *)
Lemma kvhs_table_absent (w : world) (no_core : bool) (text after field : string)
    (pol_opt : F) :
  dat_file (self w) = Some text →
  getitem (split text "POL DRIFT OPT") 1 = Ok after →
  getitem (split after ":") 0 = Ok field →
  py_float field = Ok pol_opt →
  feqb pol_opt f0 = false →
  getitem (split text drift_table_header) 1 = Raise IndexError →
  kvhs_t13 no_core w =
  (Ok KvhsNone,
   World (self w) (stdout w ++ [Text "Error: Was T13 on for this run?"])).
Proof.
  intros Htext Hafter Hfield Hfloat Hzero Htable.
  unfold read_data_2d_kvhs_t13, try_except, kvhs_try, dat_split, mbind, M_bind,
    gets, lift, print_world, print, modify.
  rewrite decide_False by (by rewrite Htext). rewrite Htext.
  cbn [mret M_ret]. rewrite Hafter, Hfield, Hfloat, Hzero, Htable. done.
Qed.

(** C4.  On the object the constructor has just built, whose [dat_file] is
    still [None], [read_data_2d_kvhs_t13] prints its message and then
    raises [AttributeError]; it returns neither [-1] nor [None]. *)
Theorem kvhs_without_dat_file_raises (no_core : bool) :
  dat_file Demo.obj = None ∧
  kvhs_t13 no_core Demo.w0 =
  (Raise AttributeError,
   World Demo.obj [Text "Error: .dat file not loaded in. Run 'add_dat_file' first."]).
Proof.
  split; [reflexivity|]. by rewrite kvhs_without_dat_file.
Qed.

End DriftTableFacts.

(** The two failures the method does handle, on a file that has the drift
    option at 0 and on one that does not mention it.  [float] is only asked
    about the text of these files. *)
Lemma kvhs_handled_failures (no_core : bool) :
  let py_float := λ s : string, if decide (s = " 0.0") then Ok f0 else Raise ValueError in
  let run text :=
    (add_dat_file "demo.dat" text;;
     read_data_2d_kvhs_t13 py_float () (λ _, Ok ()) (λ _ _, false)
       (λ _ _ _, Raise KeyError) no_core) Demo.w0 in
  (run "POL DRIFT OPT 0.0: OFF").1 = Ok KvhsMinusOne ∧
  (run "NO SUCH OPTION").1 = Ok KvhsNone.
Proof. split; vm_compute; reflexivity. Qed.

(** ** C5: the core mask *)

Lemma flat_step_sim (area : array2 F) (value value' : Z * Z → res F)
    (a b : list F * Z) (c : Z * Z) :
  res_rel (λ _ _, True) (value c) (value' c) →
  in_step a b →
  res_rel in_step (flat_step area value a c) (flat_step area value' b c).
Proof.
  destruct a as [d n], b as [d' n']. intros Hv [Hn Hl]. simpl in Hn, Hl. subst n'.
  unfold flat_step. simpl.
  destruct (get2 area c.1 c.2) as [x|]; simpl; [|done].
  destruct (fneb x f0); [|done].
  destruct (value c) as [v|], (value' c) as [v'|]; simpl in *; try done.
  unfold setitem. rewrite Hl.
  destruct (norm_index (length d') n) as [k|]; simpl; [|done].
  split; [done|]. simpl. by rewrite !length_insert.
Qed.

Lemma cell_value_no_core_sim (o : OedgePlots) (raw_data : ndarray)
    (charge : charge_arg) (scaling : scaling_arg) (c : Z * Z) :
  res_rel (λ _ _, True) (cell_value o raw_data charge scaling true c)
                        (cell_value o raw_data charge scaling false c).
Proof.
  unfold cell_value. destruct scaling; simpl; [|done].
  by destruct (raw_value charge raw_data c.1 c.2).
Qed.

Lemma read_loop_no_core_sim (o : OedgePlots) (raw_data : ndarray)
    (charge : charge_arg) (scaling : scaling_arg) (data0 : list F) :
  res_rel in_step
    (foldR (read_ring o raw_data charge scaling true) (range (nrs o)) (data0, 0))
    (foldR (read_ring o raw_data charge scaling false) (range (nrs o)) (data0, 0)).
Proof.
  apply foldR_sim; [|done].
  intros a b ir Hab. unfold read_ring.
  destruct (getitem (nks o) ir) as [n|]; simpl; [|done].
  apply foldR_sim; [|done].
  intros a' b' ik Hab'. rewrite !read_knot_flat.
  apply flat_step_sim; [apply cell_value_no_core_sim|done].
Qed.

(** With the fill-value pass off, the calls with and without the mask
    return together or raise the same exception. *)
Lemma read_data_2d_on_no_core_sim (o : OedgePlots) (dataname : string)
    (charge : charge_arg) (scaling : scaling_arg) :
  res_rel (λ _ _, True)
    (read_data_2d_on o dataname charge scaling false true)
    (read_data_2d_on o dataname charge scaling false false).
Proof.
  unfold read_data_2d_on.
  destruct (load_raw_data o dataname) as [raw0|]; simpl; [|done].
  destruct (np_zeros (num_cells o)) as [zeros|]; simpl; [|done].
  destruct (sum_charges charge raw0) as [raw|]; simpl; [|done].
  pose proof (read_loop_no_core_sim o raw charge scaling zeros) as H.
  destruct (foldR _ _ _) as [[d n]|], (foldR _ _ _) as [[d' n']|]; simpl in *; done.
Qed.

(** The claim as the specification words it, for any [fix_fill], fails on
    the small grid with [fix_fill=True]: the mask changes the maximum, so
    cell (1, 2), outside the core, comes back as NaN with the mask and as
    8 without it. *)
Lemma no_core_with_fix_fill_counterexample :
  ¬ (∀ (w w1 w2 : world) (dataname : string) (charge : charge_arg)
       (scaling : scaling_arg) (fix_fill : bool) (masked plain : list F),
       read_data_2d dataname charge scaling fix_fill true w = (Ok masked, w1) →
       read_data_2d dataname charge scaling fix_fill false w = (Ok plain, w2) →
       ∀ (count : nat) (ir ik : Z),
         cells_of (self w) !! count = Some (ir, ik) →
         if bool_decide (ir < irsep (self w) - 1)
         then scaling ≠ Ring → masked !! count = Some f0
         else masked !! count = plain !! count).
Proof.
  intros H.
  pose (masked := [f0; f0; Demo.z 6; nan; Demo.z 2; Demo.z 4]).
  pose (plain := [Demo.z 10; nan; Demo.z 6; Demo.z 8; Demo.z 2; Demo.z 4]).
  assert (H1 : read_data_2d "KTEBS" ChargeNone (Scale (Demo.z 2)) true true Demo.w0
               = (Ok masked, Demo.w0)) by (vm_compute; reflexivity).
  assert (H2 : read_data_2d "KTEBS" ChargeNone (Scale (Demo.z 2)) true false Demo.w0
               = (Ok plain, Demo.w0)) by (vm_compute; reflexivity).
  assert (H3 : cells_of (self Demo.w0) !! 3%nat = Some (1, 2))
    by (vm_compute; reflexivity).
  specialize (H _ _ _ _ _ _ _ _ _ H1 H2 _ _ _ H3).
  vm_compute in H. discriminate H.
Qed.

(** C5, amended.  With the fill-value pass off, the calls of [read_data_2d]
    with [no_core=True] and with [no_core=False] both return or raise the
    same exception; when they return, the two arrays have the same length,
    the masked one holds 0.0 at every cell of a ring [ir < irsep - 1] when
    [scaling] is not ['Ring'], and the same value as the other at every
    other position. *)
Theorem no_core_masks_core_rings (w : world) (dataname : string)
    (charge : charge_arg) (scaling : scaling_arg) :
  res_rel (λ _ _, True)
    (read_data_2d dataname charge scaling false true w).1
    (read_data_2d dataname charge scaling false false w).1 ∧
  ∀ (masked : list F) (w1 : world),
    read_data_2d dataname charge scaling false true w = (Ok masked, w1) →
    ∃ plain,
      read_data_2d dataname charge scaling false false w = (Ok plain, w) ∧
      length masked = length plain ∧
      (∀ (count : nat) (ir ik : Z),
         cells_of (self w) !! count = Some (ir, ik) →
         (scaling ≠ Ring → ir < irsep (self w) - 1 → masked !! count = Some f0) ∧
         (scaling = Ring ∨ irsep (self w) - 1 ≤ ir →
          masked !! count = plain !! count)) ∧
      (∀ count : nat,
         (length (cells_of (self w)) ≤ count)%nat →
         masked !! count = plain !! count).
Proof.
  split; [apply read_data_2d_on_no_core_sim|].
  unfold read_data_2d, mbind, M_bind, gets, lift. intros masked w1 H.
  injection H as H _.
  pose proof (read_data_2d_on_no_core_sim (self w) dataname charge scaling) as Hsim.
  rewrite H in Hsim.
  destruct (read_data_2d_on (self w) dataname charge scaling false false)
    as [plain|] eqn:Hplain; [clear Hsim|done].
  exists plain. split; [done|].
  apply read_data_2d_on_spec in H as (raw & vals & Hraw & Hvals & Hlen & Hm).
  apply read_data_2d_on_spec in Hplain as (raw' & vals' & Hraw' & Hvals' & Hlen' & Hp).
  rewrite Hraw in Hraw'. injection Hraw' as <-.
  pose proof (mapR_length _ _ _ Hvals) as Hlv.
  pose proof (mapR_length _ _ _ Hvals') as Hlv'.
  assert (Hll : length masked = length plain) by lia.
  split_and!; [done| |].
  - intros count ir ik Hc.
    destruct (mapR_lookup _ _ _ _ _ Hvals Hc) as (v & Hv & Hkv).
    destruct (mapR_lookup _ _ _ _ _ Hvals' Hc) as (v' & Hv' & Hkv').
    rewrite Hm, Hp, !(lookup_app_l_Some _ _ _ _ Hkv), !(lookup_app_l_Some _ _ _ _ Hkv').
    unfold cell_value in Hv, Hv'. destruct scaling as [s|]; simpl in *.
    + apply bind_Ok in Hv as (x & Hx & [= <-]).
      apply bind_Ok in Hv' as (x' & Hx' & [= <-]).
      rewrite Hx in Hx'. injection Hx' as <-. split.
      * intros _ Hcore. by rewrite bool_decide_eq_true_2.
      * intros [[=]|Hout]. by rewrite bool_decide_eq_false_2 by lia.
    + split; [done|]. intros _. congruence.
  - intros count Hge. rewrite Hm, Hp.
    rewrite !lookup_app_r by lia. by rewrite Hlv, Hlv', Hll.
Qed.

(** On the small grid, with the factor 2: the two cells of ring 0 are set
    to zero, the four others keep their value. *)
Lemma no_core_masks_core_rings_witness :
  let masked := [f0; f0; Demo.z 6; Demo.z 8; Demo.z 2; Demo.z 4] in
  let plain := Demo.z <$> [10; 12; 6; 8; 2; 4] in
  read_data_2d "KTEBS" ChargeNone (Scale (Demo.z 2)) false true Demo.w0
    = (Ok masked, Demo.w0) ∧
  read_data_2d "KTEBS" ChargeNone (Scale (Demo.z 2)) false false Demo.w0
    = (Ok plain, Demo.w0) ∧
  ∀ (count : nat) (ir ik : Z),
    cells_of Demo.obj !! count = Some (ir, ik) →
    (ir < irsep Demo.obj - 1 → masked !! count = Some f0) ∧
    (irsep Demo.obj - 1 ≤ ir → masked !! count = plain !! count).
Proof.
  intros masked plain.
  assert (H : read_data_2d "KTEBS" ChargeNone (Scale (Demo.z 2)) false true Demo.w0
              = (Ok masked, Demo.w0)) by (vm_compute; reflexivity).
  assert (H' : read_data_2d "KTEBS" ChargeNone (Scale (Demo.z 2)) false false Demo.w0
               = (Ok plain, Demo.w0)) by (vm_compute; reflexivity).
  destruct (no_core_masks_core_rings Demo.w0 "KTEBS" ChargeNone (Scale (Demo.z 2)))
    as [_ Hmask].
  destruct (Hmask masked Demo.w0 H) as (plain' & Hplain & _ & Hcells & _).
  rewrite H' in Hplain. injection Hplain as <-.
  split_and!; [exact H|exact H'|].
  intros count ir ik Hc. destruct (Hcells count ir ik Hc) as [Hcore Hout].
  split; [by apply Hcore|]. intros Hir. apply Hout. by right.
Defined.

(** ** C6, C7: the extraction methods read and do not write *)

Lemma read_only_ret {A} (a : A) : read_only (mret a).
Proof. done. Qed.

Lemma read_only_lift {A} (r : res A) : read_only (lift r).
Proof. done. Qed.

Lemma read_only_gets {A} (f : world → A) : read_only (gets f).
Proof. done. Qed.

Lemma read_only_bind {A B} (m : M world A) (f : A → M world B) :
  read_only m → (∀ a, read_only (f a)) → read_only (m ≫= f).
Proof.
  intros Hm Hf w. unfold mbind, M_bind. specialize (Hm w).
  destruct (m w) as [[a|e] w1]; simpl in *; subst; [apply Hf|done].
Qed.

Create HintDb read_only.
#[local] Hint Resolve read_only_ret read_only_lift read_only_gets : read_only.
#[local] Hint Extern 2 (read_only (_ ≫= _)) =>
  apply read_only_bind; [|intros ?] : read_only.

Lemma read_data_2d_read_only (dataname : string) (charge : charge_arg)
    (scaling : scaling_arg) (fix_fill no_core : bool) :
  read_only (read_data_2d dataname charge scaling fix_fill no_core).
Proof. unfold read_data_2d. auto with read_only. Qed.

Lemma get_sep_read_only : read_only get_sep.
Proof. unfold get_sep. auto with read_only. Qed.

Lemma find_ring_knot_read_only (r z : F) : read_only (find_ring_knot r z).
Proof. unfold find_ring_knot. auto with read_only. Qed.

(** What the methods return is a function of the object alone. *)
Lemma read_data_2d_result (w : world) (dataname : string) (charge : charge_arg)
    (scaling : scaling_arg) (fix_fill no_core : bool) :
  (read_data_2d dataname charge scaling fix_fill no_core w).1 =
  read_data_2d_on (self w) dataname charge scaling fix_fill no_core.
Proof. done. Qed.

Lemma find_ring_knot_result (w : world) (r z : F) :
  (find_ring_knot r z w).1 = find_ring_knot_on (self w) r z.
Proof. done. Qed.

Lemma get_sep_result (w : world) : (get_sep w).1 = get_sep_on (self w).
Proof. done. Qed.

(** C6.  [read_data_2d] and [find_ring_knot] are deterministic: on the same
    object (the cached arrays, the file and the text of the [.dat] file) the
    same arguments give the same result, whatever was printed before, and a
    second call after the first gives what the first gave. *)
Theorem extraction_is_deterministic (o : OedgePlots) (out out' : list message)
    (dataname : string) (charge : charge_arg) (scaling : scaling_arg)
    (fix_fill no_core : bool) (r z : F) :
  let read := read_data_2d dataname charge scaling fix_fill no_core in
  let find := find_ring_knot r z in
  (read (World o out)).1 = (read (World o out')).1 ∧
  (read (read (World o out)).2).1 = (read (World o out)).1 ∧
  (find (World o out)).1 = (find (World o out')).1 ∧
  (find (find (World o out)).2).1 = (find (World o out)).1.
Proof.
  intros read find. subst read find. split_and!.
  - by rewrite !read_data_2d_result.
  - by rewrite read_data_2d_read_only.
  - by rewrite !find_ring_knot_result.
  - by rewrite find_ring_knot_read_only.
Qed.

(** C7.  [read_data_2d], [get_sep] and [find_ring_knot] have no effect on
    the object: after the call every attribute ([rs], [zs], [nrs], [nks],
    [area], [korpg], [rvertp], [zvertp], [irsep], [kss], [mesh],
    [num_cells] and the rest) is what it was, whether the call returned or
    raised, and nothing was printed. *)
Theorem extraction_leaves_object_unchanged (w : world)
    (dataname : string) (charge : charge_arg) (scaling : scaling_arg)
    (fix_fill no_core : bool) (r z : F) :
  (read_data_2d dataname charge scaling fix_fill no_core w).2 = w ∧
  (get_sep w).2 = w ∧
  (find_ring_knot r z w).2 = w.
Proof.
  split_and!.
  - apply read_data_2d_read_only.
  - apply get_sep_read_only.
  - apply find_ring_knot_read_only.
Qed.

(** ** C8: the fill-value pass *)

(** C8.  With [fix_fill=True], [read_data_2d] returns the array it would
    return without it, which is not empty, with a NaN in place of every
    entry equal to that array's maximum [data.max()], whatever the maximum
    is: no entry of the result is equal to it.  (On an array without NaN the
    maximum is an entry that no entry exceeds.) *)
Theorem fix_fill_replaces_maximum (w w' : world) (dataname : string)
    (charge : charge_arg) (scaling : scaling_arg) (no_core : bool)
    (data : list F) :
  read_data_2d dataname charge scaling true no_core w = (Ok data, w') →
  ∃ before fill_val,
    read_data_2d dataname charge scaling false no_core w = (Ok before, w) ∧
    before ≠ [] ∧
    np_max before = Ok fill_val ∧
    fill_val ∈ before ∧
    (Forall (λ x, is_nan x = false) before →
     Forall (λ x, fleb x fill_val = true) before) ∧
    length data = length before ∧
    (∀ (k : nat) (x : F),
       before !! k = Some x →
       data !! k = Some (if feqb x fill_val then nan else x)) ∧
    Forall (λ x, feqb x fill_val = false) data.
Proof.
  unfold read_data_2d, mbind, M_bind, gets, lift. intros H. injection H as H _.
  rewrite read_data_2d_on_fix_fill in H.
  apply bind_Ok in H as (before & Hbefore & H).
  apply fix_fill_values_inv in H as (m & Hm & ->).
  exists before, m. rewrite Hbefore.
  split_and!; [done| |done| | | | |].
  - intros ->. discriminate Hm.
  - destruct before as [|x l]; [done|]. injection Hm as <-.
    apply foldl_np_maximum_elem.
  - intros Hnan. by apply np_max_spec.
  - unfold fill_with_nan. by rewrite length_fmap.
  - intros k x. apply fill_with_nan_lookup.
  - apply fill_with_nan_clears.
Qed.

(** On the small grid the largest value, 12, is a datum and not the fill
    constant of netCDF; it is replaced all the same. *)
Lemma fix_fill_replaces_maximum_witness :
  let data := [Demo.z 10; nan; Demo.z 6; Demo.z 8; Demo.z 2; Demo.z 4] in
  read_data_2d "KTEBS" ChargeNone (Scale (Demo.z 2)) true false Demo.w0
    = (Ok data, Demo.w0) ∧
  ∃ before fill_val,
    read_data_2d "KTEBS" ChargeNone (Scale (Demo.z 2)) false false Demo.w0
      = (Ok before, Demo.w0) ∧
    before ≠ [] ∧
    np_max before = Ok fill_val ∧
    fill_val ∈ before ∧
    (Forall (λ x, is_nan x = false) before →
     Forall (λ x, fleb x fill_val = true) before) ∧
    length data = length before ∧
    (∀ (k : nat) (x : F),
       before !! k = Some x →
       data !! k = Some (if feqb x fill_val then nan else x)) ∧
    Forall (λ x, feqb x fill_val = false) data.
Proof.
  intros data.
  assert (H : read_data_2d "KTEBS" ChargeNone (Scale (Demo.z 2)) true false Demo.w0
              = (Ok data, Demo.w0)) by (vm_compute; reflexivity).
  split; [exact H|].
  exact (fix_fill_replaces_maximum Demo.w0 Demo.w0 "KTEBS" ChargeNone
           (Scale (Demo.z 2)) false data H).
Defined.

(** ** C9: the closest cell *)

(** [positions] and [where2] list the matching indices in increasing
    order, so their head is the first match. *)
Lemma positions_nil {A} (p : A → bool) (j0 : nat) (row : list A) :
  positions p j0 row = [] → Forall (λ x, p x = false) row.
Proof.
  revert j0. induction row as [|x row IH]; intros j0 H; [constructor|].
  simpl in H. destruct (p x) eqn:Hx; [done|]. constructor; eauto.
Qed.

Lemma positions_head {A} (p : A → bool) (j0 j : nat) (row : list A) (rest : list nat) :
  positions p j0 row = j :: rest →
  ∃ (k : nat) (x : A),
    j = (j0 + k)%nat ∧ row !! k = Some x ∧ p x = true ∧
    ∀ (k' : nat) (x' : A), (k' < k)%nat → row !! k' = Some x' → p x' = false.
Proof.
  revert j0. induction row as [|x row IH]; intros j0 H; [done|].
  simpl in H. destruct (p x) eqn:Hx.
  - injection H as <- _. exists 0%nat, x. split_and!; [lia|done..|lia].
  - apply IH in H as (k & y & -> & Hk & Hy & Hbefore).
    exists (S k), y. split_and!; [lia|done..|].
    intros [|k'] x' Hlt Hk'; simpl in Hk'; [by injection Hk' as <-|].
    apply (Hbefore k'); [lia|done].
Qed.

Lemma positions_some {A} (p : A → bool) (j0 : nat) (row : list A) (x : A) :
  x ∈ row → p x = true → positions p j0 row ≠ [].
Proof.
  intros Hin Hx H. apply positions_nil in H.
  rewrite Forall_forall in H. specialize (H x Hin). congruence.
Qed.

Lemma where2_nil {A} (p : A → bool) (i0 : nat) (a : list (list A)) :
  where2 p i0 a = [] → Forall (Forall (λ x, p x = false)) a.
Proof.
  revert i0. induction a as [|row a IH]; intros i0 H; [constructor|].
  simpl in H. apply app_eq_nil in H as [Hrow Ha].
  apply fmap_nil_inv in Hrow. constructor; [by eapply positions_nil|eauto].
Qed.

Lemma where2_head {A} (p : A → bool) (i0 i j : nat) (a : list (list A))
    (rest : list (nat * nat)) :
  where2 p i0 a = (i, j) :: rest →
  ∃ (k : nat) (row : list A) (x : A),
    i = (i0 + k)%nat ∧ a !! k = Some row ∧ row !! j = Some x ∧ p x = true ∧
    (∀ (j' : nat) (x' : A), (j' < j)%nat → row !! j' = Some x' → p x' = false) ∧
    (∀ (k' : nat) (row' : list A) (x' : A),
       (k' < k)%nat → a !! k' = Some row' → x' ∈ row' → p x' = false).
Proof.
  revert i0. induction a as [|row a IH]; intros i0 H; [done|].
  simpl in H. destruct (positions p 0 row) as [|j1 js] eqn:Hrow; simpl in H.
  - apply IH in H as (k & row' & x & -> & Hk & Hj & Hx & Hrow' & Hbefore).
    exists (S k), row', x. split_and!; [lia|done..|].
    intros [|k'] r' x' Hlt Hk' Hin; simpl in Hk'.
    + injection Hk' as <-. apply positions_nil in Hrow.
      rewrite Forall_forall in Hrow. by apply Hrow.
    + apply (Hbefore k' r'); [lia|done..].
  - injection H as <- <- _.
    apply positions_head in Hrow as (k & x & -> & Hk & Hx & Hbefore).
    exists 0%nat, row, x. split_and!; [lia|done..| |lia].
    intros j' x'. apply Hbefore.
Qed.

(** Reading an array at indices that are natural numbers. *)
Lemma get2_nat {A} (a : array2 A) (i j : nat) (x : A) :
  get2 a (Z.of_nat i) (Z.of_nat j) = Ok x ↔
  ∃ row, rows a !! i = Some row ∧ row !! j = Some x.
Proof.
  unfold get2, row2. split.
  - intros H. apply bind_Ok in H as (row & Hrow & H).
    apply getitem_nonneg in Hrow, H; [|lia..].
    rewrite Nat2Z.id in *. eauto.
  - intros (row & Hrow & H). by rewrite (getitem_nat _ _ _ Hrow), <- (getitem_nat _ _ _ H).
Qed.

(** ** The masked distance array *)

Lemma finite_square_number (x : F) : is_finite (fmul x x) = true → is_nan x = false.
Proof. by destruct x. Qed.

Lemma sign_free_not_negative (x : F) : sign_free x = true → fltb x f0 = false.
Proof. by destruct x as [[]|[]| |[] m e]. Qed.

(** Where both squares are finite, the entry of the masked array is the
    distance; everywhere else the entry is masked. *)
Lemma ma_dist_spec (r z rc zc : F) :
  ma_dist r z rc zc =
  if finite_squares r z rc zc then Some (cell_dist r z rc zc) else None.
Proof.
  unfold ma_dist, ma_square, finite_squares, cell_dist. cbv zeta.
  destruct (is_finite (fmul (fsub r rc) (fsub r rc))) eqn:Hr; [|done].
  destruct (is_finite (fmul (fsub z zc) (fsub z zc))) eqn:Hz; [|done].
  cbn [ma_add ma_sqrt andb].
  rewrite sign_free_not_negative; [done|].
  apply fadd_sign_free; by apply fmul_square, finite_square_number.
Qed.

(** An entry that is not masked is a number. *)
Lemma ma_dist_number (r z rc zc d : F) :
  ma_dist r z rc zc = Some d → is_nan d = false.
Proof.
  rewrite ma_dist_spec. unfold finite_squares, cell_dist.
  destruct (is_finite (fmul (fsub r rc) (fsub r rc))) eqn:Hr; [|done].
  destruct (is_finite (fmul (fsub z zc) (fsub z zc))) eqn:Hz; [|done].
  intros [= <-].
  apply fsqrt_not_nan, fadd_sign_free; by apply fmul_square, finite_square_number.
Qed.

(** The entries of the distance array, by their indices. *)
Lemma dist_array_lookup (o : OedgePlots) (r z : F) (dist : array2 (option F))
    (i j : nat) (e : option F) :
  dist_array r z (rs o) (zs o) = Ok dist →
  (∃ row, rows dist !! i = Some row ∧ row !! j = Some e) ↔
  ∃ rc zc,
    get2 (rs o) (Z.of_nat i) (Z.of_nat j) = Ok rc ∧
    get2 (zs o) (Z.of_nat i) (Z.of_nat j) = Ok zc ∧
    e = ma_dist r z rc zc.
Proof.
  unfold dist_array. destruct (same_shape _ _); [|done].
  intros [= <-]. simpl. split.
  - intros (row & Hrow & Hd).
    apply lookup_zip_with_Some in Hrow as (rrow & zrow & -> & Hr & Hz).
    apply lookup_zip_with_Some in Hd as (rc & zc & -> & Hrc & Hzc).
    exists rc, zc. split_and!; [apply get2_nat; eauto..|done].
  - intros (rc & zc & Hrc & Hzc & ->).
    apply get2_nat in Hrc as (rrow & Hr & Hrc).
    apply get2_nat in Hzc as (zrow & Hz & Hzc).
    exists (zip_with (ma_dist r z) rrow zrow). split.
    + apply lookup_zip_with_Some. eauto.
    + apply lookup_zip_with_Some. eauto.
Qed.

Lemma elem_of_concat {A} (a : list (list A)) (x : A) :
  x ∈ concat a ↔ ∃ row, x ∈ row ∧ row ∈ a.
Proof.
  induction a as [|r a IH]; simpl.
  - split; [by intros ?%elem_of_nil|]. by intros (row & _ & ?%elem_of_nil).
  - rewrite elem_of_app, IH. split.
    + intros [H|(row & Hx & Hrow)]; [exists r|exists row];
        (split; [done|]); [left|by right].
    + intros (row & Hx & [->|Hrow]%elem_of_cons); [by left|right; eauto].
Qed.

Lemma elem_of_concat_lookup {A} (a : list (list A)) (x : A) :
  x ∈ concat a ↔ ∃ (i j : nat) (row : list A), a !! i = Some row ∧ row !! j = Some x.
Proof.
  rewrite elem_of_concat. split.
  - intros (row & Hx & Hrow).
    apply list_elem_of_lookup in Hx as [j Hj].
    apply list_elem_of_lookup in Hrow as [i Hi]. eauto.
  - intros (i & j & row & Hi & Hj). exists row.
    split; by eapply list_elem_of_lookup_2.
Qed.

Lemma getitem_head {A} (x : A) (l : list A) : getitem (x :: l) 0 = Ok x.
Proof.
  unfold getitem. rewrite norm_index_in_range by (simpl; lia). done.
Qed.

(** ** The minimum of a masked array *)

Lemma fleb_pinf_l (x : F) : fleb pinf x = true → x = pinf.
Proof. by destruct x as [[]|[]| |[] m e]. Qed.


Lemma forallb_is_masked (l : list (option F)) :
  forallb is_masked l = true ↔ Forall (λ e, e = None) l.
Proof.
  induction l as [|[x|] l IH]; simpl.
  - split; [constructor|done].
  - split; [done|]. by intros [[=] _]%Forall_cons.
  - rewrite IH. split; [by constructor|]. by intros [_ ?]%Forall_cons.
Qed.

Lemma not_all_masked (l : list (option F)) :
  forallb is_masked l = false → ∃ d, Some d ∈ l.
Proof.
  induction l as [|[x|] l IH]; simpl; [done| |].
  - intros _. exists x. left.
  - intros [d Hd]%IH. exists d. by right.
Qed.

(** [min] of a masked array whose entries are numbers: the constant
    [masked] if every entry is masked; otherwise a number that an entry
    compares equal to and that is at most every entry. *)
Lemma ma_min_spec (l : list (option F)) (m : option F) :
  Forall (λ e, ∀ d, e = Some d → is_nan d = false) l →
  ma_min l = Ok m →
  (m = None ∧ Forall (λ e, e = None) l) ∨
  (∃ x, m = Some x ∧
        (∃ d, Some d ∈ l ∧ feqb d x = true) ∧
        ∀ d, Some d ∈ l → fleb x d = true).
Proof.
  intros Hl H. unfold ma_min in H.
  apply bind_Ok in H as (x & Hx & H).
  destruct (forallb is_masked l) eqn:Hall; injection H as <-.
  { left. split; [done|]. by apply forallb_is_masked. }
  right. exists x. split; [done|].
  assert (Hnum : Forall (λ y, is_nan y = false) (default pinf <$> l)).
  { apply Forall_fmap. eapply Forall_impl; [exact Hl|].
    intros [d|] Hd; simpl; [by apply Hd|done]. }
  destruct (np_min_spec _ _ Hnum Hx) as [Hin Hlow].
  rewrite Forall_forall in Hlow.
  assert (Hlower : ∀ d, Some d ∈ l → fleb x d = true).
  { intros d Hd. apply Hlow. apply list_elem_of_fmap. by exists (Some d). }
  split; [|done].
  apply list_elem_of_fmap in Hin as ([d|] & -> & He); simpl.
  - exists d. split; [done|]. apply feqb_refl.
    rewrite Forall_forall in Hl. by apply (Hl _ He).
  - destruct (not_all_masked l Hall) as [d0 Hd0]. exists d0. split; [done|].
    rewrite (fleb_pinf_l d0); [done|]. by apply Hlower.
Qed.

Lemma ma_min_ok (l : list (option F)) : l ≠ [] → ∃ m, ma_min l = Ok m.
Proof.
  intros Hl. unfold ma_min. destruct l as [|e l]; [done|]. simpl. by eexists.
Qed.

(** ** [find_ring_knot]: what a returned pair is *)

(** A returned pair indexes both arrays from the front.  Either its cell
    has finite squares, with a distance that is at most that of every such
    cell and below that of every such cell before it; or no cell has finite
    squares, and the pair is the first index pair of the arrays. *)
Lemma find_ring_knot_on_inv (o : OedgePlots) (r z : F) (ring knot : Z) :
  find_ring_knot_on o r z = Ok (ring, knot) →
  ∃ (i j : nat) (rc zc : F),
    ring = Z.of_nat i ∧ knot = Z.of_nat j ∧
    get2 (rs o) (Z.of_nat i) (Z.of_nat j) = Ok rc ∧
    get2 (zs o) (Z.of_nat i) (Z.of_nat j) = Ok zc ∧
    ((finite_squares r z rc zc = true ∧
      ∀ (i' j' : nat) (rc' zc' : F),
        get2 (rs o) (Z.of_nat i') (Z.of_nat j') = Ok rc' →
        get2 (zs o) (Z.of_nat i') (Z.of_nat j') = Ok zc' →
        finite_squares r z rc' zc' = true →
        fleb (cell_dist r z rc zc) (cell_dist r z rc' zc') = true ∧
        ((i' < i ∨ (i' = i ∧ j' < j))%nat →
         fltb (cell_dist r z rc zc) (cell_dist r z rc' zc') = true)) ∨
     (∀ (i' j' : nat) (rc' zc' : F),
        get2 (rs o) (Z.of_nat i') (Z.of_nat j') = Ok rc' →
        get2 (zs o) (Z.of_nat i') (Z.of_nat j') = Ok zc' →
        finite_squares r z rc' zc' = false ∧
        ¬ (i' < i ∨ (i' = i ∧ j' < j))%nat)).
Proof.
  unfold find_ring_knot_on. intros H.
  apply bind_Ok in H as (dist & Hdist & H).
  apply bind_Ok in H as (dmin & Hmin & H).
  pose proof (λ i j e, dist_array_lookup o r z dist i j e Hdist) as Hlook.
  destruct (where2 (λ d, ma_eq d dmin) 0 (rows dist)) as [|[i j] rest] eqn:Hwhere;
    [done|].
  rewrite !fmap_cons, !getitem_head in H. cbn [mbind res_bind fst snd] in H.
  injection H as <- <-.
  apply where2_head in Hwhere
    as (k & row & e & -> & Hk & He & Heq & Hrow_before & Hbefore).
  cbn [Nat.add] in *.
  destruct (proj1 (Hlook k j e)) as (rc & zc & Hrc & Hzc & Hent); [eauto|].
  exists k, j, rc, zc. split_and!; [done..|].
  (* every entry that is not masked is a number *)
  assert (Hall : Forall (λ e, ∀ d, e = Some d → is_nan d = false)
                        (concat (rows dist))).
  { apply Forall_forall. intros x (i' & j' & row' & Hi & Hj)%elem_of_concat_lookup.
    destruct (proj1 (Hlook i' j' x)) as (rc' & zc' & _ & _ & ->); [eauto|].
    intros d. apply ma_dist_number. }
  (* an index pair before the returned one does not compare equal *)
  assert (Hno : ∀ (i' j' : nat) (rc' zc' : F),
            get2 (rs o) (Z.of_nat i') (Z.of_nat j') = Ok rc' →
            get2 (zs o) (Z.of_nat i') (Z.of_nat j') = Ok zc' →
            (i' < k ∨ (i' = k ∧ j' < j))%nat →
            ma_eq (ma_dist r z rc' zc') dmin = false).
  { intros i' j' rc' zc' Hrc' Hzc' Hlex.
    destruct (proj2 (Hlook i' j' (ma_dist r z rc' zc'))) as (row' & Hi & Hj);
      [by exists rc', zc'|].
    destruct Hlex as [Hlt|[-> Hlt]].
    - apply (Hbefore i' row'); [lia|done|by eapply list_elem_of_lookup_2].
    - rewrite Hk in Hi. injection Hi as <-. by apply (Hrow_before j'). }
  assert (Hin : ∀ (i' j' : nat) (rc' zc' : F),
            get2 (rs o) (Z.of_nat i') (Z.of_nat j') = Ok rc' →
            get2 (zs o) (Z.of_nat i') (Z.of_nat j') = Ok zc' →
            ma_dist r z rc' zc' ∈ concat (rows dist)).
  { intros i' j' rc' zc' Hrc' Hzc'.
    destruct (proj2 (Hlook i' j' (ma_dist r z rc' zc'))) as (row' & Hi & Hj);
      [by exists rc', zc'|].
    apply elem_of_concat_lookup. eauto. }
  destruct (ma_min_spec _ _ Hall Hmin) as [[-> Hnone]|(m & -> & _ & Hlower)].
  - right. intros i' j' rc' zc' Hrc' Hzc'.
    rewrite Forall_forall in Hnone.
    pose proof (Hnone _ (Hin i' j' rc' zc' Hrc' Hzc')) as Hm.
    split.
    + rewrite ma_dist_spec in Hm. by destruct (finite_squares r z rc' zc').
    + intros Hlex. specialize (Hno i' j' rc' zc' Hrc' Hzc' Hlex).
      by rewrite Hm in Hno.
  - left. rewrite Hent, ma_dist_spec in Heq.
    destruct (finite_squares r z rc zc) eqn:Hfin; [|done]. cbn [ma_eq] in Heq.
    split; [done|]. intros i' j' rc' zc' Hrc' Hzc' Hfin'.
    pose proof (Hin i' j' rc' zc' Hrc' Hzc') as Hmem.
    pose proof (Hno i' j' rc' zc' Hrc' Hzc') as Hne.
    rewrite ma_dist_spec, Hfin' in Hmem, Hne. cbn [ma_eq] in Hne.
    pose proof (Hlower _ Hmem) as Hle.
    apply feqb_fleb in Heq. split.
    + by eapply fleb_trans.
    + intros Hlex. eapply fleb_fltb_trans; [exact Heq|].
      apply fleb_neq_fltb; [done|]. rewrite feqb_sym. by apply Hne.
Qed.

Lemma where2_first {A} (p : A → bool) (i : nat) (x : A) (row : list A)
    (a : list (list A)) :
  p x = true → ∃ rest, where2 p i ((x :: row) :: a) = (i, 0%nat) :: rest.
Proof. intros Hx. simpl. rewrite Hx. simpl. by eexists. Qed.

(** On a grid with a cell the call returns, whatever [r] and [z] are; when
    no cell has finite squares, it returns the first index pair. *)
Lemma find_ring_knot_on_total (o : OedgePlots) (r z : F) :
  rect (rs o) → rect (zs o) → same_shape (rs o) (zs o) = true →
  (0 < length (rows (rs o)))%nat → (0 < ncols (rs o))%nat →
  ∃ i j : nat,
    find_ring_knot_on o r z = Ok (Z.of_nat i, Z.of_nat j) ∧
    ((∀ (i' j' : nat) (rc' zc' : F),
        get2 (rs o) (Z.of_nat i') (Z.of_nat j') = Ok rc' →
        get2 (zs o) (Z.of_nat i') (Z.of_nat j') = Ok zc' →
        finite_squares r z rc' zc' = false) →
     (i, j) = (0, 0)%nat).
Proof.
  intros Hrs Hzs Hshape Hrows Hcols.
  destruct (dist_array r z (rs o) (zs o)) as [dist|] eqn:Hdist;
    [|unfold dist_array in Hdist; by rewrite Hshape in Hdist].
  pose proof (λ i j e, dist_array_lookup o r z dist i j e Hdist) as Hlook.
  (* the array has a first entry *)
  assert (Hcell : ∃ rc zc row0 dist',
            get2 (rs o) (Z.of_nat 0) (Z.of_nat 0) = Ok rc ∧
            get2 (zs o) (Z.of_nat 0) (Z.of_nat 0) = Ok zc ∧
            rows dist = (ma_dist r z rc zc :: row0) :: dist').
  { unfold dist_array in Hdist. rewrite Hshape in Hdist.
    injection Hdist as <-. cbn [rows].
    apply bool_decide_eq_true in Hshape as [Hlen Hnc].
    destruct (rows (rs o)) as [|rrow rrows] eqn:Hr; [simpl in Hrows; lia|].
    destruct (rows (zs o)) as [|zrow zrows] eqn:Hz; [done|].
    unfold rect in Hrs, Hzs. rewrite Hr in Hrs. rewrite Hz in Hzs.
    apply Forall_cons in Hrs as [Hrl _]. apply Forall_cons in Hzs as [Hzl _].
    destruct rrow as [|rc rrow]; [simpl in Hrl; lia|].
    destruct zrow as [|zc zrow]; [simpl in Hzl; lia|].
    exists rc, zc. eexists _, _. split_and!; [| |done].
    - apply (get2_nat (rs o) 0 0 rc). rewrite Hr. by eexists.
    - apply (get2_nat (zs o) 0 0 zc). rewrite Hz. by eexists. }
  destruct Hcell as (rc0 & zc0 & row0 & dist' & Hrc0 & Hzc0 & Hrows0).
  assert (Hall : Forall (λ e, ∀ d, e = Some d → is_nan d = false)
                        (concat (rows dist))).
  { apply Forall_forall. intros x (i' & j' & row' & Hi & Hj)%elem_of_concat_lookup.
    destruct (proj1 (Hlook i' j' x)) as (rc' & zc' & _ & _ & ->); [eauto|].
    intros d. apply ma_dist_number. }
  destruct (ma_min_ok (concat (rows dist))) as [dmin Hmin];
    [by rewrite Hrows0|].
  assert (Hfound : ∃ i j rest,
            where2 (λ d, ma_eq d dmin) 0 (rows dist) = (i, j) :: rest ∧
            (dmin = None → (i, j) = (0, 0)%nat)).
  { destruct (ma_min_spec _ _ Hall Hmin) as [[-> Hnone]|(m & -> & (d & Hd & Heq) & _)].
    - rewrite Hrows0 in Hnone |- *. simpl in Hnone.
      apply Forall_cons in Hnone as [Hfirst _].
      destruct (where2_first (λ d, ma_eq d None) 0 (ma_dist r z rc0 zc0) row0 dist')
        as [rest Hrest]; [by rewrite Hfirst|].
      by exists 0%nat, 0%nat, rest.
    - destruct (where2 (λ e, ma_eq e (Some m)) 0 (rows dist)) as [|[i j] rest]
        eqn:Hwhere.
      + apply where2_nil in Hwhere.
        apply elem_of_concat in Hd as (row & Hx & Hrow).
        rewrite Forall_forall in Hwhere. specialize (Hwhere row Hrow).
        rewrite Forall_forall in Hwhere. specialize (Hwhere _ Hx).
        simpl in Hwhere. congruence.
      + by exists i, j, rest. }
  destruct Hfound as (i & j & rest & Hwhere & Hzero).
  exists i, j. split.
  - unfold find_ring_knot_on. rewrite Hdist. cbn [mbind res_bind].
    rewrite Hmin. cbn [mbind res_bind].
    rewrite Hwhere, !fmap_cons, !getitem_head. done.
  - intros Hnone. apply Hzero.
    destruct (ma_min_spec _ _ Hall Hmin) as [[-> _]|(m & -> & (d & Hd & _) & _)];
      [done|].
    apply elem_of_concat_lookup in Hd as (i' & j' & row' & Hi & Hj).
    destruct (proj1 (Hlook i' j' (Some d))) as (rc' & zc' & Hrc' & Hzc' & Hent);
      [eauto|].
    rewrite ma_dist_spec, (Hnone i' j' rc' zc' Hrc' Hzc') in Hent. done.
Qed.






(** ** C10: the separatrix *)

Lemma mapR_total {X Y} (f : X → res Y) (xs : list X) :
  (∀ x, x ∈ xs → ∃ y, f x = Ok y) → ∃ ys, mapR f xs = Ok ys.
Proof.
  induction xs as [|x xs IH]; intros H; simpl; [by eexists|].
  destruct (H x) as [y Hy]; [left|]. rewrite Hy.
  destruct IH as [ys Hys]; [intros x' Hx'; apply H; by right|].
  rewrite Hys. by eexists.
Qed.

(** A loop that appends one item per round collects the items. *)
Lemma foldR_append {X Y} (g : X → res Y) (xs : list X) (acc : list Y) :
  foldR (λ acc x, y ← g x; Ok (acc ++ [y])) xs acc =
  ys ← mapR g xs; Ok (acc ++ ys).
Proof.
  revert acc. induction xs as [|x xs IH]; intros acc; simpl.
  - by rewrite app_nil_r.
  - destruct (g x) as [y|]; simpl; [|done]. rewrite IH.
    destruct (mapR g xs); simpl; [|done]. by rewrite <- app_assoc.
Qed.

Lemma sep_lines_segments (rsep zsep : list F) :
  sep_lines rsep zsep =
  mapR (sep_segment rsep zsep) (range (Z.of_nat (length rsep) - 2)).
Proof.
  unfold sep_lines.
  rewrite (foldR_ext _ (λ acc i, y ← sep_segment rsep zsep i; Ok (acc ++ [y]))).
  - rewrite foldR_append. by destruct (mapR _ _).
  - intros acc i. unfold sep_line, sep_segment.
    destruct (getitem rsep i); simpl; [|done].
    destruct (getitem zsep i); simpl; [|done].
    destruct (getitem rsep (i + 1)); simpl; [|done].
    by destruct (getitem zsep (i + 1)).
Qed.

Lemma sep_segment_lookup (rsep zsep : list F) (i : nat) (s : segment) :
  sep_segment rsep zsep (Z.of_nat i) = Ok s ↔
  ∃ r0 z0 r1 z1,
    rsep !! i = Some r0 ∧ zsep !! i = Some z0 ∧
    rsep !! S i = Some r1 ∧ zsep !! S i = Some z1 ∧ s = ((r0, z0), (r1, z1)).
Proof.
  unfold sep_segment. replace (Z.of_nat i + 1) with (Z.of_nat (S i)) by lia. split.
  - intros H.
    apply bind_Ok in H as (r0 & Hr0 & H). apply bind_Ok in H as (z0 & Hz0 & H).
    apply bind_Ok in H as (r1 & Hr1 & H). apply bind_Ok in H as (z1 & Hz1 & [= <-]).
    apply getitem_nonneg in Hr0, Hz0, Hr1, Hz1; [|lia..].
    rewrite Nat2Z.id in *. by exists r0, z0, r1, z1.
  - intros (r0 & z0 & r1 & z1 & Hr0 & Hz0 & Hr1 & Hz1 & ->).
    by rewrite (getitem_nat _ _ _ Hr0), (getitem_nat _ _ _ Hz0),
      (getitem_nat _ _ _ Hr1), (getitem_nat _ _ _ Hz1).
Qed.

(** The loop never fails on two lists of the same length, and makes the
    line from vertex [i] to vertex [i + 1] for every [i] below [nsep - 2]. *)
Lemma sep_lines_spec (rsep zsep : list F) :
  length zsep = length rsep →
  ∃ lines,
    sep_lines rsep zsep = Ok lines ∧
    length lines = (length rsep - 2)%nat ∧
    ∀ i : nat, (i < length rsep - 2)%nat →
      ∃ r0 z0 r1 z1,
        rsep !! i = Some r0 ∧ zsep !! i = Some z0 ∧
        rsep !! S i = Some r1 ∧ zsep !! S i = Some z1 ∧
        lines !! i = Some ((r0, z0), (r1, z1)).
Proof.
  intros Hlen. rewrite sep_lines_segments.
  set (k := Z.of_nat (length rsep) - 2).
  destruct (mapR_total (sep_segment rsep zsep) (range k)) as [lines Hlines].
  { intros i Hi%elem_of_seqZ.
    destruct (lookup_lt_is_Some_2 rsep (Z.to_nat i)) as [r0 Hr0]; [lia|].
    destruct (lookup_lt_is_Some_2 zsep (Z.to_nat i)) as [z0 Hz0]; [lia|].
    destruct (lookup_lt_is_Some_2 rsep (S (Z.to_nat i))) as [r1 Hr1]; [lia|].
    destruct (lookup_lt_is_Some_2 zsep (S (Z.to_nat i))) as [z1 Hz1]; [lia|].
    exists ((r0, z0), (r1, z1)).
    replace i with (Z.of_nat (Z.to_nat i)) at 1 by lia.
    apply sep_segment_lookup. by exists r0, z0, r1, z1. }
  exists lines. split; [done|].
  pose proof (mapR_length _ _ _ Hlines) as Hl.
  unfold range in Hl. rewrite length_seqZ in Hl.
  split; [lia|]. intros i Hi.
  destruct (mapR_lookup _ _ _ i (Z.of_nat i) Hlines) as (s & Hs & Hk).
  { unfold range. rewrite lookup_seqZ_lt by lia. f_equal; lia. }
  apply sep_segment_lookup in Hs as (r0 & z0 & r1 & z1 & ? & ? & ? & ? & ->).
  by exists r0, z0, r1, z1.
Qed.

(** The last vertex is in no line: with another point in its place the
    loop makes the same lines. *)
Lemma sep_lines_ignore_last (rsep zsep : list F) (r' z' : F) (lines : list segment) :
  length zsep = length rsep →
  sep_lines rsep zsep = Ok lines →
  sep_lines (take (length rsep - 1) rsep ++ [r'])
            (take (length rsep - 1) zsep ++ [z']) = Ok lines.
Proof.
  intros Hlen H.
  destruct (sep_lines_spec rsep zsep Hlen) as (lines0 & H0 & Hl & Hk).
  rewrite H0 in H. injection H as <-.
  set (rsep' := take (length rsep - 1) rsep ++ [r']).
  set (zsep' := take (length rsep - 1) zsep ++ [z']).
  assert (Hr' : length rsep' = S (length rsep - 1)).
  { unfold rsep'. rewrite length_app, length_take. simpl. lia. }
  assert (Hz' : length zsep' = length rsep').
  { unfold zsep'. rewrite Hr', length_app, length_take. simpl. lia. }
  destruct (sep_lines_spec rsep' zsep' Hz') as (lines' & H' & Hl' & Hk').
  rewrite H'. f_equal. apply list_eq. intros i.
  destruct (decide (i < length rsep - 2)%nat) as [Hi|Hi].
  - destruct (Hk i Hi) as (r0 & z0 & r1 & z1 & Hr0 & Hz0 & Hr1 & Hz1 & Hline).
    destruct (Hk' i ltac:(lia)) as (a0 & b0 & a1 & b1 & Ha0 & Hb0 & Ha1 & Hb1 & Hline').
    unfold rsep', zsep' in Ha0, Hb0, Ha1, Hb1.
    rewrite lookup_app_l, lookup_take_lt in Ha0, Hb0, Ha1, Hb1
      by (rewrite ?length_take; lia).
    etrans; [exact Hline'|]. symmetry. etrans; [exact Hline|]. congruence.
  - rewrite !lookup_ge_None_2; [done|lia..].
Qed.

Lemma slice_to_length {A} (l : list A) (n : Z) :
  0 ≤ n ≤ Z.of_nat (length l) → Z.of_nat (length (slice_to l n)) = n.
Proof.
  intros Hn. unfold slice_to.
  rewrite bool_decide_eq_false_2 by lia. rewrite length_take. lia.
Qed.

(** The coordinates [get_sep] reads: one per knot of the slice of [korpg]. *)
Lemma sep_axis_length (o : OedgePlots) (vertp : array2 F) (l : list F) :
  sep_axis o vertp = Ok l →
  ∃ n ring,
    getitem (nks o) (irsep o - 1) = Ok n ∧
    row2 (korpg o) (irsep o - 1) = Ok ring ∧
    length l = length (slice_to ring n).
Proof.
  unfold sep_axis, take_rows, column. intros H.
  apply bind_Ok in H as (n & Hn & H).
  apply bind_Ok in H as (ring & Hring & H).
  apply bind_Ok in H as (sel & Hsel & H).
  apply bind_Ok in Hsel as (sel_rows & Hrows & [= <-]).
  apply bind_Ok in H as (k & _ & H). simpl in H.
  apply mapR_length in H, Hrows. exists n, ring. split_and!; [done..|lia].
Qed.

(** C10.  Let [rsep] and [zsep] be the coordinates [get_sep] reads (vertex 0
    of the polygons [korpg] lists for the knots of ring [irsep - 1]) and
    [nsep] their number.  [get_sep] returns [nsep - 2] lines (none when
    [nsep] is below 2), line [i] going from [(rsep[i], zsep[i])] to
    [(rsep[i+1], zsep[i+1])]; no line returns to the first vertex, and the
    last vertex is in no line: another point in its place gives the same
    lines.  [nsep] is [nks[irsep - 1]] whenever that number does not exceed
    the width of [korpg]. *)
Theorem get_sep_open_polyline (w : world) (rsep zsep : list F) :
  sep_axis (self w) (rvertp (self w)) = Ok rsep →
  sep_axis (self w) (zvertp (self w)) = Ok zsep →
  ∃ lines,
    get_sep w = (Ok lines, w) ∧
    length zsep = length rsep ∧
    length lines = (length rsep - 2)%nat ∧
    (∀ i : nat, (i < length rsep - 2)%nat →
       ∃ r0 z0 r1 z1,
         rsep !! i = Some r0 ∧ zsep !! i = Some z0 ∧
         rsep !! S i = Some r1 ∧ zsep !! S i = Some z1 ∧
         lines !! i = Some ((r0, z0), (r1, z1))) ∧
    (∀ r' z' : F,
       sep_lines (take (length rsep - 1) rsep ++ [r'])
                 (take (length rsep - 1) zsep ++ [z']) = Ok lines) ∧
    (∀ n : Z,
       rect (korpg (self w)) →
       getitem (nks (self w)) (irsep (self w) - 1) = Ok n →
       0 ≤ n ≤ Z.of_nat (ncols (korpg (self w))) →
       Z.of_nat (length rsep) = n).
Proof.
  intros Hr Hz.
  destruct (sep_axis_length _ _ _ Hr) as (n & ring & Hn & Hring & Hlr).
  destruct (sep_axis_length _ _ _ Hz) as (n' & ring' & Hn' & Hring' & Hlz).
  rewrite Hn in Hn'. injection Hn' as <-.
  rewrite Hring in Hring'. injection Hring' as <-.
  assert (Hlen : length zsep = length rsep) by lia.
  destruct (sep_lines_spec rsep zsep Hlen) as (lines & Hlines & Hl & Hk).
  exists lines. split_and!; [|done..| |].
  - unfold get_sep, get_sep_on, mbind at 1, M_bind, gets, lift.
    rewrite Hr. cbn [mbind res_bind]. rewrite Hz. cbn [mbind res_bind].
    by rewrite Hlines.
  - intros r' z'. by apply sep_lines_ignore_last.
  - intros m Hrect Hm Hrange. rewrite Hn in Hm. injection Hm as <-.
    rewrite Hlr. apply slice_to_length.
    by rewrite (row2_length _ _ _ Hrect Hring).
Qed.

(** On the small grid the separatrix ring has three knots: one line, from
    (3, 0) to (4, 0); the vertex (5, 0) is in none. *)
Lemma get_sep_open_polyline_witness :
  let rsep := Demo.z <$> [3; 4; 5] in
  let zsep := Demo.z <$> [0; 0; 0] in
  sep_axis Demo.obj (rvertp Demo.obj) = Ok rsep ∧
  sep_axis Demo.obj (zvertp Demo.obj) = Ok zsep ∧
  get_sep Demo.w0 = (Ok [((Demo.z 3, Demo.z 0), (Demo.z 4, Demo.z 0))], Demo.w0) ∧
  ∃ lines,
    get_sep Demo.w0 = (Ok lines, Demo.w0) ∧
    length zsep = length rsep ∧
    length lines = (length rsep - 2)%nat ∧
    (∀ i : nat, (i < length rsep - 2)%nat →
       ∃ r0 z0 r1 z1,
         rsep !! i = Some r0 ∧ zsep !! i = Some z0 ∧
         rsep !! S i = Some r1 ∧ zsep !! S i = Some z1 ∧
         lines !! i = Some ((r0, z0), (r1, z1))) ∧
    (∀ r' z' : F,
       sep_lines (take (length rsep - 1) rsep ++ [r'])
                 (take (length rsep - 1) zsep ++ [z']) = Ok lines) ∧
    (∀ n : Z,
       rect (korpg Demo.obj) →
       getitem (nks Demo.obj) (irsep Demo.obj - 1) = Ok n →
       0 ≤ n ≤ Z.of_nat (ncols (korpg Demo.obj)) →
       Z.of_nat (length rsep) = n).
Proof.
  intros rsep zsep.
  assert (Hr : sep_axis (self Demo.w0) (rvertp (self Demo.w0)) = Ok rsep)
    by (vm_compute; reflexivity).
  assert (Hz : sep_axis (self Demo.w0) (zvertp (self Demo.w0)) = Ok zsep)
    by (vm_compute; reflexivity).
  split_and!; [exact Hr|exact Hz|vm_compute; reflexivity|].
  exact (get_sep_open_polyline Demo.w0 rsep zsep Hr Hz).
Defined.

(** * Further properties of the extraction methods *)

(** ** What the loops can raise *)

Lemma norm_index_raises (n : nat) (i : Z) (e : exn) :
  norm_index n i = Raise e → e = IndexError.
Proof. unfold norm_index. repeat case_bool_decide; by intros [=]. Qed.

Lemma getitem_raises {A} (l : list A) (i : Z) (e : exn) :
  getitem l i = Raise e → e = IndexError.
Proof.
  unfold getitem. destruct (norm_index (length l) i) as [k|e'] eqn:Hk; simpl.
  - destruct (l !! k); by intros [=].
  - intros [= <-]. by eapply norm_index_raises.
Qed.

Lemma setitem_raises {A} (l : list A) (i : Z) (x : A) (e : exn) :
  setitem l i x = Raise e → e = IndexError.
Proof.
  unfold setitem. destruct (norm_index (length l) i) as [k|e'] eqn:Hk; simpl.
  - by intros [=].
  - intros [= <-]. by eapply norm_index_raises.
Qed.

Lemma get2_raises {A} (a : array2 A) (i j : Z) (e : exn) :
  get2 a i j = Raise e → e = IndexError.
Proof.
  unfold get2, row2. destruct (getitem (rows a) i) as [row|e'] eqn:Hrow; simpl.
  - apply getitem_raises.
  - intros [= <-]. by eapply getitem_raises.
Qed.

Lemma foldR_raises {X Acc} (f : Acc → X → res Acc) (E : exn) (xs : list X) :
  (∀ a x e, f a x = Raise e → e = E) →
  ∀ a e, foldR f xs a = Raise e → e = E.
Proof.
  intros Hf. induction xs as [|x xs IH]; intros a e H; simpl in H; [done|].
  destruct (f a x) as [a'|e'] eqn:Hstep; simpl in H.
  - by eapply IH.
  - injection H as <-. by eapply Hf.
Qed.

(** A flattening loop whose values can only raise [IndexError] can only
    raise [IndexError]. *)
Lemma flat_step_raises (area : array2 F) (value : Z * Z → res F)
    (acc : list F * Z) (c : Z * Z) (e : exn) :
  (∀ c e, value c = Raise e → e = IndexError) →
  flat_step area value acc c = Raise e → e = IndexError.
Proof.
  intros Hv. unfold flat_step.
  destruct (get2 area c.1 c.2) as [a|e'] eqn:Ha; simpl;
    [|intros [= <-]; by eapply get2_raises].
  destruct (fneb a f0); [|done].
  destruct (value c) as [v|e'] eqn:Hval; simpl; [|intros [= <-]; by eapply Hv].
  destruct (setitem acc.1 acc.2 v) as [d|e'] eqn:Hset; simpl; [done|].
  intros [= <-]. by eapply setitem_raises.
Qed.

Lemma read_loop_raises (o : OedgePlots) (raw_data : ndarray) (charge : charge_arg)
    (scaling : scaling_arg) (no_core : bool) (acc : list F * Z) (e : exn) :
  (∀ c e, cell_value o raw_data charge scaling no_core c = Raise e → e = IndexError) →
  foldR (read_ring o raw_data charge scaling no_core) (range (nrs o)) acc = Raise e →
  e = IndexError.
Proof.
  intros Hv. apply foldR_raises. clear acc e. intros acc ir e. unfold read_ring.
  destruct (getitem (nks o) ir) as [n|e'] eqn:Hn; simpl;
    [|intros [= <-]; by eapply getitem_raises].
  apply foldR_raises. intros a ik e'. rewrite read_knot_flat.
  by apply flat_step_raises.
Qed.

(** ** [read_data_2d]: the option ['Ring'] *)

(** With [scaling='Ring'] the mask is never looked at. *)
Lemma read_data_2d_on_ring_no_core (o : OedgePlots) (dataname : string)
    (charge : charge_arg) (fix_fill no_core : bool) :
  read_data_2d_on o dataname charge Ring fix_fill no_core =
  read_data_2d_on o dataname charge Ring fix_fill false.
Proof. by destruct no_core. Qed.

(** X1.  [read_data_2d] with [scaling='Ring'] puts the ring index of the cell in
    every slot, whatever the variable holds, and gives the same result with
    and without [no_core]. *)
Theorem read_data_2d_ring_numbers (w w' : world) (dataname : string)
    (charge : charge_arg) (no_core : bool) (data : list F) :
  read_data_2d dataname charge Ring false no_core w = (Ok data, w') →
  read_data_2d dataname charge Ring false (negb no_core) w = (Ok data, w) ∧
  ∀ (count : nat) (ir ik : Z),
    cells_of (self w) !! count = Some (ir, ik) →
    data !! count = Some (of_Z ir).
Proof.
  unfold read_data_2d, mbind, M_bind, gets, lift. intros H. injection H as H _.
  split.
  - rewrite read_data_2d_on_ring_no_core.
    rewrite read_data_2d_on_ring_no_core in H. by rewrite H.
  - intros count ir ik Hc.
    apply read_data_2d_on_spec in H as (raw & vals & _ & Hvals & _ & ->).
    destruct (mapR_lookup _ _ _ _ _ Hvals Hc) as (v & Hv & Hk).
    injection Hv as <-. by apply lookup_app_l_Some.
Qed.

Lemma read_data_2d_ring_numbers_witness :
  let data := Demo.z <$> [0; 0; 1; 1; 2; 2] in
  read_data_2d "KTEBS" ChargeNone Ring false true Demo.w0 = (Ok data, Demo.w0) ∧
  read_data_2d "KTEBS" ChargeNone Ring false false Demo.w0 = (Ok data, Demo.w0) ∧
  ∀ (count : nat) (ir ik : Z),
    cells_of Demo.obj !! count = Some (ir, ik) →
    data !! count = Some (of_Z ir).
Proof.
  intros data.
  assert (H : read_data_2d "KTEBS" ChargeNone Ring false true Demo.w0
              = (Ok data, Demo.w0)) by (vm_compute; reflexivity).
  split; [exact H|].
  exact (read_data_2d_ring_numbers Demo.w0 Demo.w0 "KTEBS" ChargeNone true data H).
Defined.

(** ** [read_data_2d]: a charge on a variable without charge states *)

Lemma nd_index_raises (a : ndarray) (i : Z) (e : exn) :
  nd_index a i = Raise e → e = IndexError.
Proof.
  unfold nd_index. destruct (shape a) as [|n rest]; [by intros [= <-]|].
  destruct (norm_index n i) eqn:Hk; simpl; [done|].
  intros [= <-]. by eapply norm_index_raises.
Qed.

(** Three indices into a matrix, or two into a vector: [IndexError]. *)
Lemma nd_get2_vector (a : ndarray) (m : nat) (i j : Z) :
  shape a = [m] → nd_get2 a i j = Raise IndexError.
Proof.
  intros Ha. unfold nd_get2.
  destruct (nd_index a i) as [r|e] eqn:Hr; simpl.
  - unfold nd_index in Hr. rewrite Ha in Hr.
    destruct (norm_index m i); simpl in Hr; [|done]. injection Hr as <-.
    done.
  - f_equal. by eapply nd_index_raises.
Qed.

Lemma nd_get3_matrix (a : ndarray) (n m : nat) (c i j : Z) :
  shape a = [n; m] → nd_get3 a c i j = Raise IndexError.
Proof.
  intros Ha. unfold nd_get3.
  destruct (nd_index a c) as [p|e] eqn:Hp; simpl;
    [|f_equal; by eapply nd_index_raises].
  unfold nd_index in Hp. rewrite Ha in Hp.
  destruct (norm_index n c); simpl in Hp; [|done]. injection Hp as <-.
  change (nd_get2 (NdArray [m] (take (size_of [m]) (drop (a0 * size_of [m]) (buf a)))) i j
          = Raise IndexError).
  by eapply nd_get2_vector.
Qed.

(** The value of a cell cannot be read through a charge when the variable
    is a matrix. *)
Lemma cell_value_charge_on_matrix (o : OedgePlots) (raw_data sum : ndarray)
    (n m : nat) (charge : charge_arg) (s : F) (no_core : bool) (c : Z * Z) :
  shape raw_data = [n; m] → charge ≠ ChargeNone →
  sum_charges charge raw_data = Ok sum →
  cell_value o sum charge (Scale s) no_core c = Raise IndexError.
Proof.
  intros Hshape Hcharge Hsum. unfold cell_value, raw_value.
  destruct charge as [| |q]; [done| |]; simpl in Hsum.
  - unfold np_sum_axis0 in Hsum. rewrite Hshape in Hsum. injection Hsum as <-.
    by rewrite (nd_get2_vector _ m).
  - injection Hsum as <-. by rewrite (nd_get3_matrix _ n m).
Qed.

(** X2.  On a variable with the two dimensions of the grid, [charge='all'] and a
    charge state both end in an [IndexError] as soon as the grid has a cell
    with area: the loop indexes a number. *)
Theorem read_data_2d_charge_on_matrix (w : world) (dataname : string)
    (charge : charge_arg) (s : F) (fix_fill no_core : bool)
    (raw_data : ndarray) (n m : nat) :
  load_raw_data (self w) dataname = Ok raw_data →
  shape raw_data = [n; m] →
  charge ≠ ChargeNone →
  0 ≤ num_cells (self w) →
  cells_of (self w) ≠ [] →
  read_data_2d dataname charge (Scale s) fix_fill no_core w = (Raise IndexError, w).
Proof.
  intros Hraw Hshape Hcharge Hnum Hcells.
  unfold read_data_2d, mbind, M_bind, gets, lift. f_equal.
  unfold read_data_2d_on. rewrite Hraw. cbn [mbind res_bind].
  unfold np_zeros. rewrite bool_decide_eq_false_2 by lia. cbn [mbind res_bind].
  destruct (sum_charges charge raw_data) as [sum|e] eqn:Hsum.
  2:{ destruct charge; try done. simpl in Hsum. unfold np_sum_axis0 in Hsum.
      by rewrite Hshape in Hsum. }
  cbn [mbind res_bind].
  pose proof (λ c, cell_value_charge_on_matrix (self w) raw_data sum n m charge s
                     no_core c Hshape Hcharge Hsum) as Hval.
  destruct (foldR _ _ _) as [[data count]|e] eqn:Hloop; cbn [mbind res_bind].
  - exfalso. apply read_loop_spec in Hloop as (vals & Hvals & _).
    destruct (cells_of (self w)) as [|c cells]; [done|].
    cbn [mapR] in Hvals. by rewrite Hval in Hvals.
  - f_equal. eapply read_loop_raises; [|exact Hloop].
    intros c e'. rewrite Hval. by intros [= <-].
Qed.

Lemma read_data_2d_charge_on_matrix_witness :
  load_raw_data Demo.obj "KTEBS" = Ok Demo.field ∧
  read_data_2d "KTEBS" ChargeAll (Scale (Demo.z 1)) false false Demo.w0
    = (Raise IndexError, Demo.w0) ∧
  read_data_2d "KTEBS" (ChargeState 0) (Scale (Demo.z 1)) false false Demo.w0
    = (Raise IndexError, Demo.w0).
Proof.
  assert (Hraw : load_raw_data (self Demo.w0) "KTEBS" = Ok Demo.field)
    by (vm_compute; reflexivity).
  assert (Hshape : shape Demo.field = [3; 3]%nat) by reflexivity.
  assert (Hnum : 0 ≤ num_cells (self Demo.w0)) by (vm_compute; discriminate).
  assert (Hcells : cells_of (self Demo.w0) ≠ []) by (vm_compute; discriminate).
  split_and!; [exact Hraw| |].
  - apply (read_data_2d_charge_on_matrix Demo.w0 "KTEBS" ChargeAll (Demo.z 1)
             false false Demo.field 3 3 Hraw Hshape); [discriminate|done..].
  - apply (read_data_2d_charge_on_matrix Demo.w0 "KTEBS" (ChargeState 0) (Demo.z 1)
             false false Demo.field 3 3 Hraw Hshape); [discriminate|done..].
Defined.

(** ** When the loops cannot fail *)

Lemma norm_index_ok (n : nat) (i : Z) :
  - Z.of_nat n ≤ i < Z.of_nat n → ∃ k, norm_index n i = Ok k ∧ (k < n)%nat.
Proof.
  intros Hi. unfold norm_index. repeat case_bool_decide; try lia;
    eexists; (split; [done|lia]).
Qed.

Lemma getitem_ok {A} (l : list A) (i : Z) :
  - Z.of_nat (length l) ≤ i < Z.of_nat (length l) → ∃ x, getitem l i = Ok x.
Proof.
  intros Hi. unfold getitem.
  destruct (norm_index_ok _ _ Hi) as (k & -> & Hk). simpl.
  destruct (lookup_lt_is_Some_2 l k Hk) as [x ->]. by exists x.
Qed.

Lemma elem_of_range (n i : Z) : i ∈ range n ↔ 0 ≤ i < n.
Proof. unfold range. rewrite elem_of_seqZ. lia. Qed.

(** The cells of the grid are the pairs of a ring and one of its knots. *)
Lemma elem_of_grid_cells (nrs : Z) (nks : list Z) (c : Z * Z) :
  c ∈ grid_cells nrs nks ↔
  0 ≤ c.1 < nrs ∧ ∃ n, getitem nks c.1 = Ok n ∧ 0 ≤ c.2 < n.
Proof.
  unfold grid_cells. rewrite list_elem_of_bind. split.
  - intros (ir & Hc & Hir%elem_of_range). unfold ring_cells in Hc.
    destruct (getitem nks ir) as [n|] eqn:Hn; [|by apply elem_of_nil in Hc].
    apply list_elem_of_fmap in Hc as (ik & -> & Hik%elem_of_range). simpl. eauto.
  - destruct c as [ir ik]. simpl. intros (Hir & n & Hn & Hik).
    exists ir. split; [|by apply elem_of_range].
    rewrite (ring_cells_ok _ _ _ Hn). apply list_elem_of_fmap.
    exists ik. split; [done|by apply elem_of_range].
Qed.

Lemma get2_covered {A} (a : array2 A) (nrs : Z) (nks : list Z) (c : Z * Z) :
  covers a nrs nks → c ∈ grid_cells nrs nks → ∃ x, get2 a c.1 c.2 = Ok x.
Proof.
  intros (Hrect & Hrows & Hcols) (Hir & n & Hn & Hik)%elem_of_grid_cells.
  unfold get2, row2.
  destruct (getitem_ok (rows a) c.1) as [row Hrow]; [lia|]. rewrite Hrow. simpl.
  apply getitem_ok. rewrite (row2_length a c.1 row Hrect Hrow).
  specialize (Hcols c.1 n Hir Hn). lia.
Qed.

(** A loop whose every round returns, returns. *)
Lemma foldR_total {X Acc} (f : Acc → X → res Acc) (xs : list X) :
  (∀ a x, x ∈ xs → ∃ a', f a x = Ok a') → ∀ a, ∃ r, foldR f xs a = Ok r.
Proof.
  induction xs as [|x xs IH]; intros Hf a; simpl; [by eexists|].
  destruct (Hf a x) as [a' ->]; [left|]. simpl.
  apply IH. intros b y Hy. apply Hf. by right.
Qed.

(** When the number of knots is known for every ring, the loop over the
    rings is the loop over the cells. *)
Lemma foldR_rings_eq {Acc} (body : Acc → Z * Z → res Acc) (nks : list Z)
    (irs : list Z) (acc : Acc) :
  (∀ ir, ir ∈ irs → ∃ n, getitem nks ir = Ok n) →
  foldR (λ acc ir, n ← getitem nks ir;
                   foldR (λ acc ik, body acc (ir, ik)) (range n) acc) irs acc =
  foldR body (irs ≫= ring_cells nks) acc.
Proof.
  revert acc. induction irs as [|ir irs IH]; intros acc Hn; [done|].
  destruct (Hn ir) as [n Hir]; [left|].
  rewrite bind_cons, foldR_app, (ring_cells_ok _ _ _ Hir), foldR_fmap.
  simpl. rewrite Hir. simpl.
  destruct (foldR _ (range n) acc) as [acc'|]; simpl; [|done].
  apply IH. intros ir' Hir'. apply Hn. by right.
Qed.

Lemma ring_known (nrs : Z) (nks : list Z) (ir : Z) :
  nrs ≤ Z.of_nat (length nks) → ir ∈ range nrs → ∃ n, getitem nks ir = Ok n.
Proof. intros Hn Hir%elem_of_range. apply getitem_ok. lia. Qed.

(** ** The constructor on a consistent file *)

Lemma init_cell_ok (file : netcdf) (c : Z * Z) :
  consistent file →
  c ∈ live_cells (NRS file) (NKS file) (KAREAS file) →
  ∃ vertices, init_cell file c = Ok vertices.
Proof.
  intros (Hnks & Harea & Hkorpg & Hrs & Hzs & Hrv & Hzv & Hrc & Hzc & Hidx) Hc.
  pose proof Hc as Hgrid. unfold live_cells in Hgrid.
  apply list_elem_of_In, filter_In in Hgrid as [Hgrid%list_elem_of_In _].
  destruct (get2_covered _ _ _ c Hkorpg Hgrid) as [k Hk].
  destruct (get2_covered _ _ _ c Hrs Hgrid) as [r Hr].
  destruct (get2_covered _ _ _ c Hzs Hgrid) as [z Hz].
  destruct (Hidx c k Hc Hk) as [Hkr Hkz].
  destruct (getitem_ok (rows (RVERTP file)) (k - 1) Hkr) as [rv Hrow].
  destruct (getitem_ok (rows (ZVERTP file)) (k - 1) Hkz) as [zv Hzow].
  pose proof (row2_length _ _ _ Hrv Hrow) as Hlr.
  pose proof (row2_length _ _ _ Hzv Hzow) as Hlz.
  unfold init_cell, cell_polygon, row2. rewrite Hk. cbn [mbind res_bind].
  rewrite Hrow, Hzow. cbn [mbind res_bind].
  destruct rv as [|r0 rv]; [simpl in Hlr; lia|].
  destruct zv as [|z0 zv]; [simpl in Hlz; lia|].
  cbn [take zip zip_with Path mbind res_bind]. rewrite Hr, Hz. by eexists.
Qed.

Lemma init_step_ok (file : netcdf) (acc : list polygon * Z) (c : Z * Z) :
  consistent file → c ∈ grid_cells (NRS file) (NKS file) →
  ∃ acc', init_step file acc c = Ok acc'.
Proof.
  intros Hfile Hc. pose proof Hfile as (_ & Harea & Hkorpg & _).
  destruct (get2_covered _ _ _ c Hkorpg Hc) as [k Hk].
  destruct (get2_covered _ _ _ c Harea Hc) as [a Ha].
  unfold init_step. rewrite Hk, Ha. cbn [mbind res_bind].
  destruct (fneb a f0) eqn:Hlive; [|by eexists].
  destruct (init_cell_ok file c Hfile) as [v ->]; [|by eexists].
  unfold live_cells. apply list_elem_of_In, filter_In.
  split; [by apply list_elem_of_In|]. unfold has_area. by rewrite Ha.
Qed.

(** X3.  On a consistent file the constructor returns an object: no index it
    computes leaves the arrays. *)
Theorem init_returns_on_consistent_file
    (contains_point : polygon → F → F → bool) (file : netcdf)
    (netcdf_path : string) (out : list message) :
  consistent file →
  ∃ (o : OedgePlots) (out' : list message),
    __init__ contains_point file netcdf_path out = (Ok o, out') ∧
    nc o = file ∧ dat_file o = None ∧
    num_cells o = Z.of_nat (length (mesh o)) ∧
    length (mesh o) = length (live_cells (NRS file) (NKS file) (KAREAS file)).
Proof.
  intros Hfile.
  pose proof (init_result contains_point file netcdf_path out) as Hres.
  rewrite foldR_rings_eq in Hres
    by (intros ir; apply ring_known; by destruct Hfile).
  destruct (foldR_total (init_step file)
              (range (NRS file) ≫= ring_cells (NKS file))) with (a := ([] : list polygon, 0))
    as [[mesh n] Hloop].
  { intros a c Hc. by apply init_step_ok. }
  rewrite Hloop in Hres. cbn [mbind res_bind fst snd] in Hres.
  destruct (__init__ contains_point file netcdf_path out) as [r out'] eqn:Hinit.
  simpl in Hres. subst r.
  destruct (init_spec _ _ _ _ _ _ Hinit) as (polys & Hpolys & Ho & _).
  eexists _, out'. split; [done|]. rewrite Ho. simpl.
  split_and!; [done..|]. by apply mapR_length in Hpolys.
Qed.

Lemma consistent_demo : consistent Demo.file.
Proof.
  assert (Hnks : ∀ ir n, 0 ≤ ir < 3 → getitem [2; 3; 2] ir = Ok n → n ≤ 3).
  { intros ir n Hir Hn.
    assert (ir = 0 ∨ ir = 1 ∨ ir = 2) as [->|[->| ->]] by lia;
      vm_compute in Hn; injection Hn as <-; lia. }
  assert (Hcov : ∀ {A} (rows : list (list A)),
             Forall (λ row, length row = 3%nat) rows → length rows = 3%nat →
             covers (Array2 3 rows) 3 [2; 3; 2]).
  { intros A rows Hrect Hlen. split_and!; [done|simpl; lia|exact Hnks]. }
  unfold consistent. split_and!; try (apply Hcov; [repeat constructor|done]).
  - simpl. lia.
  - repeat constructor.
  - repeat constructor.
  - simpl. lia.
  - simpl. lia.
  - intros c k Hc Hk. unfold row_index.
    change (live_cells (NRS Demo.file) (NKS Demo.file) (KAREAS Demo.file))
      with [(0, 0); (0, 1); (1, 0); (1, 2); (2, 0); (2, 1)] in Hc.
    repeat (apply elem_of_cons in Hc as [->|Hc];
            [vm_compute in Hk; injection Hk as <-; simpl; lia|]).
    by apply elem_of_nil in Hc.
Qed.

Lemma init_returns_on_consistent_file_witness :
  consistent Demo.file ∧
  ∃ (o : OedgePlots) (out' : list message),
    __init__ Demo.inside Demo.file "demo.nc" [] = (Ok o, out') ∧
    nc o = Demo.file ∧ dat_file o = None ∧
    num_cells o = Z.of_nat (length (mesh o)) ∧
    length (mesh o) =
      length (live_cells (NRS Demo.file) (NKS Demo.file) (KAREAS Demo.file)).
Proof.
  split; [exact consistent_demo|].
  exact (init_returns_on_consistent_file Demo.inside Demo.file "demo.nc" []
           consistent_demo).
Defined.

(** ** [read_data_2d] on a variable that covers the grid *)

Lemma foldR_rings_known {Acc} (body : Z → Acc → Z → res Acc) (nks : list Z)
    (irs : list Z) (acc r : Acc) :
  foldR (λ acc ir, n ← getitem nks ir; foldR (body ir) (range n) acc) irs acc = Ok r →
  ∀ ir, ir ∈ irs → ∃ n, getitem nks ir = Ok n.
Proof.
  revert acc. induction irs as [|ir irs IH]; intros acc H ir' Hir';
    [by apply elem_of_nil in Hir'|].
  simpl in H. apply bind_Ok in H as (acc' & H1 & H2).
  apply bind_Ok in H1 as (n & Hn & _).
  apply elem_of_cons in Hir' as [->|Hir']; [eauto|by eapply IH].
Qed.

Lemma foldR_rounds {X Acc} (f : Acc → X → res Acc) (xs : list X) (a r : Acc) :
  foldR f xs a = Ok r → ∀ x, x ∈ xs → ∃ a0 a1, f a0 x = Ok a1.
Proof.
  revert a. induction xs as [|x xs IH]; intros a H y Hy;
    [by apply elem_of_nil in Hy|].
  simpl in H. apply bind_Ok in H as (a' & H1 & H2).
  apply elem_of_cons in Hy as [->|Hy]; [eauto|by eapply IH].
Qed.

(** A constructor that returned has found the number of knots of every
    ring and the area of every cell. *)
Lemma init_grid_known (contains_point : polygon → F → F → bool) (file : netcdf)
    (netcdf_path : string) (out out' : list message) (o : OedgePlots) :
  __init__ contains_point file netcdf_path out = (Ok o, out') →
  (∀ ir, ir ∈ range (NRS file) → ∃ n, getitem (NKS file) ir = Ok n) ∧
  (∀ c, c ∈ grid_cells (NRS file) (NKS file) →
        ∃ a, get2 (KAREAS file) c.1 c.2 = Ok a).
Proof.
  intros H. pose proof (init_result contains_point file netcdf_path out) as Hres.
  rewrite H in Hres. simpl in Hres. symmetry in Hres.
  apply bind_Ok in Hres as (acc & Hloop & _).
  pose proof (foldR_rings_known (λ ir acc ik, init_step file acc (ir, ik))
                _ _ _ _ Hloop) as Hrings.
  split; [exact Hrings|].
  rewrite foldR_rings_eq in Hloop by exact Hrings.
  intros c Hc. destruct (foldR_rounds _ _ _ _ Hloop c Hc) as (a0 & a1 & Hstep).
  unfold init_step in Hstep.
  apply bind_Ok in Hstep as (k & _ & Hstep).
  apply bind_Ok in Hstep as (a & Ha & _). eauto.
Qed.

Lemma flat_loop_total (area : array2 F) (value : Z * Z → res F)
    (cells : list (Z * Z)) :
  ∀ (data0 : list F) (c0 : Z),
    0 ≤ c0 →
    (∀ c, c ∈ cells → ∃ a, get2 area c.1 c.2 = Ok a) →
    (∀ c, c ∈ cells → has_area area c = true → ∃ v, value c = Ok v) →
    c0 + Z.of_nat (length (List.filter (has_area area) cells))
      ≤ Z.of_nat (length data0) →
    ∃ r, foldR (flat_step area value) cells (data0, c0) = Ok r.
Proof.
  induction cells as [|c cells IH]; intros data0 c0 Hc0 Harea Hval Hlen;
    [by eexists|].
  cbn [foldR].
  destruct (Harea c) as [a Ha]; [left|].
  assert (Hlive : has_area area c = fneb a f0) by (unfold has_area; by rewrite Ha).
  simpl in Hlen. rewrite Hlive in Hlen.
  destruct (fneb a f0) eqn:Hl.
  - destruct (Hval c) as [v Hv]; [left|done|].
    assert (Hstep : flat_step area value (data0, c0) c
                    = Ok (<[Z.to_nat c0 := v]> data0, c0 + 1)).
    { unfold flat_step. cbn [fst snd]. rewrite Ha. cbn [mbind res_bind].
      rewrite Hl, Hv. cbn [mbind res_bind]. unfold setitem.
      simpl in Hlen. by rewrite norm_index_in_range by lia. }
    rewrite Hstep. cbn [mbind res_bind]. simpl in Hlen.
    apply IH; [lia|intros; apply Harea; by right|
               intros; apply Hval; [by right|done]|rewrite length_insert; lia].
  - assert (Hstep : flat_step area value (data0, c0) c = Ok (data0, c0)).
    { unfold flat_step. cbn [fst snd]. rewrite Ha. cbn [mbind res_bind].
      by rewrite Hl. }
    rewrite Hstep. cbn [mbind res_bind].
    apply IH; [lia|intros; apply Harea; by right|
               intros; apply Hval; [by right|done]|lia].
Qed.

Lemma nd_get2_ok (a : ndarray) (n m : nat) (i j : Z) :
  shape a = [n; m] → nd_wf a → 0 ≤ i < Z.of_nat n → 0 ≤ j < Z.of_nat m →
  ∃ x, nd_get2 a i j = Ok x.
Proof.
  intros Hshape Hwf Hi Hj. unfold nd_wf in Hwf. rewrite Hshape in Hwf.
  simpl in Hwf.
  unfold nd_get2, nd_index. rewrite Hshape.
  rewrite norm_index_in_range by done. cbn [mbind res_bind shape buf].
  rewrite norm_index_in_range by done. cbn [mbind res_bind shape buf size_of foldr].
  unfold nd_scalar. cbn [shape buf].
  set (l := take 1 _).
  assert (Hl : length l = 1%nat).
  { unfold l. rewrite !length_take, !length_drop, length_take, length_drop. nia. }
  destruct l as [|x [|y l]]; try done. by exists x.
Qed.

(** X4.  After the constructor, [read_data_2d] returns on every variable with
    the two dimensions of the grid, a row for every ring and a column for
    every knot: one number per polygon of the mesh, and no exception. *)
Theorem read_data_2d_returns_on_matrix
    (contains_point : polygon → F → F → bool) (file : netcdf)
    (netcdf_path : string) (out out' : list message) (o : OedgePlots)
    (w : world) (dataname : string) (raw_data : ndarray) (n m : nat)
    (scaling : scaling_arg) (no_core : bool) :
  __init__ contains_point file netcdf_path out = (Ok o, out') →
  self w = o →
  dataname ≠ "Snorm" →
  nc_var file dataname = Ok raw_data →
  shape raw_data = [n; m] → nd_wf raw_data →
  NRS file ≤ Z.of_nat n →
  (∀ ir k, 0 ≤ ir < NRS file → getitem (NKS file) ir = Ok k → k ≤ Z.of_nat m) →
  ∃ data,
    read_data_2d dataname ChargeNone scaling false no_core w = (Ok data, w) ∧
    length data = length (mesh o).
Proof.
  intros Hinit Hw Hname Hraw Hshape Hwf Hn Hm.
  destruct (init_grid_known _ _ _ _ _ _ Hinit) as [Hrings Hareas].
  apply init_spec in Hinit as (polys & Hpolys & Ho & _).
  pose proof (mapR_length _ _ _ Hpolys) as Hlen.
  assert (Hloop : ∃ r,
    foldR (read_ring o raw_data ChargeNone scaling no_core) (range (nrs o))
          (replicate (length polys) f0, 0) = Ok r).
  { rewrite (foldR_ext _
      (λ acc ir, n ← getitem (nks o) ir;
         foldR (λ acc ik,
                  flat_step (area o) (cell_value o raw_data ChargeNone scaling no_core)
                            acc (ir, ik)) (range n) acc)).
    2:{ intros a ir. unfold read_ring. destruct (getitem (nks o) ir); simpl; [|done].
        apply foldR_ext. intros. apply read_knot_flat. }
    rewrite Ho. cbn [nrs nks area load_attributes].
    rewrite foldR_rings_eq by exact Hrings.
    apply flat_loop_total; [lia|exact Hareas| |].
    - intros c (Hir & k & Hk & Hik)%elem_of_grid_cells _.
      unfold cell_value. destruct scaling as [s|]; [|by eexists].
      destruct (nd_get2_ok raw_data n m c.1 c.2 Hshape Hwf) as [x Hx];
        [lia|specialize (Hm c.1 k Hir Hk); lia|].
      unfold raw_value. rewrite Hx. by eexists.
    - rewrite length_replicate. unfold live_cells, grid_cells in Hlen. lia. }
  destruct Hloop as [[data count] Hloop].
  assert (Hrun : read_data_2d_on o dataname ChargeNone scaling false no_core = Ok data).
  { unfold read_data_2d_on, load_raw_data. rewrite decide_False by done.
    replace (nc o) with file by (by rewrite Ho).
    rewrite Hraw. cbn [mbind res_bind]. unfold np_zeros.
    replace (num_cells o) with (Z.of_nat (length polys)) by (by rewrite Ho).
    rewrite bool_decide_eq_false_2 by lia. cbn [mbind res_bind sum_charges].
    rewrite Nat2Z.id, Hloop. done. }
  exists data. split.
  - unfold read_data_2d, mbind, M_bind, gets, lift. by rewrite Hw, Hrun.
  - apply read_data_2d_on_spec in Hrun as (_ & _ & _ & _ & Hnum & _).
    rewrite Ho in Hnum |- *. cbn [num_cells mesh load_attributes] in Hnum |- *. lia.
Qed.

Lemma read_data_2d_returns_on_matrix_witness :
  __init__ Demo.inside Demo.file "demo.nc" [] = (Ok Demo.obj, Demo.built.2) ∧
  nc_var Demo.file "KTEBS" = Ok Demo.field ∧
  ∃ data,
    read_data_2d "KTEBS" ChargeNone (Scale (Demo.z 2)) false true Demo.w0
      = (Ok data, Demo.w0) ∧
    length data = length (mesh Demo.obj).
Proof.
  assert (Hinit : __init__ Demo.inside Demo.file "demo.nc" []
                  = (Ok Demo.obj, Demo.built.2)) by (vm_compute; reflexivity).
  assert (Hraw : nc_var Demo.file "KTEBS" = Ok Demo.field)
    by (vm_compute; reflexivity).
  split_and!; [exact Hinit|exact Hraw|].
  apply (read_data_2d_returns_on_matrix Demo.inside Demo.file "demo.nc" []
           Demo.built.2 Demo.obj Demo.w0 "KTEBS" Demo.field 3 3
           (Scale (Demo.z 2)) true Hinit eq_refl);
    [discriminate|exact Hraw|reflexivity|reflexivity|simpl; lia|].
  intros ir k Hir Hk.
  assert (ir = 0 ∨ ir = 1 ∨ ir = 2) as [->|[->| ->]] by (simpl in Hir; lia);
    vm_compute in Hk; injection Hk as <-; lia.
Defined.

(** * [read_data_2d_kvhs_t13] *)

Lemma setitem_then_set {A} (l l' : list A) (i : Z) (x y : A) :
  setitem l i x = Ok l' → setitem l' i y = setitem l i y.
Proof.
  intros H. pose proof (setitem_twice l i x y) as Ht. by rewrite H in Ht.
Qed.

Lemma setitem_then_get {A} (l l' : list A) (i : Z) (x : A) :
  setitem l i x = Ok l' → getitem l' i = Ok x.
Proof.
  unfold setitem, getitem. intros H.
  apply bind_Ok in H as (k & Hk & H). injection H as <-.
  rewrite length_insert, Hk. cbn [mbind res_bind].
  by rewrite list_lookup_insert_eq by (by eapply norm_index_lt).
Qed.

(** A loop whose body, when it returns, returns what another body returns,
    ends as the loop of that body when it ends normally. *)
Lemma foldR_impl {X Acc} (f g : Acc → X → res Acc) (xs : list X) :
  (∀ a x a', x ∈ xs → f a x = Ok a' → g a x = Ok a') →
  ∀ acc r, foldR f xs acc = Ok r → foldR g xs acc = Ok r.
Proof.
  induction xs as [|x xs IH]; intros Hstep acc r H; [done|].
  cbn [foldR] in *. apply bind_Ok in H as (a' & Hf & H).
  rewrite (Hstep acc x a') by (done || left). cbn [mbind res_bind].
  apply IH; [|done]. intros b y b' Hy. apply Hstep. by right.
Qed.

Lemma foldR_ext_in {X Acc} (f g : Acc → X → res Acc) (xs : list X) (acc : Acc) :
  (∀ a x, x ∈ xs → f a x = g a x) → foldR f xs acc = foldR g xs acc.
Proof.
  revert acc. induction xs as [|x xs IH]; intros acc H; [done|].
  cbn [foldR]. rewrite H by left.
  destruct (g acc x); cbn [mbind res_bind]; [|done].
  apply IH. intros b y Hy. apply H. by right.
Qed.

Section DriftLoop.

Variable py_float : string → res F.
Variable DataFrame : Type.
Variable drift_frame : list (list string) → res DataFrame.
Variable in_index : DataFrame → Z → bool.
Variable loc : DataFrame → string → Z → res F.

(** One round of the loop, when it returns, has stored the value of the
    cell: the slot is written up to three times, and the last value wins. *)
Lemma kvhs_knot_flat (o : OedgePlots) (add_df : DataFrame) (raw_data : ndarray)
    (no_core : bool) (ir ik : Z) (acc acc' : list F * Z) :
  kvhs_knot DataFrame in_index loc o add_df raw_data (fdiv f1 (qtim o)) no_core
            ir acc ik = Ok acc' →
  flat_step (area o) (kvhs_value DataFrame in_index loc o add_df raw_data no_core)
            acc (ir, ik) = Ok acc'.
Proof.
  destruct acc as [data count]. unfold kvhs_knot, flat_step. cbn [fst snd].
  intros H. apply bind_Ok in H as (a & Ha & H). rewrite Ha. cbn [mbind res_bind].
  destruct (fneb a f0); [|done].
  apply bind_Ok in H as (v & Hv & H).
  apply bind_Ok in H as (d1 & Hd1 & H).
  apply bind_Ok in H as (d2 & Hd2 & H).
  apply bind_Ok in H as (d3 & Hd3 & H). injection H as <-.
  unfold kvhs_value, with_drift. cbn [fst snd]. rewrite Hv. cbn [mbind res_bind].
  set (base := fmul v (fdiv f1 (qtim o))) in *.
  assert (Hdrift : ∃ x,
    with_drift DataFrame in_index loc o add_df (ir, ik) base = Ok x ∧
    setitem data count x = Ok d2).
  { unfold with_drift. cbn [fst snd].
    destruct (in_index add_df ir); [|injection Hd2 as <-; eauto].
    apply bind_Ok in Hd2 as (s & Hs & Hd2). rewrite Hs. cbn [mbind res_bind].
    apply bind_Ok in Hd2 as (s_start & Hstart & Hd2).
    rewrite Hstart. cbn [mbind res_bind].
    destruct (fltb s_start s); [|injection Hd2 as <-; eauto].
    apply bind_Ok in Hd2 as (s' & Hs' & Hd2).
    rewrite Hs in Hs'. injection Hs' as <-.
    apply bind_Ok in Hd2 as (s_end & Hend & Hd2).
    rewrite Hend. cbn [mbind res_bind].
    destruct (fltb s s_end); [|injection Hd2 as <-; eauto].
    apply bind_Ok in Hd2 as (d & Hd & Hd2).
    apply bind_Ok in Hd2 as (v_drift & Hdr & Hd2).
    rewrite Hdr. cbn [mbind res_bind].
    rewrite (setitem_then_get _ _ _ _ Hd1) in Hd. injection Hd as <-.
    rewrite (setitem_then_set _ _ _ _ _ Hd1) in Hd2. eauto. }
  destruct Hdrift as (x & Hx & Hset). unfold with_drift in Hx. cbn [fst snd] in Hx.
  rewrite Hx. cbn [mbind res_bind].
  destruct (no_core && bool_decide (ir < irsep o - 1)).
  - rewrite (setitem_then_set _ _ _ _ _ Hset) in Hd3. by rewrite Hd3.
  - injection Hd3 as <-. by rewrite Hset.
Qed.

(** The loop of the method in closed form. *)
Lemma kvhs_loop_spec (o : OedgePlots) (add_df : DataFrame) (raw_data : ndarray)
    (no_core : bool) (data0 data : list F) (c : Z) :
  foldR (kvhs_ring DataFrame in_index loc o add_df raw_data (fdiv f1 (qtim o)) no_core)
        (range (nrs o)) (data0, 0) = Ok (data, c) →
  ∃ vals,
    mapR (kvhs_value DataFrame in_index loc o add_df raw_data no_core) (cells_of o)
      = Ok vals ∧
    (length vals ≤ length data0)%nat ∧
    data = vals ++ drop (length vals) data0.
Proof.
  intros H.
  apply (foldR_rings
           (λ acc c, kvhs_knot DataFrame in_index loc o add_df raw_data
                       (fdiv f1 (qtim o)) no_core c.1 acc c.2)) in H.
  apply (foldR_impl _
           (flat_step (area o)
              (kvhs_value DataFrame in_index loc o add_df raw_data no_core))) in H.
  2:{ intros a [ir ik] a' _. apply kvhs_knot_flat. }
  apply flat_loop in H as (vals & Hvals & -> & Hle & ->); [|lia].
  exists vals. split_and!; [done|lia|].
  rewrite Z.add_0_l, Nat2Z.id. done.
Qed.

Abbreviation kvhs_body :=
  (kvhs_try py_float DataFrame drift_frame in_index loc).
Abbreviation kvhs_method :=
  (read_data_2d_kvhs_t13 py_float DataFrame drift_frame in_index loc).

(** The [try] block reads and prints, and no more: the object stays, and
    the console gets at most the line about the drift option. *)
Lemma kvhs_try_world (o : OedgePlots) (no_core : bool) (w : world) :
  ∃ msgs, (kvhs_body o no_core w).2 = World (self w) (stdout w ++ msgs).
Proof.
  unfold kvhs_try, mbind, M_bind, lift, print_world, print, modify, mret, M_ret.
  destruct w as [o' out]. cbn [self stdout].
  repeat match goal with
         | |- context [match ?x with _ => _ end] =>
             match x with
             | (_, _) => fail 1
             | _ => destruct x
             end
         end; cbn [snd self stdout];
    try (exists []; by rewrite app_nil_r); eauto.
Qed.

(** What the [try] block has gone through when it returns the array. *)
Lemma kvhs_try_data (o : OedgePlots) (no_core : bool) (w w' : world) (data : list F) :
  kvhs_body o no_core w = (Ok (KvhsData data), w') →
  w' = w ∧
  ∃ text rows add_df raw_data count,
    dat_file o = Some text ∧
    drift_rows text = Ok rows ∧
    drift_frame rows = Ok add_df ∧
    nc_var (nc o) "KVHS" = Ok raw_data ∧
    0 ≤ num_cells o ∧
    foldR (kvhs_ring DataFrame in_index loc o add_df raw_data (fdiv f1 (qtim o)) no_core)
          (range (nrs o)) (replicate (Z.to_nat (num_cells o)) f0, 0)
      = Ok (data, count).
Proof.
  unfold kvhs_try, dat_split, mbind, M_bind, lift, print_world, print, modify,
    mret, M_ret.
  destruct (dat_file o) as [text|]; [|done].
  destruct (getitem (split text "POL DRIFT OPT") 1) as [after|]; [|done].
  destruct (getitem (split after ":") 0) as [field|]; [|done].
  destruct (py_float field) as [pol_opt|]; [|done].
  destruct (feqb pol_opt f0); [done|].
  destruct (getitem (split text drift_table_header) 1) as [after'|] eqn:Hafter';
    [|done].
  destruct (getitem (split after' "DRIFT") 0) as [table|] eqn:Htable; [|done].
  destruct (drift_frame _) as [add_df|] eqn:Hframe; [|done].
  destruct (nc_var (nc o) "KVHS") as [raw_data|] eqn:Hraw; [|done].
  unfold np_zeros. case_bool_decide as Hnum; [done|].
  destruct (foldR _ _ _) as [[d c]|] eqn:Hloop; [|done].
  intros [= <- <-]. split; [done|].
  eexists text, _, add_df, raw_data, c. split_and!; [done| |exact Hframe|done|lia|done].
  unfold drift_rows. rewrite Hafter'. cbn [mbind res_bind]. by rewrite Htable.
Qed.

End DriftLoop.

Section DriftMethod.

Variable py_float : string → res F.
Variable DataFrame : Type.
Variable drift_frame : list (list string) → res DataFrame.
Variable in_index : DataFrame → Z → bool.
Variable loc : DataFrame → string → Z → res F.

Abbreviation kvhs_block :=
  (kvhs_try py_float DataFrame drift_frame in_index loc).
Abbreviation kvhs_call :=
  (read_data_2d_kvhs_t13 py_float DataFrame drift_frame in_index loc).

Lemma kvhs_try_none (o : OedgePlots) (no_core : bool) (w : world) :
  dat_file o = None → kvhs_block o no_core w = (Raise AttributeError, w).
Proof.
  intros Hnone. unfold kvhs_try, dat_split, mbind, M_bind, lift.
  by rewrite Hnone.
Qed.

(** An array the method returns is the one its [try] block returns, and
    nothing was printed on the way. *)
Lemma kvhs_method_data (w w' : world) (no_core : bool) (data : list F) :
  kvhs_call no_core w = (Ok (KvhsData data), w') →
  kvhs_block (self w) no_core w = (Ok (KvhsData data), w').
Proof.
  unfold read_data_2d_kvhs_t13, try_except, mbind, M_bind, gets, print_world,
    print, modify, mret, M_ret.
  destruct (decide (dat_file (self w) = None)) as [Hnone|Hsome].
  - rewrite kvhs_try_none by done. by destruct (decide _).
  - destruct (kvhs_block (self w) no_core w) as [[r|e] w1]; [done|].
    by destruct (decide _).
Qed.

(** X5.  The array [read_data_2d_kvhs_t13] returns: the cell with area that the
    loops reach as number [count] has in slot [count] the flow [KVHS] of the
    file over [qtim], plus the drift the table of the [.dat] file gives for
    its ring when [kss] lies strictly between the ring's [S_START] and
    [S_END], or 0 when the cell is masked as core; the array has [num_cells]
    slots, and the object and the console are as before the call. *)
Theorem kvhs_adds_ring_drifts (w w' : world) (no_core : bool) (data : list F) :
  kvhs_call no_core w = (Ok (KvhsData data), w') →
  w' = w ∧
  ∃ text lines add_df raw_data,
    dat_file (self w) = Some text ∧
    drift_rows text = Ok lines ∧
    drift_frame lines = Ok add_df ∧
    nc_var (nc (self w)) "KVHS" = Ok raw_data ∧
    Z.of_nat (length data) = num_cells (self w) ∧
    ∀ (count : nat) (c : Z * Z),
      cells_of (self w) !! count = Some c →
      ∃ v, kvhs_value DataFrame in_index loc (self w) add_df raw_data no_core c
             = Ok v ∧
           data !! count = Some v.
Proof.
  intros H. apply kvhs_method_data in H.
  apply kvhs_try_data in H
    as (-> & text & lines & add_df & raw_data & count & Htext & Hlines & Hframe
        & Hraw & Hnum & Hloop).
  split; [done|]. exists text, lines, add_df, raw_data.
  apply kvhs_loop_spec in Hloop as (vals & Hvals & Hle & ->).
  rewrite length_replicate in Hle.
  split_and!; [done..| |].
  - rewrite length_app, length_drop, length_replicate. lia.
  - intros k c Hc.
    destruct (mapR_lookup _ _ _ _ _ Hvals Hc) as (v & Hv & Hk).
    exists v. split; [done|]. by apply lookup_app_l_Some.
Qed.

(** Where the table lists a ring, the loop body is that of [read_data_2d]
    only when the ring is not listed. *)
Lemma kvhs_knot_unlisted (o : OedgePlots) (add_df : DataFrame) (raw_data : ndarray)
    (scaling : F) (no_core : bool) (ir ik : Z) (acc : list F * Z) :
  in_index add_df ir = false →
  kvhs_knot DataFrame in_index loc o add_df raw_data scaling no_core ir acc ik =
  read_knot o raw_data ChargeNone (Scale scaling) no_core ir acc ik.
Proof.
  intros Hidx. destruct acc as [data count]. unfold kvhs_knot, read_knot.
  rewrite Hidx. cbn [raw_value].
  destruct (get2 (area o) ir ik) as [a|]; cbn [mbind res_bind]; [|done].
  destruct (fneb a f0); [|done].
  destruct (nd_get2 raw_data ir ik) as [v|]; cbn [mbind res_bind]; [|done].
  destruct (setitem data count (fmul v scaling)) as [d|]; cbn [mbind res_bind];
    [|done].
  destruct (no_core && bool_decide (ir < irsep o - 1)); [|done].
  by destruct (setitem d count f0).
Qed.

(** X6.  With a drift table that lists no ring of the grid, an array
    [read_data_2d_kvhs_t13] returns is the array
    [read_data_2d('KVHS', scaling=1.0 / self.qtim, no_core=no_core)]
    returns. *)
Theorem kvhs_without_listed_rings (w w' : world) (no_core : bool) (data : list F) :
  kvhs_call no_core w = (Ok (KvhsData data), w') →
  (∀ text lines add_df,
     dat_file (self w) = Some text → drift_rows text = Ok lines →
     drift_frame lines = Ok add_df →
     ∀ ir, 0 ≤ ir < nrs (self w) → in_index add_df ir = false) →
  read_data_2d "KVHS" ChargeNone (Scale (fdiv f1 (qtim (self w)))) false no_core w
    = (Ok data, w).
Proof.
  intros H Hidx. apply kvhs_method_data in H.
  apply kvhs_try_data in H
    as (-> & text & lines & add_df & raw_data & count & Htext & Hlines & Hframe
        & Hraw & Hnum & Hloop).
  specialize (Hidx text lines add_df Htext Hlines Hframe).
  rewrite (foldR_ext_in _
             (read_ring (self w) raw_data ChargeNone
                        (Scale (fdiv f1 (qtim (self w)))) no_core)) in Hloop.
  2:{ intros acc ir Hir%elem_of_range. unfold kvhs_ring, read_ring.
      destruct (getitem (nks (self w)) ir); cbn [mbind res_bind]; [|done].
      apply foldR_ext. intros acc1 ik. by apply kvhs_knot_unlisted, Hidx. }
  unfold read_data_2d, read_data_2d_on, load_raw_data, mbind at 1, M_bind, gets, lift.
  rewrite decide_False by discriminate. rewrite Hraw. cbn [mbind res_bind].
  unfold np_zeros. rewrite bool_decide_eq_false_2 by lia.
  cbn [mbind res_bind sum_charges]. by rewrite Hloop.
Qed.

Lemma kvhs_try_except_world (o : OedgePlots) (no_core : bool) (w : world) :
  let r := try_except (kvhs_block o no_core) IndexError
             (print_world (Text "Error: Was T13 on for this run?");;
              mret KvhsNone) w in
  r.1 ≠ Raise IndexError ∧
  ∃ msgs, r.2 = World (self w) (stdout w ++ msgs).
Proof.
  unfold try_except.
  destruct (kvhs_try_world py_float DataFrame drift_frame in_index loc o
              no_core w) as [m1 Hm1].
  destruct (kvhs_block o no_core w) as [[r|e] w2]; cbn [snd] in Hm1; subst w2.
  - split; [done|]. by exists m1.
  - destruct (decide (e = IndexError)) as [->|Hne].
    + unfold mbind, M_bind, print_world, print, modify, mret, M_ret.
      cbn [fst snd self stdout]. split; [done|].
      eexists (m1 ++ [_]). by rewrite app_assoc.
    + cbn [fst snd]. split; [congruence|]. by exists m1.
Qed.

(** X7.  The [try] statement of [read_data_2d_kvhs_t13] lets no [IndexError]
    out of the method, whatever the [.dat] file and the netCDF file hold;
    the method leaves the object as it is and only adds lines to the
    console. *)
Theorem kvhs_index_errors_are_caught (w : world) (no_core : bool) :
  (kvhs_call no_core w).1 ≠ Raise IndexError ∧
  ∃ msgs, (kvhs_call no_core w).2 = World (self w) (stdout w ++ msgs).
Proof.
  set (m0 := if decide (dat_file (self w) = None)
             then [Text "Error: .dat file not loaded in. Run 'add_dat_file' first."]
             else []).
  assert (Hcall : kvhs_call no_core w =
      try_except (kvhs_block (self w) no_core) IndexError
        (print_world (Text "Error: Was T13 on for this run?");; mret KvhsNone)
        (World (self w) (stdout w ++ m0))).
  { unfold read_data_2d_kvhs_t13, mbind at 1 2, M_bind, gets, m0.
    destruct (decide (dat_file (self w) = None)); [done|].
    unfold mret at 1, M_ret. rewrite app_nil_r. by destruct w. }
  rewrite Hcall.
  destruct (kvhs_try_except_world (self w) no_core
              (World (self w) (stdout w ++ m0))) as [Hr [msgs Hw]].
  split; [exact Hr|]. rewrite Hw. cbn [self stdout].
  exists (m0 ++ msgs). by rewrite app_assoc.
Qed.

End DriftMethod.

Lemma kvhs_adds_ring_drifts_witness :
  DriftDemo.kvhs_t13 true (DriftDemo.with_dat "1")
    = (Ok (KvhsData (Demo.z <$> [0; 0; 24; 37; 8; 16])), DriftDemo.with_dat "1") ∧
  DriftDemo.with_dat "1" = DriftDemo.with_dat "1" ∧
  ∃ text lines add_df raw_data,
    dat_file (self (DriftDemo.with_dat "1")) = Some text ∧
    drift_rows text = Ok lines ∧
    DriftDemo.drift_frame lines = Ok add_df ∧
    nc_var (nc (self (DriftDemo.with_dat "1"))) "KVHS" = Ok raw_data ∧
    Z.of_nat (length (Demo.z <$> [0; 0; 24; 37; 8; 16]))
      = num_cells (self (DriftDemo.with_dat "1")) ∧
    ∀ (count : nat) (c : Z * Z),
      cells_of (self (DriftDemo.with_dat "1")) !! count = Some c →
      ∃ v, kvhs_value DriftDemo.DataFrame DriftDemo.in_index DriftDemo.loc
             (self (DriftDemo.with_dat "1")) add_df raw_data true c = Ok v ∧
           (Demo.z <$> [0; 0; 24; 37; 8; 16]) !! count = Some v.
Proof.
  assert (H : DriftDemo.kvhs_t13 true (DriftDemo.with_dat "1")
              = (Ok (KvhsData (Demo.z <$> [0; 0; 24; 37; 8; 16])),
                 DriftDemo.with_dat "1")) by (vm_compute; reflexivity).
  split; [exact H|].
  exact (kvhs_adds_ring_drifts DriftDemo.py_float DriftDemo.DataFrame
           DriftDemo.drift_frame DriftDemo.in_index DriftDemo.loc _ _ _ _ H).
Defined.

Lemma kvhs_without_listed_rings_witness :
  DriftDemo.kvhs_t13 false (DriftDemo.with_dat "7")
    = (Ok (KvhsData (Demo.z <$> [40; 48; 24; 32; 8; 16])), DriftDemo.with_dat "7") ∧
  read_data_2d "KVHS" ChargeNone
    (Scale (fdiv f1 (qtim (self (DriftDemo.with_dat "7"))))) false false
    (DriftDemo.with_dat "7")
    = (Ok (Demo.z <$> [40; 48; 24; 32; 8; 16]), DriftDemo.with_dat "7").
Proof.
  assert (H : DriftDemo.kvhs_t13 false (DriftDemo.with_dat "7")
              = (Ok (KvhsData (Demo.z <$> [40; 48; 24; 32; 8; 16])),
                 DriftDemo.with_dat "7")) by (vm_compute; reflexivity).
  split; [exact H|].
  apply (kvhs_without_listed_rings DriftDemo.py_float DriftDemo.DataFrame
           DriftDemo.drift_frame DriftDemo.in_index DriftDemo.loc _ _ _ _ H).
  intros text lines add_df Htext Hlines Hframe ir Hir.
  vm_compute in Htext. injection Htext as <-.
  vm_compute in Hlines. injection Hlines as <-.
  vm_compute in Hframe. injection Hframe as <-.
  assert (ir = 0 ∨ ir = 1 ∨ ir = 2) as [->|[->| ->]]
    by (change (nrs (self (DriftDemo.with_dat "7"))) with 3 in Hir; lia);
    vm_compute; reflexivity.
Defined.

(** * [find_ring_knot] *)



(** The difference of a finite number and itself is +0, and so is the
    distance of a finite point to itself. *)
Lemma fsub_diag (x : F) : is_finite x = true → fsub x x = f0.
Proof.
  unfold fsub, SFsub. destruct x as [[]| | |s m e]; try done. intros _.
  by rewrite Z.sub_diag.
Qed.

Lemma cell_dist_diag (r z : F) :
  is_finite r = true → is_finite z = true → cell_dist r z r z = f0.
Proof. intros Hr Hz. unfold cell_dist. by rewrite !fsub_diag. Qed.

Lemma finite_squares_diag (r z : F) :
  is_finite r = true → is_finite z = true → finite_squares r z r z = true.
Proof. intros Hr Hz. unfold finite_squares. by rewrite !fsub_diag. Qed.

(** A square root that is at most 0 is a zero. *)
Lemma fsqrt_le_zero (x : F) : fleb (fsqrt x) f0 = true → feqb (fsqrt x) f0 = true.
Proof.
  unfold fsqrt, SFsqrt. destruct x as [[]|[]| |[] m e]; try done.
  unfold SFsqrt_core_binary.
  set (m' := match _ with Z0 => _ | Zpos _ => _ | Zneg _ => _ end).
  pose proof (Z.sqrtrem_sqrt m') as Hq. pose proof (Z.sqrt_nonneg m') as Hs.
  destruct (Z.sqrtrem m') as [q rem]. simpl in Hq. subst q.
  match goal with
  | |- context [binary_round_aux ?p ?em ?s ?m ?e ?l] =>
      destruct (binary_round_aux_signed p em s m e l Hs)
        as [->|[->|(m1 & e1 & ->)]]
  end; done.
Qed.

(** X9.  Asked for the center of a cell, with finite coordinates,
    [find_ring_knot] returns a cell at distance 0 from it: that cell, or the
    first one in row-major order whose center is as close. *)
Theorem find_ring_knot_at_center (w w' : world) (r z : F) (ring knot : Z) (i j : nat) :
  find_ring_knot r z w = (Ok (ring, knot), w') →
  get2 (rs (self w)) (Z.of_nat i) (Z.of_nat j) = Ok r →
  get2 (zs (self w)) (Z.of_nat i) (Z.of_nat j) = Ok z →
  is_finite r = true → is_finite z = true →
  ∃ d, dist_at (self w) r z ring knot = Ok d ∧ feqb d f0 = true.
Proof.
  unfold find_ring_knot, mbind, M_bind, gets, lift. intros [= H <-] Hr Hz Hfr Hfz.
  apply find_ring_knot_on_inv in H
    as (i0 & j0 & rc & zc & -> & -> & Hrc & Hzc & Hcases).
  pose proof (finite_squares_diag r z Hfr Hfz) as Hfin.
  exists (cell_dist r z rc zc). split; [unfold dist_at; by rewrite Hrc, Hzc|].
  destruct Hcases as [[_ Hmin]|Hnone].
  - destruct (Hmin i j r z Hr Hz Hfin) as [Hle _].
    rewrite cell_dist_diag in Hle by done. by apply fsqrt_le_zero.
  - destruct (Hnone i j r z Hr Hz) as [Hno _]. congruence.
Qed.

Lemma find_ring_knot_at_center_witness :
  find_ring_knot (Demo.h 3) (Demo.h 0) Demo.w0 = (Ok (1, 1), Demo.w0) ∧
  get2 (rs (self Demo.w0)) (Z.of_nat 1) (Z.of_nat 1) = Ok (Demo.h 3) ∧
  get2 (zs (self Demo.w0)) (Z.of_nat 1) (Z.of_nat 1) = Ok (Demo.h 0) ∧
  ∃ d, dist_at (self Demo.w0) (Demo.h 3) (Demo.h 0) 1 1 = Ok d ∧ feqb d f0 = true.
Proof.
  assert (H : find_ring_knot (Demo.h 3) (Demo.h 0) Demo.w0 = (Ok (1, 1), Demo.w0))
    by (vm_compute; reflexivity).
  assert (Hr : get2 (rs (self Demo.w0)) (Z.of_nat 1) (Z.of_nat 1) = Ok (Demo.h 3))
    by (vm_compute; reflexivity).
  assert (Hz : get2 (zs (self Demo.w0)) (Z.of_nat 1) (Z.of_nat 1) = Ok (Demo.h 0))
    by (vm_compute; reflexivity).
  split_and!; [exact H|exact Hr|exact Hz|].
  exact (find_ring_knot_at_center Demo.w0 Demo.w0 (Demo.h 3) (Demo.h 0) 1 1 1 1
           H Hr Hz eq_refl eq_refl).
Defined.

(** A coordinate that is a NaN or an infinity has no finite square of a
    difference. *)
Lemma not_finite_square (x c : F) :
  is_finite x = false → is_finite (fmul (fsub x c) (fsub x c)) = false.
Proof. by destruct x as [[]|[]| |[] m e], c as [[]|[]| |[] m' e']. Qed.

(** X10.  On a grid with at least one cell [find_ring_knot] returns for
    every [r] and [z], and raises nothing; when [r] or [z] is a NaN or an
    infinity, every entry of the distance array is masked and the pair
    returned is (0, 0), whatever the grid holds. *)
Theorem find_ring_knot_always_returns (w : world) (r z : F) :
  rect (rs (self w)) → rect (zs (self w)) →
  same_shape (rs (self w)) (zs (self w)) = true →
  (0 < length (rows (rs (self w))))%nat → (0 < ncols (rs (self w)))%nat →
  ∃ ring knot : nat,
    find_ring_knot r z w = (Ok (Z.of_nat ring, Z.of_nat knot), w) ∧
    (is_finite r = false ∨ is_finite z = false → (ring, knot) = (0, 0)%nat).
Proof.
  intros Hrs Hzs Hshape Hrows Hcols.
  destruct (find_ring_knot_on_total (self w) r z Hrs Hzs Hshape Hrows Hcols)
    as (ring & knot & Hfind & Hfirst).
  exists ring, knot. split.
  - unfold find_ring_knot, mbind, M_bind, gets, lift. by rewrite Hfind.
  - intros Hinf. apply Hfirst. intros i' j' rc' zc' _ _. unfold finite_squares.
    destruct Hinf as [Hr|Hz].
    + by rewrite (not_finite_square r rc' Hr).
    + rewrite (not_finite_square z zc' Hz). apply andb_false_r.
Qed.

Lemma find_ring_knot_always_returns_witness :
  ∃ ring knot : nat,
    find_ring_knot (Demo.z 1) nan Demo.w0
      = (Ok (Z.of_nat ring, Z.of_nat knot), Demo.w0) ∧
    (is_finite (Demo.z 1) = false ∨ is_finite nan = false →
     (ring, knot) = (0, 0)%nat).
Proof.
  apply (find_ring_knot_always_returns Demo.w0 (Demo.z 1) nan);
    [repeat constructor|repeat constructor|vm_compute; reflexivity
    |simpl; lia|simpl; lia].
Defined.

(** * [get_sep] *)

(** The coordinates [get_sep] reads, point by point: point [i] is vertex 0
    of the row of the vertex array that [korpg] names for knot [i] of ring
    [irsep - 1]. *)
Lemma sep_axis_lookup (o : OedgePlots) (vertp : array2 F) (l : list F)
    (i : nat) (x : F) :
  sep_axis o vertp = Ok l → l !! i = Some x →
  ∃ k, get2 (korpg o) (irsep o - 1) (Z.of_nat i) = Ok k ∧ get2 vertp k 0 = Ok x.
Proof.
  unfold sep_axis, take_rows, column. intros H Hx.
  apply bind_Ok in H as (n & Hn & H).
  apply bind_Ok in H as (ring & Hring & H).
  apply bind_Ok in H as (sel & Hsel & H).
  apply bind_Ok in Hsel as (sel_rows & Hrows & [= <-]).
  apply bind_Ok in H as (k0 & Hk0 & H). cbn [rows ncols] in *.
  apply norm_index_nonneg in Hk0 as [-> _]; [|lia]. cbn [Z.to_nat] in H.
  pose proof (mapR_length _ _ _ H) as Hl.
  pose proof (mapR_length _ _ _ Hrows) as Hs.
  destruct (lookup_lt_is_Some_2 sel_rows i) as [row Hrow];
    [apply lookup_lt_Some in Hx; lia|].
  destruct (lookup_lt_is_Some_2 (slice_to ring n) i) as [k Hk];
    [apply lookup_lt_Some in Hrow; lia|].
  destruct (mapR_lookup _ _ _ _ _ H Hrow) as (y & Hy & Hy').
  rewrite Hx in Hy'. injection Hy' as <-.
  destruct (mapR_lookup _ _ _ _ _ Hrows Hk) as (row' & Hrow' & Hrow'').
  rewrite Hrow in Hrow''. injection Hrow'' as <-.
  exists k. split.
  - unfold get2. rewrite Hring. cbn [mbind res_bind].
    apply getitem_nat. unfold slice_to in Hk.
    by apply lookup_take_Some in Hk as [Hk _].
  - unfold get2. rewrite Hrow'. cbn [mbind res_bind].
    change (Z.to_nat 0) with 0%nat in Hy.
    destruct (row !! 0%nat) as [x'|] eqn:Hx'; [|done]. injection Hy as ->.
    by apply (getitem_nat row 0).
Qed.

(** X11.  Line [i] of [get_sep] joins vertex 0 of the two rows of the vertex
    arrays that [korpg] names for the knots [i] and [i + 1] of ring
    [irsep - 1] (the rows [korpg[irsep - 1, i]] themselves, with no offset);
    each line starts where the line before it ends. *)
Theorem get_sep_lines_join_vertices (w w' : world) (lines : list segment) :
  get_sep w = (Ok lines, w') →
  (∀ (i : nat) (r0 z0 r1 z1 : F),
     lines !! i = Some ((r0, z0), (r1, z1)) →
     ∃ k0 k1,
       get2 (korpg (self w)) (irsep (self w) - 1) (Z.of_nat i) = Ok k0 ∧
       get2 (korpg (self w)) (irsep (self w) - 1) (Z.of_nat (S i)) = Ok k1 ∧
       get2 (rvertp (self w)) k0 0 = Ok r0 ∧ get2 (zvertp (self w)) k0 0 = Ok z0 ∧
       get2 (rvertp (self w)) k1 0 = Ok r1 ∧ get2 (zvertp (self w)) k1 0 = Ok z1) ∧
  (∀ (i : nat) (p q p' q' : point),
     lines !! i = Some (p, q) → lines !! S i = Some (p', q') → q = p').
Proof.
  unfold get_sep, get_sep_on, mbind at 1, M_bind, gets, lift. intros [= H _].
  apply bind_Ok in H as (rsep & Hr & H).
  apply bind_Ok in H as (zsep & Hz & Hlines).
  destruct (sep_axis_length _ _ _ Hr) as (n & ring & Hn & Hring & Hlr).
  destruct (sep_axis_length _ _ _ Hz) as (n' & ring' & Hn' & Hring' & Hlz).
  rewrite Hn in Hn'. injection Hn' as <-.
  rewrite Hring in Hring'. injection Hring' as <-.
  assert (Hlen : length zsep = length rsep) by lia.
  destruct (sep_lines_spec rsep zsep Hlen) as (lines' & Hlines' & Hl & Hk).
  rewrite Hlines in Hlines'. injection Hlines' as <-.
  assert (Hline : ∀ (i : nat) (s : segment), lines !! i = Some s →
            ∃ r0 z0 r1 z1,
              rsep !! i = Some r0 ∧ zsep !! i = Some z0 ∧
              rsep !! S i = Some r1 ∧ zsep !! S i = Some z1 ∧
              s = ((r0, z0), (r1, z1))).
  { intros i s Hs. destruct (Hk i) as (r0 & z0 & r1 & z1 & ? & ? & ? & ? & Hi);
      [apply lookup_lt_Some in Hs; lia|].
    exists r0, z0, r1, z1. split_and!; [done..|].
    assert (Heq : Some s = Some ((r0, z0), (r1, z1)))
      by (etrans; [symmetry; exact Hs|exact Hi]).
    by injection Heq. }
  split.
  - intros i r0 z0 r1 z1 Hi.
    destruct (Hline i _ Hi) as (a0 & b0 & a1 & b1 & Hr0 & Hz0 & Hr1 & Hz1 & Heq).
    injection Heq as -> -> -> ->.
    destruct (sep_axis_lookup _ _ _ _ _ Hr Hr0) as (k0 & Hk0 & Hrv0).
    destruct (sep_axis_lookup _ _ _ _ _ Hz Hz0) as (k0' & Hk0' & Hzv0).
    destruct (sep_axis_lookup _ _ _ _ _ Hr Hr1) as (k1 & Hk1 & Hrv1).
    destruct (sep_axis_lookup _ _ _ _ _ Hz Hz1) as (k1' & Hk1' & Hzv1).
    rewrite Hk0 in Hk0'. injection Hk0' as <-.
    rewrite Hk1 in Hk1'. injection Hk1' as <-.
    by exists k0, k1.
  - intros i p q p' q' Hi Hi'.
    destruct (Hline i _ Hi) as (a0 & b0 & a1 & b1 & _ & _ & Hr1 & Hz1 & Heq).
    destruct (Hline (S i) _ Hi') as (c0 & d0 & c1 & d1 & Hr1' & Hz1' & _ & _ & Heq').
    injection Heq as -> ->. injection Heq' as -> ->. congruence.
Qed.

Lemma get_sep_lines_join_vertices_witness :
  get_sep Demo.w0 = (Ok [((Demo.z 3, Demo.z 0), (Demo.z 4, Demo.z 0))], Demo.w0) ∧
  (∀ (i : nat) (r0 z0 r1 z1 : F),
     [((Demo.z 3, Demo.z 0), (Demo.z 4, Demo.z 0))] !! i
       = Some ((r0, z0), (r1, z1)) →
     ∃ k0 k1,
       get2 (korpg (self Demo.w0)) (irsep (self Demo.w0) - 1) (Z.of_nat i) = Ok k0 ∧
       get2 (korpg (self Demo.w0)) (irsep (self Demo.w0) - 1) (Z.of_nat (S i))
         = Ok k1 ∧
       get2 (rvertp (self Demo.w0)) k0 0 = Ok r0 ∧
       get2 (zvertp (self Demo.w0)) k0 0 = Ok z0 ∧
       get2 (rvertp (self Demo.w0)) k1 0 = Ok r1 ∧
       get2 (zvertp (self Demo.w0)) k1 0 = Ok z1).
Proof.
  assert (H : get_sep Demo.w0
              = (Ok [((Demo.z 3, Demo.z 0), (Demo.z 4, Demo.z 0))], Demo.w0))
    by (vm_compute; reflexivity).
  split; [exact H|].
  exact (proj1 (get_sep_lines_join_vertices Demo.w0 Demo.w0 _ H)).
Defined.

Lemma mapR_some {X Y} (f : X → option Y) (xs : list X) :
  (∀ x, x ∈ xs → is_Some (f x)) →
  ∃ ys, mapR (λ x, match f x with Some y => Ok y | None => Raise IndexError end) xs
        = Ok ys.
Proof.
  intros H. apply mapR_total. intros x Hx. destruct (H x Hx) as [y ->]. by eexists.
Qed.

Lemma sep_axis_ok (o : OedgePlots) (vertp : array2 F) (n : Z) (ring : list Z) :
  getitem (nks o) (irsep o - 1) = Ok n →
  row2 (korpg o) (irsep o - 1) = Ok ring →
  rect vertp → (1 ≤ ncols vertp)%nat →
  (∀ k, k ∈ slice_to ring n → row_index vertp k) →
  ∃ l, sep_axis o vertp = Ok l.
Proof.
  intros Hn Hring Hrect Hcols Hidx. unfold sep_axis, take_rows, column.
  rewrite Hn, Hring. cbn [mbind res_bind].
  destruct (mapR_total (row2 vertp) (slice_to ring n)) as [sel Hsel].
  { intros k Hk. apply getitem_ok, Hidx, Hk. }
  rewrite Hsel. cbn [mbind res_bind ncols rows].
  rewrite norm_index_in_range by lia. cbn [mbind res_bind Z.to_nat].
  apply mapR_some. intros row Hrow. apply lookup_lt_is_Some_2.
  assert (Hlen : length row = ncols vertp); [|lia].
  apply list_elem_of_lookup in Hrow as [i Hi].
  assert (Hlt : (i < length (slice_to ring n))%nat).
  { rewrite <- (mapR_length _ _ _ Hsel). by eapply lookup_lt_Some. }
  destruct (lookup_lt_is_Some_2 _ _ Hlt) as [k Hk].
  destruct (mapR_lookup _ _ _ _ _ Hsel Hk) as (row' & Hrow' & Hi').
  rewrite Hi in Hi'. injection Hi' as <-.
  by eapply row2_length.
Qed.

(** X12.  [get_sep] returns when ring [irsep - 1] has a number of knots and a row
    of [korpg], the vertex arrays have a column, and the entries of that row
    up to the number of knots index the vertex arrays; it then returns two
    lines fewer than there are such entries. *)
Theorem get_sep_returns (w : world) (n : Z) (ring : list Z) :
  getitem (nks (self w)) (irsep (self w) - 1) = Ok n →
  row2 (korpg (self w)) (irsep (self w) - 1) = Ok ring →
  rect (rvertp (self w)) → rect (zvertp (self w)) →
  (1 ≤ ncols (rvertp (self w)))%nat → (1 ≤ ncols (zvertp (self w)))%nat →
  (∀ k, k ∈ slice_to ring n →
        row_index (rvertp (self w)) k ∧ row_index (zvertp (self w)) k) →
  ∃ lines,
    get_sep w = (Ok lines, w) ∧
    length lines = (length (slice_to ring n) - 2)%nat.
Proof.
  intros Hn Hring Hrr Hrz Hcr Hcz Hidx.
  destruct (sep_axis_ok (self w) (rvertp (self w)) n ring) as [rsep Hr];
    [done..|intros k Hk; by apply Hidx|].
  destruct (sep_axis_ok (self w) (zvertp (self w)) n ring) as [zsep Hz];
    [done..|intros k Hk; by apply Hidx|].
  destruct (sep_axis_length _ _ _ Hr) as (n1 & ring1 & Hn1 & Hring1 & Hlr).
  destruct (sep_axis_length _ _ _ Hz) as (n2 & ring2 & Hn2 & Hring2 & Hlz).
  rewrite Hn in Hn1, Hn2. injection Hn1 as <-. injection Hn2 as <-.
  rewrite Hring in Hring1, Hring2. injection Hring1 as <-. injection Hring2 as <-.
  assert (Hlen : length zsep = length rsep) by lia.
  destruct (sep_lines_spec rsep zsep Hlen) as (lines & Hlines & Hl & _).
  exists lines. split; [|lia].
  unfold get_sep, get_sep_on, mbind at 1, M_bind, gets, lift.
  rewrite Hr. cbn [mbind res_bind]. rewrite Hz. cbn [mbind res_bind].
  by rewrite Hlines.
Qed.

Lemma get_sep_returns_witness :
  ∃ lines,
    get_sep Demo.w0 = (Ok lines, Demo.w0) ∧
    length lines = (length (slice_to [3; 4; 5] 3) - 2)%nat.
Proof.
  apply (get_sep_returns Demo.w0 3 [3; 4; 5]);
    [vm_compute; reflexivity|vm_compute; reflexivity
    |repeat constructor|repeat constructor|simpl; lia|simpl; lia|].
  intros k Hk. vm_compute in Hk.
  unfold row_index. cbn.
  repeat (apply elem_of_cons in Hk as [->|Hk]; [lia|]).
  by apply elem_of_nil in Hk.
Defined.

(** * [read_data_2d] with [charge='all'] *)

Lemma offset_lt (n sz c k : nat) :
  (c < n)%nat → (k < sz)%nat → (c * sz + k < n * sz)%nat.
Proof.
  intros Hc Hk. pose proof (Nat.mul_le_mono_r (S c) n sz Hc). simpl in *. lia.
Qed.

Lemma take1_drop {A} (l : list A) (k : nat) (x : A) :
  l !! k = Some x → take 1 (drop k l) = [x].
Proof.
  intros H. rewrite <- (take_drop_middle l k x H).
  rewrite drop_app_length'; [done|].
  rewrite length_take. apply lookup_lt_Some in H. lia.
Qed.

(** Two indices into a matrix and three into a stack of matrices read the
    buffer at the offset of C order. *)
Lemma nd_get2_flat (a : ndarray) (n m i j : nat) (x : F) :
  shape a = [n; m] → (i < n)%nat → (j < m)%nat →
  buf a !! (i * m + j)%nat = Some x →
  nd_get2 a (Z.of_nat i) (Z.of_nat j) = Ok x.
Proof.
  intros Hshape Hi Hj Hx. unfold nd_get2, nd_index. rewrite Hshape.
  rewrite norm_index_in_range by lia. cbn [mbind res_bind shape buf].
  rewrite norm_index_in_range by lia. cbn [mbind res_bind shape buf size_of foldr].
  rewrite !Nat2Z.id, !Nat.mul_1_r. unfold nd_scalar. cbn [shape buf].
  rewrite (take1_drop _ j x); [done|].
  rewrite lookup_take_lt by done. by rewrite lookup_drop.
Qed.

Lemma nd_get3_flat (a : ndarray) (nz n m c i j : nat) (x : F) :
  shape a = [nz; n; m] → (c < nz)%nat → (i < n)%nat → (j < m)%nat →
  buf a !! (c * (n * m) + (i * m + j))%nat = Some x →
  nd_get3 a (Z.of_nat c) (Z.of_nat i) (Z.of_nat j) = Ok x.
Proof.
  intros Hshape Hc Hi Hj Hx.
  change (nd_get3 a (Z.of_nat c) (Z.of_nat i) (Z.of_nat j))
    with (nd_index a (Z.of_nat c) ≫= λ p, nd_get2 p (Z.of_nat i) (Z.of_nat j)).
  unfold nd_index. rewrite Hshape.
  rewrite norm_index_in_range by lia. cbn [mbind res_bind size_of foldr].
  rewrite Nat2Z.id, Nat.mul_1_r.
  apply (nd_get2_flat _ n m); [done..|]. cbn [buf].
  rewrite lookup_take_lt by (by apply offset_lt). by rewrite lookup_drop.
Qed.

Lemma nd_get2_bounds (a : ndarray) (n m : nat) (i j : Z) (x : F) :
  shape a = [n; m] → 0 ≤ i → 0 ≤ j → nd_get2 a i j = Ok x →
  i < Z.of_nat n ∧ j < Z.of_nat m.
Proof.
  intros Hshape Hi Hj H. unfold nd_get2, nd_index in H. rewrite Hshape in H.
  destruct (norm_index n i) as [k|] eqn:Hk; [|done].
  cbn [mbind res_bind shape buf] in H.
  destruct (norm_index m j) as [k'|] eqn:Hk'; [|done].
  apply norm_index_nonneg in Hk as [_ ?], Hk' as [_ ?]; done.
Qed.

Lemma chunks_length {A} (k n : nat) (l : list A) : length (chunks k n l) = n.
Proof. revert l. induction n as [|n IH]; intros l; simpl; [done|]. by rewrite IH. Qed.

Lemma chunks_lookup {A} (k n c : nat) (l : list A) :
  (c < n)%nat → chunks k n l !! c = Some (take k (drop (c * k) l)).
Proof.
  revert c l. induction n as [|n IH]; intros c l Hc; [lia|].
  destruct c as [|c]; simpl; [done|].
  rewrite IH by lia. by rewrite drop_drop.
Qed.

(** Adding lists up element by element adds up each position. *)
Lemma foldl_zip_with_lookup (cs : list (list F)) (xs : list F) (k : nat) :
  Forall2 (λ c x, c !! k = Some x) cs xs →
  ∀ (acc : list F) (a : F),
    acc !! k = Some a →
    foldl (zip_with fadd) acc cs !! k = Some (foldl fadd a xs).
Proof.
  induction 1 as [|c x cs xs Hc _ IH]; intros acc a Ha; simpl; [done|].
  apply IH. apply lookup_zip_with_Some. eauto.
Qed.

(** The sum over the first axis of a stack of matrices, entry by entry:
    the entries of the matrices at that place, added in order onto 0. *)
Lemma np_sum_axis0_entry (raw summed : ndarray) (nz n m i j : nat) :
  shape raw = [nz; n; m] → nd_wf raw → (i < n)%nat → (j < m)%nat →
  np_sum_axis0 raw = Ok summed →
  ∃ states,
    mapR (λ q, nd_get3 raw q (Z.of_nat i) (Z.of_nat j)) (range (Z.of_nat nz))
      = Ok states ∧
    nd_get2 summed (Z.of_nat i) (Z.of_nat j) = Ok (foldl fadd f0 states).
Proof.
  intros Hshape Hwf Hi Hj Hsum. unfold nd_wf in Hwf. rewrite Hshape in Hwf.
  cbn [size_of foldr] in Hwf. rewrite Nat.mul_1_r in Hwf.
  assert (Hbuf : ∀ c, (c < nz)%nat →
            ∃ x, buf raw !! (c * (n * m) + (i * m + j))%nat = Some x).
  { intros c Hc. apply lookup_lt_is_Some_2. rewrite Hwf.
    by apply offset_lt, offset_lt. }
  destruct (mapR_total (λ q, nd_get3 raw q (Z.of_nat i) (Z.of_nat j))
              (range (Z.of_nat nz))) as [states Hstates].
  { intros q Hq%elem_of_range. destruct (Hbuf (Z.to_nat q)) as [x Hx]; [lia|].
    exists x. rewrite <- (Z2Nat.id q) by lia.
    apply (nd_get3_flat raw nz n m); [done|lia|done..]. }
  exists states. split; [done|].
  unfold np_sum_axis0 in Hsum. rewrite Hshape in Hsum. injection Hsum as <-.
  cbn [size_of foldr]. rewrite Nat.mul_1_r.
  apply (nd_get2_flat _ n m); [done..|]. cbn [buf].
  apply foldl_zip_with_lookup; [|apply lookup_replicate_2; by apply offset_lt].
  pose proof (mapR_length _ _ _ Hstates) as Hlen.
  unfold range in Hlen. rewrite length_seqZ in Hlen.
  apply Forall2_same_length_lookup_2.
  { rewrite chunks_length. lia. }
  intros c ch x Hch Hx.
  assert (Hc : (c < nz)%nat) by (apply lookup_lt_Some in Hx; lia).
  rewrite chunks_lookup in Hch by done. injection Hch as <-.
  rewrite lookup_take_lt by (by apply offset_lt). rewrite lookup_drop.
  destruct (Hbuf c Hc) as [x' Hx']. rewrite Hx'. f_equal.
  assert (Hq : range (Z.of_nat nz) !! c = Some (Z.of_nat c)).
  { unfold range. rewrite lookup_seqZ_lt by lia. done. }
  destruct (mapR_lookup _ _ _ _ _ Hstates Hq) as (y & Hy & Hy').
  rewrite Hx in Hy'. injection Hy' as <-.
  rewrite (nd_get3_flat raw nz n m c i j x') in Hy by done. by injection Hy.
Qed.

(** X14.  With [charge='all'] on a variable that holds one matrix per charge
    state, the slot of a cell holds the sum of the cell's entries over all
    the matrices, the one at index 0 included, added in order onto 0, times
    [scaling]; or 0 where the core is masked. *)
Theorem read_data_2d_all_sums_charge_states (w w' : world) (dataname : string)
    (s : F) (no_core : bool) (data : list F) (raw : ndarray) (nz n m : nat) :
  read_data_2d dataname ChargeAll (Scale s) false no_core w = (Ok data, w') →
  dataname ≠ "Snorm" →
  nc_var (nc (self w)) dataname = Ok raw →
  shape raw = [nz; n; m] → nd_wf raw →
  ∀ (count : nat) (c : Z * Z),
    cells_of (self w) !! count = Some c →
    ∃ states,
      mapR (λ q, nd_get3 raw q c.1 c.2) (range (Z.of_nat nz)) = Ok states ∧
      data !! count =
        Some (if no_core && bool_decide (c.1 < irsep (self w) - 1) then f0
              else fmul (foldl fadd f0 states) s).
Proof.
  unfold read_data_2d, mbind at 1, M_bind, gets, lift.
  intros [= H _] Hname Hraw Hshape Hwf count c Hc.
  apply read_data_2d_on_spec in H as (summed & vals & Hsummed & Hvals & _ & ->).
  unfold raw_data_of, load_raw_data in Hsummed.
  rewrite decide_False in Hsummed by done. rewrite Hraw in Hsummed.
  cbn [mbind res_bind sum_charges] in Hsummed.
  destruct (mapR_lookup _ _ _ _ _ Hvals Hc) as (v & Hv & Hcount).
  unfold cell_value in Hv. cbn [raw_value] in Hv.
  apply bind_Ok in Hv as (x & Hx & [= <-]).
  assert (Hgrid : 0 ≤ c.1 ∧ 0 ≤ c.2).
  { apply list_elem_of_lookup_2 in Hc. unfold cells_of, live_cells in Hc.
    apply list_elem_of_In, filter_In in Hc as [Hc%list_elem_of_In _].
    apply elem_of_grid_cells in Hc as (? & k & _ & ?). lia. }
  assert (Hss : shape summed = [n; m]).
  { unfold np_sum_axis0 in Hsummed. rewrite Hshape in Hsummed.
    by injection Hsummed as <-. }
  destruct (nd_get2_bounds _ _ _ _ _ _ Hss (proj1 Hgrid) (proj2 Hgrid) Hx)
    as [Hi Hj].
  destruct (np_sum_axis0_entry raw summed nz n m (Z.to_nat c.1) (Z.to_nat c.2)
              Hshape Hwf) as (states & Hstates & Hentry); [lia|lia|done|].
  rewrite !Z2Nat.id in Hstates, Hentry by lia.
  rewrite Hx in Hentry. injection Hentry as ->.
  exists states. split; [done|]. by apply lookup_app_l_Some.
Qed.

Lemma read_data_2d_all_sums_charge_states_witness :
  read_data_2d "DDLIMS" ChargeAll (Scale (Demo.z 1)) false false Demo.w0
    = (Ok (Demo.z <$> [30; 32; 34; 38; 40; 42]), Demo.w0) ∧
  ∀ (count : nat) (c : Z * Z),
    cells_of (self Demo.w0) !! count = Some c →
    ∃ states,
      mapR (λ q, nd_get3 Demo.charged q c.1 c.2) (range (Z.of_nat 3)) = Ok states ∧
      (Demo.z <$> [30; 32; 34; 38; 40; 42]) !! count =
        Some (if false && bool_decide (c.1 < irsep (self Demo.w0) - 1) then f0
              else fmul (foldl fadd f0 states) (Demo.z 1)).
Proof.
  assert (H : read_data_2d "DDLIMS" ChargeAll (Scale (Demo.z 1)) false false Demo.w0
              = (Ok (Demo.z <$> [30; 32; 34; 38; 40; 42]), Demo.w0))
    by (vm_compute; reflexivity).
  split; [exact H|].
  apply (read_data_2d_all_sums_charge_states Demo.w0 Demo.w0 "DDLIMS" (Demo.z 1)
           false _ Demo.charged 3 3 3 H);
    [discriminate|vm_compute; reflexivity|reflexivity|reflexivity].
Defined.

(** ** C1: [read_data_2d] flattens the field *)

Lemma nd_get2_shape (a : ndarray) (i j : Z) (x : F) :
  nd_get2 a i j = Ok x → ∃ n m, shape a = [n; m].
Proof.
  unfold nd_get2, nd_index, nd_scalar. intros H.
  destruct (shape a) as [|n [|m [|k rest]]]; [done| | |].
  - destruct (norm_index n i); done.
  - by exists n, m.
  - destruct (norm_index n i); [|done]. cbn [mbind res_bind shape] in H.
    destruct (norm_index m j); [|done]. done.
Qed.

(** What the loop reads for a cell is the number the cell has in the
    variable: for ['all'] the entry of the sum over the first axis is the
    sum of the entries. *)
Lemma raw_value_charge_entry (raw summed : ndarray) (charge : charge_arg)
    (ir ik : Z) (v : F) :
  (charge = ChargeAll → nd_wf raw) → 0 ≤ ir → 0 ≤ ik →
  sum_charges charge raw = Ok summed →
  raw_value charge summed ir ik = Ok v →
  charge_entry raw charge ir ik = Ok v.
Proof.
  intros Hwf Hir Hik Hsum Hv.
  destruct charge as [| |c]; [by injection Hsum as <-| |by injection Hsum as <-].
  cbn [sum_charges raw_value charge_entry] in *. specialize (Hwf eq_refl).
  destruct (nd_get2_shape _ _ _ _ Hv) as (n & m & Hshape).
  destruct (nd_get2_bounds _ _ _ _ _ _ Hshape Hir Hik Hv) as [Hi Hj].
  assert (Hraw : ∃ nz, shape raw = [nz; n; m]).
  { unfold np_sum_axis0 in Hsum. destruct (shape raw) as [|nz rest]; [done|].
    injection Hsum as <-. cbn [shape] in Hshape. subst rest. by exists nz. }
  destruct Hraw as [nz Hraw].
  destruct (np_sum_axis0_entry raw summed nz n m (Z.to_nat ir) (Z.to_nat ik)
              Hraw Hwf) as (states & Hstates & Hentry); [lia|lia|done|].
  rewrite !Z2Nat.id in Hstates, Hentry by lia.
  rewrite Hv in Hentry. injection Hentry as ->.
  unfold first_axis. rewrite Hraw, Hstates. done.
Qed.

(** C1.  With the fill-value pass and the core mask left off and a numeric
    [scaling], [read_data_2d] returns an array of length [num_cells] whose
    entry number [count] belongs to the [count]-th cell of non-zero area in
    ring-major, knot-minor order [(ir, ik)].  With [raw_data] the variable
    the method loads, the entry is [raw_data[ir][ik] * scaling] for [charge]
    [None], [raw_data[charge + 1][ir][ik] * scaling] for a charge state, and
    for ['all'] the sum over the first axis, [raw_data[0][ir][ik] + ... +
    raw_data[nz - 1][ir][ik]] added in this order onto zero, times
    [scaling]; the slots after the last such cell keep their zero. *)
Theorem read_data_2d_flattens (w w' : world) (dataname : string)
    (charge : charge_arg) (s : F) (data : list F) (raw_data : ndarray) :
  read_data_2d dataname charge (Scale s) false false w = (Ok data, w') →
  load_raw_data (self w) dataname = Ok raw_data →
  (charge = ChargeAll → nd_wf raw_data) →
  Z.of_nat (length data) = num_cells (self w) ∧
  (∀ (count : nat) (ir ik : Z),
     cells_of (self w) !! count = Some (ir, ik) →
     ∃ v, charge_entry raw_data charge ir ik = Ok v ∧
          data !! count = Some (fmul v s)) ∧
  (∀ count : nat,
     (length (cells_of (self w)) ≤ count < length data)%nat →
     data !! count = Some f0).
Proof.
  unfold read_data_2d. intros H Hraw Hwf. injection H as H _.
  apply read_data_2d_on_spec in H as (summed & vals & Hsum & Hvals & Hlen & Hdata).
  unfold raw_data_of in Hsum. rewrite Hraw in Hsum. cbn [mbind res_bind] in Hsum.
  split_and!; [done| |].
  - intros count ir ik Hcell.
    destruct (mapR_lookup _ _ _ _ _ Hvals Hcell) as (x & Hx & Hk).
    unfold cell_value in Hx. simpl in Hx.
    apply bind_Ok in Hx as (v & Hv & [= <-]).
    assert (Hgrid : 0 ≤ ir ∧ 0 ≤ ik).
    { apply list_elem_of_lookup_2 in Hcell. unfold cells_of, live_cells in Hcell.
      apply list_elem_of_In, filter_In in Hcell as [Hc%list_elem_of_In _].
      apply elem_of_grid_cells in Hc as (? & k & _ & ?). simpl in *. lia. }
    exists v. split.
    + apply (raw_value_charge_entry raw_data summed); [done|lia|lia|done|done].
    + rewrite Hdata. by apply lookup_app_l_Some.
  - intros count [Hge Hlt].
    apply mapR_length in Hvals. rewrite Hdata at 1.
    rewrite lookup_app_r by lia.
    apply lookup_replicate_2. lia.
Qed.

(** On the small grid, [DDLIMS] scaled by 2.  With ['all'] the fourth entry
    is the sum 0 + 14 + 24 of the three entries of cell (1, 2), doubled; with
    charge state 1 it is the entry 24 at index 2, doubled. *)
Lemma read_data_2d_flattens_witness :
  let summed := Demo.z <$> [60; 64; 68; 76; 80; 84] in
  let state := Demo.z <$> [40; 42; 44; 48; 50; 52] in
  load_raw_data Demo.obj "DDLIMS" = Ok Demo.charged ∧
  nd_wf Demo.charged ∧
  read_data_2d "DDLIMS" ChargeAll (Scale (Demo.z 2)) false false Demo.w0
    = (Ok summed, Demo.w0) ∧
  read_data_2d "DDLIMS" (ChargeState 1) (Scale (Demo.z 2)) false false Demo.w0
    = (Ok state, Demo.w0) ∧
  (∀ (count : nat) (ir ik : Z),
     cells_of Demo.obj !! count = Some (ir, ik) →
     ∃ v, charge_entry Demo.charged ChargeAll ir ik = Ok v ∧
          summed !! count = Some (fmul v (Demo.z 2))) ∧
  (∀ (count : nat) (ir ik : Z),
     cells_of Demo.obj !! count = Some (ir, ik) →
     ∃ v, charge_entry Demo.charged (ChargeState 1) ir ik = Ok v ∧
          state !! count = Some (fmul v (Demo.z 2))).
Proof.
  intros summed state.
  assert (Hraw : load_raw_data (self Demo.w0) "DDLIMS" = Ok Demo.charged)
    by (vm_compute; reflexivity).
  assert (Hwf : nd_wf Demo.charged) by reflexivity.
  assert (Hall : read_data_2d "DDLIMS" ChargeAll (Scale (Demo.z 2)) false false
                   Demo.w0 = (Ok summed, Demo.w0)) by (vm_compute; reflexivity).
  assert (Hone : read_data_2d "DDLIMS" (ChargeState 1) (Scale (Demo.z 2)) false
                   false Demo.w0 = (Ok state, Demo.w0)) by (vm_compute; reflexivity).
  split_and!; [exact Hraw|exact Hwf|exact Hall|exact Hone| |].
  - exact (proj1 (proj2 (read_data_2d_flattens Demo.w0 Demo.w0 "DDLIMS" ChargeAll
                           (Demo.z 2) summed Demo.charged Hall Hraw (λ _, Hwf)))).
  - exact (proj1 (proj2 (read_data_2d_flattens Demo.w0 Demo.w0 "DDLIMS"
                           (ChargeState 1) (Demo.z 2) state Demo.charged Hone Hraw
                           (λ _, Hwf)))).
Defined.

(** * [read_data_2d] with [dataname='Snorm'] *)

Lemma nd_index_buf (a b : ndarray) (i : Z) (x : F) :
  nd_index a i = Ok b → x ∈ buf b → x ∈ buf a.
Proof.
  unfold nd_index. destruct (shape a) as [|n rest]; [done|].
  destruct (norm_index n i) as [k|]; [|done]. intros [= <-]. cbn [buf].
  intros Hx. apply list_elem_of_lookup in Hx as [p Hp].
  apply lookup_take_Some in Hp as [Hp _]. rewrite lookup_drop in Hp.
  by eapply list_elem_of_lookup_2.
Qed.

(** A number read from an array is one of its elements. *)
Lemma nd_get2_elem (a : ndarray) (i j : Z) (x : F) :
  nd_get2 a i j = Ok x → x ∈ buf a.
Proof.
  unfold nd_get2. intros H.
  apply bind_Ok in H as (r & Hr & H). apply bind_Ok in H as (c & Hc & H).
  apply (nd_index_buf _ _ _ _ Hr), (nd_index_buf _ _ _ _ Hc).
  unfold nd_scalar in H. destruct (shape c); [|done].
  destruct (buf c) as [|y [|]]; try done. injection H as ->. left.
Qed.

(** An absolute value times a factor that is not negative is not below
    zero: it is a zero, positive or a NaN. *)
Lemma fmul_fabs_not_negative (y s : F) :
  sign_free s = true → fltb (fmul (fabs y) s) f0 = false.
Proof.
  unfold fabs, SFabs, fmul, SFmul.
  destruct y as [sy|sy| |sy m e], s as [[]|[]| |[] m' e']; try done; intros _;
    match goal with
    | |- context [binary_round_aux ?p ?em ?s ?m ?e ?l] =>
        destruct (binary_round_aux_signed p em s m e l)
          as [->|[->|(m1 & e1 & ->)]]; [lia|done..]
    end.
Qed.

(** X15.  The normalized s coordinate [read_data_2d('Snorm')] returns, times a
    scaling factor that is not negative, has no value below zero: every
    slot holds an absolute value times the factor, a zero or a NaN. *)
Theorem read_data_2d_snorm_not_negative (w w' : world) (s : F)
    (fix_fill no_core : bool) (data : list F) :
  read_data_2d "Snorm" ChargeNone (Scale s) fix_fill no_core w = (Ok data, w') →
  sign_free s = true →
  Forall (λ x, fltb x f0 = false) data.
Proof.
  unfold read_data_2d, mbind at 1, M_bind, gets, lift. intros [= H _] Hs.
  rewrite read_data_2d_on_fix_fill in H.
  apply bind_Ok in H as (before & Hbefore & H).
  assert (Hb : Forall (λ x, fltb x f0 = false) before).
  { apply read_data_2d_on_spec in Hbefore as (raw & vals & Hraw & Hvals & _ & ->).
    apply Forall_app. split; [|by apply Forall_replicate].
    unfold raw_data_of, load_raw_data in Hraw. rewrite decide_True in Hraw by done.
    apply bind_Ok in Hraw as (raw' & Hraw' & Hraw).
    apply bind_Ok in Hraw' as (ksb & _ & Hraw').
    apply bind_Ok in Hraw' as (divided & _ & [= <-]).
    cbn [sum_charges] in Hraw. injection Hraw as <-.
    eapply mapR_Forall; [|exact Hvals]. intros c v Hv. cbn beta.
    unfold cell_value in Hv. cbn [raw_value] in Hv.
    apply bind_Ok in Hv as (x & Hx & [= <-]).
    destruct (no_core && bool_decide (c.1 < irsep (self w) - 1)); [done|].
    apply nd_get2_elem in Hx. unfold nd_map in Hx. cbn [buf] in Hx.
    apply list_elem_of_fmap in Hx as (y & -> & _).
    by apply fmul_fabs_not_negative. }
  destruct fix_fill; [|by injection H as <-].
  apply fix_fill_values_inv in H as (m & _ & ->).
  unfold fill_with_nan. apply Forall_fmap.
  eapply Forall_impl; [exact Hb|]. intros x Hx. cbn.
  by destruct (feqb x m).
Qed.

Lemma read_data_2d_snorm_not_negative_witness :
  read_data_2d "Snorm" ChargeNone (Scale (Demo.z 1)) false false Demo.w0
    = (Ok [Demo.z 4; Demo.z 5; Demo.h 0; Demo.z 1; Demo.z 0; Demo.z 1], Demo.w0) ∧
  Forall (λ x, fltb x f0 = false)
    [Demo.z 4; Demo.z 5; Demo.h 0; Demo.z 1; Demo.z 0; Demo.z 1].
Proof.
  assert (H : read_data_2d "Snorm" ChargeNone (Scale (Demo.z 1)) false false Demo.w0
              = (Ok [Demo.z 4; Demo.z 5; Demo.h 0; Demo.z 1; Demo.z 0; Demo.z 1],
                 Demo.w0)) by (vm_compute; reflexivity).
  split; [exact H|].
  exact (read_data_2d_snorm_not_negative Demo.w0 Demo.w0 (Demo.z 1) false false _
           H eq_refl).
Defined.
